(** * libcpr: clone a file or a byte range, with a deep-copy fallback

    A shallow embedding of [src/libcpr.c] and the properties of its two
    exported functions, [qtm_clone_file] and [qtm_clone_file_range].

    The C code talks to the kernel through [ioctl], [lseek], [read],
    [write], [malloc] and [free].  Those calls are modelled as primitive
    actions of a small state monad over a [world]:

    - the contents and the file offset of the two files the descriptors
      [src_fd] and [dst_fd] denote (two distinct regular files, that
      nobody else modifies while the call runs);
    - [errno], that a failing call sets and a successful call leaves;
    - the trace of the calls made so far;
    - an oracle: for every call still to come, what the kernel decides to
      do with it (succeed, transfer fewer bytes than asked, fail with an
      error number, the interrupted call being the error number [EINTR]).
      The oracle is a finite list; a call past its end succeeds in full.

    A [read] returns 0 at the end of the file only, and a [write] of a
    positive count that succeeds writes one byte at least, as they do on
    regular files.

    Integers are in [Z]: [int] is 32 bits wide, [off_t], [size_t] and
    [ssize_t] 64 bits; the one conversion that loses bits, of the result
    of [lseek] to [int], is written out ([to_int]).  The theorems take the
    arguments of type [size_t] non-negative.

    The loops of the C code take fuel; a computation that runs out of it
    has no result. *)

From Stdlib Require Import ZArith List Lia Bool.
From Stdlib Require Import Init.Byte Strings.Byte.
From Stdlib Require Strings.Ascii Strings.String.
Import ListNotations.

#[local] Open Scope Z_scope.

(** ** Constants of <errno.h> (Linux values) *)

Definition EINTR  : Z := 4.
Definition ENOMEM : Z := 12.
Definition EINVAL : Z := 22.
Definition ERANGE : Z := 34.

(** ** The world *)

(** The two open files of a call. *)
Inductive handle : Type := Src | Dst.

Record file : Type := mkFile {
  f_data : list byte;   (* the bytes of the file *)
  f_pos  : Z            (* the file offset of the descriptor *)
}.

(** What the kernel does with one call. *)
Inductive response : Type :=
| Full                      (* the call succeeds and transfers all it can *)
| Short (cap : positive)    (* it succeeds, transferring at most [cap] bytes *)
| Fail (e : positive).      (* it fails and sets errno to [e] *)

Inductive event : Type :=
| EvFiclone
| EvFiclonerange (src_offset dst_offset length : Z)
| EvLseek (h : handle) (offset : Z)
| EvMalloc (size : Z)
| EvRead (h : handle) (count : Z) (got : list byte)
| EvWrite (h : handle) (put : list byte)
| EvFree.

Record world : Type := mkWorld {
  w_src    : file;
  w_dst    : file;
  w_errno  : Z;
  w_trace  : list event;
  w_oracle : list response
}.

Definition get_file (h : handle) (w : world) : file :=
  match h with Src => w_src w | Dst => w_dst w end.

Definition set_file (h : handle) (f : file) (w : world) : world :=
  match h with
  | Src => mkWorld f (w_dst w) (w_errno w) (w_trace w) (w_oracle w)
  | Dst => mkWorld (w_src w) f (w_errno w) (w_trace w) (w_oracle w)
  end.

Definition set_errno (e : Z) (w : world) : world :=
  mkWorld (w_src w) (w_dst w) e (w_trace w) (w_oracle w).

Definition log (ev : event) (w : world) : world :=
  mkWorld (w_src w) (w_dst w) (w_errno w) (w_trace w ++ [ev]) (w_oracle w).

(** The kernel's answer to the next call; an exhausted oracle answers
    [Full] from then on. *)
Definition pop_oracle (w : world) : response * world :=
  (hd Full (w_oracle w),
   mkWorld (w_src w) (w_dst w) (w_errno w) (w_trace w) (tl (w_oracle w))).

(** ** File contents *)

Definition zlen (l : list byte) : Z := Z.of_nat (length l).

(** The [len] bytes of [data] from offset [off] on (fewer at the end). *)
Definition sub (data : list byte) (off len : Z) : list byte :=
  firstn (Z.to_nat len) (skipn (Z.to_nat off) data).

(** The first [n] bytes of a file grown to [n] bytes at least: what lies
    past the end of [data] reads as zero. *)
Definition pad (data : list byte) (n : nat) : list byte :=
  firstn n data ++ repeat x00 (n - length data).

(** [data] after [bytes] are written at offset [pos]: a write past the end
    leaves a hole of zero bytes, a write of nothing changes nothing. *)
Definition pwrite (data : list byte) (pos : Z) (bytes : list byte) : list byte :=
  match bytes with
  | [] => data
  | _ :: _ =>
      pad data (Z.to_nat pos)
      ++ bytes
      ++ skipn (Z.to_nat pos + length bytes) data
  end.

(** The bytes left between the file offset and the end of the file. *)
Definition avail (f : file) : Z := Z.max 0 (zlen (f_data f) - f_pos f).

(** The number of bytes a transfer moves under the response [r], when
    [limit] bytes can be moved at all: at least one when [limit > 0]. *)
Definition granted (r : response) (limit : Z) : Z :=
  match r with
  | Full => limit
  | Short cap => Z.min limit (Z.pos cap)
  | Fail _ => 0
  end.

(** ** The monad *)

Definition M (A : Type) : Type := world -> option (A * world).

Definition ret {A} (a : A) : M A := fun w => Some (a, w).

Definition bind {A B} (m : M A) (k : A -> M B) : M B :=
  fun w => match m w with
           | Some (a, w') => k a w'
           | None => None
           end.

(** Out of fuel. *)
Definition spin {A} : M A := fun _ => None.

Declare Scope cpr_scope.
Delimit Scope cpr_scope with cpr.
Notation "x <- m ;; k" := (bind m (fun x => k))
  (at level 61, m at next level, right associativity) : cpr_scope.
Notation "m ;;; k" := (bind m (fun _ => k))
  (at level 61, right associativity) : cpr_scope.
#[local] Open Scope cpr_scope.

Definition get_errno : M Z := fun w => Some (w_errno w, w).

(** ** The system calls *)

(** [ioctl(dst_fd, FICLONERANGE, {src_fd, src_offset, length, dst_offset})]:
    on success the file of [dst_fd] shares the bytes of the range with the
    file of [src_fd] (to the end of the source when [length] is 0); a
    range that leaves the source is refused with [EINVAL].  Neither file
    offset moves. *)
Definition clone_range (dst_fd src_fd : handle)
    (src_offset dst_offset length : Z) (w : world) : Z * world :=
  let (r, w1) := pop_oracle w in
  match r with
  | Fail e => (-1, set_errno (Z.pos e) w1)
  | _ =>
      let src := get_file src_fd w1 in
      let dst := get_file dst_fd w1 in
      let size := zlen (f_data src) in
      if (src_offset <? 0) || (dst_offset <? 0) || (length <? 0)
         || (size <? src_offset + length)
      then (-1, set_errno EINVAL w1)
      else
        let n := if length =? 0 then size - src_offset else length in
        let d := pwrite (f_data dst) dst_offset
                        (sub (f_data src) src_offset n) in
        (0, set_file dst_fd (mkFile d (f_pos dst)) w1)
  end.

Definition ioctl_FICLONERANGE (dst_fd src_fd : handle)
    (src_offset dst_offset length : Z) : M Z :=
  fun w => Some (clone_range dst_fd src_fd src_offset dst_offset length
                   (log (EvFiclonerange src_offset dst_offset length) w)).

(** [ioctl(dst_fd, FICLONE, src_fd)]: the whole source, at offset 0. *)
Definition ioctl_FICLONE (dst_fd src_fd : handle) : M Z :=
  fun w => Some (clone_range dst_fd src_fd 0 0 0 (log EvFiclone w)).

(** [lseek(fd, offset, SEEK_SET)]: the new offset, or -1. *)
Definition lseek (fd : handle) (offset : Z) : M Z :=
  fun w =>
    let (r, w1) := pop_oracle (log (EvLseek fd offset) w) in
    match r with
    | Fail e => Some (-1, set_errno (Z.pos e) w1)
    | _ =>
        if offset <? 0 then Some (-1, set_errno EINVAL w1)
        else Some (offset,
                   set_file fd (mkFile (f_data (get_file fd w1)) offset) w1)
    end.

(** [malloc(size)]: [true] for a block, [false] for NULL. *)
Definition malloc (size : Z) : M bool :=
  fun w =>
    let (r, w1) := pop_oracle (log (EvMalloc size) w) in
    match r with
    | Fail e => Some (false, set_errno (Z.pos e) w1)
    | _ => Some (true, w1)
    end.

Definition free : M unit := fun w => Some (tt, log EvFree w).

(** [read(fd, buf, count)]: the number of bytes read, or -1, and the bytes
    now at the start of the buffer.  Zero is returned at end of file
    only (for a positive [count]). *)
Definition read (fd : handle) (count : Z) : M (Z * list byte) :=
  fun w =>
    let (r, w1) := pop_oracle w in
    match r with
    | Fail e => Some ((-1, []), log (EvRead fd count []) (set_errno (Z.pos e) w1))
    | _ =>
        let f := get_file fd w1 in
        let n := granted r (Z.min (Z.max 0 count) (avail f)) in
        let got := sub (f_data f) (f_pos f) n in
        Some ((n, got),
              log (EvRead fd count got)
                  (set_file fd (mkFile (f_data f) (f_pos f + n)) w1))
    end.

(** [write(fd, buf, count)] for a buffer holding [buf] and a positive
    [count]: the number of bytes written, at least one, or -1. *)
Definition write (fd : handle) (buf : list byte) (count : Z) : M Z :=
  fun w =>
    let (r, w1) := pop_oracle w in
    match r with
    | Fail e => Some (-1, log (EvWrite fd []) (set_errno (Z.pos e) w1))
    | _ =>
        let f := get_file fd w1 in
        let n := granted r (Z.min (Z.max 0 count) (zlen buf)) in
        let put := firstn (Z.to_nat n) buf in
        Some (n,
              log (EvWrite fd put)
                  (set_file fd (mkFile (pwrite (f_data f) (f_pos f) put)
                                       (f_pos f + n)) w1))
    end.

(** ** The C code *)

(** Conversion to [int] (32 bits, two's complement), as in
    [int rc = lseek(...)], where [lseek] returns the 64-bit [off_t]. *)
Definition to_int (z : Z) : Z := (z + 2 ^ 31) mod 2 ^ 32 - 2 ^ 31.

(** [#define MIN(x_, y_) (((x_) <= (y_)) ? (x_) : (y_))] *)
Definition MIN (x_ y_ : Z) : Z := if x_ <=? y_ then x_ else y_.

(** [static int clone_file_range_impl (src_fd, dst_fd, src_offset,
    dst_offset, length)] *)
Definition clone_file_range_impl (src_fd dst_fd : handle)
    (src_offset dst_offset length : Z) : M Z :=
  rc <- ioctl_FICLONERANGE dst_fd src_fd src_offset dst_offset length ;;
  if rc <? 0 then get_errno else ret rc.

(** [static int clone_file_impl (src_fd, dst_fd)] *)
Definition clone_file_impl (src_fd dst_fd : handle) : M Z :=
  rc <- ioctl_FICLONE dst_fd src_fd ;;
  if rc <? 0 then get_errno else ret rc.

(** [static int seek_file (fd, offset)] *)
Definition seek_file (fd : handle) (offset : Z) : M Z :=
  r <- lseek fd offset ;;
  let rc := to_int r in
  if rc =? -1 then get_errno
  else if rc >? 0 then ret 0
  else ret rc.

(** [static int write_block (fd, p_block, length)]; [p_block] is the
    content of the buffer from the pointer on. *)
Fixpoint write_block (fuel : nat) (fd : handle) (p_block : list byte)
    (length : Z) : M Z :=
  if length >? 0 then
    match fuel with
    | O => spin
    | S fuel' =>
        wrote_now <- write fd p_block length ;;
        if wrote_now <? 0 then
          e <- get_errno ;;
          if e =? EINTR then write_block fuel' fd p_block length
          else ret e
        else
          write_block fuel' fd (skipn (Z.to_nat wrote_now) p_block)
                      (length - wrote_now)
    end
  else ret 0.

(** How one turn of the copy loop ends: back to the loop test with new
    values of [rc] and [remain], or out of the loop with [rc]. *)
Inductive turn : Type :=
| Again (rc remain : Z)
| Leave (rc : Z).

(** The body of the [while (remain > 0)] loop of
    [deep_copy_file_range_impl]. *)
Definition copy_body (fuel : nat) (src_fd dst_fd : handle)
    (length block_size rc remain : Z) : M turn :=
  let read_max := MIN block_size remain in
  rd <- read src_fd read_max ;;
  let read_now := fst rd in
  let p_block := snd rd in
  if read_now <? 0 then
    e <- get_errno ;;
    if e =? EINTR then ret (Again rc remain)
    else ret (Leave e)
  else if (read_now =? 0) && (length =? 0) then
    ret (Leave rc)
  else if (read_now =? 0) && negb (remain =? 0) then
    ret (Leave ERANGE)
  else
    rc' <- write_block fuel dst_fd p_block read_now ;;
    if negb (rc' =? 0) then ret (Leave rc')
    else if negb (length =? 0) then ret (Again rc' (remain - read_now))
    else ret (Again rc' remain).

Fixpoint copy_loop (fuel : nat) (src_fd dst_fd : handle)
    (length block_size rc remain : Z) : M Z :=
  if remain >? 0 then
    match fuel with
    | O => spin
    | S fuel' =>
        t <- copy_body fuel' src_fd dst_fd length block_size rc remain ;;
        match t with
        | Again rc' remain' =>
            copy_loop fuel' src_fd dst_fd length block_size rc' remain'
        | Leave rc' => ret rc'
        end
    end
  else ret rc.

(** [static int deep_copy_file_range_impl (src_fd, dst_fd, src_offset,
    dst_offset, length, block_size)] *)
Definition deep_copy_file_range_impl (fuel : nat) (src_fd dst_fd : handle)
    (src_offset dst_offset length block_size : Z) : M Z :=
  rc <- seek_file src_fd src_offset ;;
  rc <- (if rc =? 0 then seek_file dst_fd dst_offset else ret rc) ;;
  if negb (rc =? 0) then ret rc
  else
    p_block <- malloc (block_size * 1) ;;
    if negb p_block then ret ENOMEM
    else
      let remain := if negb (length =? 0) then length else block_size in
      rc <- copy_loop fuel src_fd dst_fd length block_size rc remain ;;
      free ;;;
      ret rc.

(** [int qtm_clone_file (src_fd, dst_fd, fallback_copy,
    fallback_copy_block_size)]; the descriptors are the integers the
    caller passes, and denote the files [Src] and [Dst] of the world. *)
Definition qtm_clone_file (fuel : nat) (src_fd dst_fd : Z)
    (fallback_copy : bool) (fallback_copy_block_size : Z) : M Z :=
  if (src_fd <? 0) || (dst_fd <? 0)
     || (fallback_copy && (fallback_copy_block_size =? 0))
  then ret EINVAL
  else
    rc <- clone_file_impl Src Dst ;;
    if negb (rc =? 0) && fallback_copy
    then deep_copy_file_range_impl fuel Src Dst 0 0 0 fallback_copy_block_size
    else ret rc.

(** [int qtm_clone_file_range (src_fd, dst_fd, src_offset, dst_offset,
    length, fallback_copy, fallback_copy_block_size)] *)
Definition qtm_clone_file_range (fuel : nat) (src_fd dst_fd : Z)
    (src_offset dst_offset length : Z)
    (fallback_copy : bool) (fallback_copy_block_size : Z) : M Z :=
  if (src_fd <? 0) || (dst_fd <? 0) || (src_offset <? 0) || (dst_offset <? 0)
     || (fallback_copy && (fallback_copy_block_size =? 0))
  then ret EINVAL
  else
    rc <- clone_file_range_impl Src Dst src_offset dst_offset length ;;
    if negb (rc =? 0) && fallback_copy
    then deep_copy_file_range_impl fuel Src Dst src_offset dst_offset length
                                   fallback_copy_block_size
    else ret rc.

(** ** Running the code *)

(** Bytes [i mod 251] for [i < n], a test pattern. *)
Definition pattern (n : nat) : list byte :=
  map (fun i => match Byte.of_nat (i mod 251) with
                | Some b => b
                | None => x00
                end) (seq 0 n).

Definition fresh (data : list byte) : file := mkFile data 0.

Definition start (src dst : list byte) (o : list response) : world :=
  mkWorld (fresh src) (fresh dst) 0 [] o.

(** ** Observations *)

(** The number of bytes the [write] calls of a trace put into [Dst]. *)
Fixpoint bytes_written (tr : list event) : Z :=
  match tr with
  | [] => 0
  | EvWrite Dst put :: tr' => zlen put + bytes_written tr'
  | _ :: tr' => bytes_written tr'
  end.

(** The numbers of bytes the successive [read] calls of a trace got from
    [Src] (0 for a call that failed as for one at the end of the file). *)
Fixpoint reads_of (tr : list event) : list Z :=
  match tr with
  | [] => []
  | EvRead Src _ got :: tr' => zlen got :: reads_of tr'
  | _ :: tr' => reads_of tr'
  end.

(** The byte at offset [i] of a file content, if any. *)
Definition byte_at (data : list byte) (i : Z) : option byte :=
  if i <? 0 then None else nth_error data (Z.to_nat i).

(** Fuel that suffices for a deep copy started in [w]. *)
Definition enough (w : world) : nat :=
  S (S (length (w_oracle w) + length (f_data (w_src w)))).

(** ** Invariants of the two loops *)

Definition is_write (ev : event) : Prop := exists put, ev = EvWrite Dst put.

(** [w'] is [w] after the first [j] bytes of [buf] went to [Dst] at its
    file offset, through [write] calls only. *)
Record wrote (buf : list byte) (j : Z) (w w' : world) : Prop := {
  wr_src    : w_src w' = w_src w;
  wr_data   : f_data (w_dst w')
              = pwrite (f_data (w_dst w)) (f_pos (w_dst w))
                       (firstn (Z.to_nat j) buf);
  wr_pos    : f_pos (w_dst w') = f_pos (w_dst w) + j;
  wr_trace  : exists evs, w_trace w' = w_trace w ++ evs
                          /\ Forall is_write evs /\ bytes_written evs = j;
  wr_oracle : exists c, w_oracle w' = skipn c (w_oracle w)
}.

(** [w] is a world of a deep copy that started with the file contents
    [src0] and [dst0] and the trace [tr0], seeked to [src_offset] and
    [dst_offset], and has copied [k] bytes since. *)
Record copied (src0 dst0 : list byte) (tr0 : list event)
    (src_offset dst_offset k : Z) (w : world) : Prop := {
  cp_src     : f_data (w_src w) = src0;
  cp_src_pos : f_pos (w_src w) = src_offset + k;
  cp_dst     : f_data (w_dst w) = pwrite dst0 dst_offset (sub src0 src_offset k);
  cp_dst_pos : f_pos (w_dst w) = dst_offset + k;
  cp_count   : 0 <= k /\ zlen (sub src0 src_offset k) = k;
  cp_written : bytes_written (w_trace w) = bytes_written tr0 + k
}.

(** The number of bytes a span of [length] bytes from [src_offset] covers
    in a source holding [src]: [length] itself, or for the length 0 what
    the source holds from [src_offset] on. *)
Definition span (src : list byte) (src_offset length : Z) : Z :=
  if length =? 0 then Z.max 0 (zlen src - src_offset) else length.

(** The world after a successful [lseek(fd, offset, SEEK_SET)]. *)
Definition seeked (fd : handle) (offset : Z) (w : world) : world :=
  set_file fd (mkFile (f_data (get_file fd w)) offset)
    (mkWorld (w_src w) (w_dst w) (w_errno w)
             (w_trace w ++ [EvLseek fd offset]) (tl (w_oracle w))).

(** The world after a failed call that logged [ev]. *)
Definition failed (ev : event) (e : Z) (w : world) : world :=
  mkWorld (w_src w) (w_dst w) e (w_trace w ++ [ev]) (tl (w_oracle w)).

(** The world after a successful clone [ioctl] that logged [ev]. *)
Definition cloned (ev : event) (src_offset dst_offset length : Z) (w : world)
  : world :=
  mkWorld (w_src w)
          (mkFile (pwrite (f_data (w_dst w)) dst_offset
                          (sub (f_data (w_src w)) src_offset
                               (if length =? 0
                                then zlen (f_data (w_src w)) - src_offset
                                else length)))
                  (f_pos (w_dst w)))
          (w_errno w) (w_trace w ++ [ev]) (tl (w_oracle w)).

(** An oracle under which no call fails or is interrupted. *)
Definition answers_ok (o : list response) : Prop :=
  forall e, ~ In (Fail e) o.

(** The run from [w] to [w'] ended on a call that the kernel failed with
    the error number [e]: of the answers [w] had in store, the run
    consumed some and then [Fail e], the last one. *)
Definition last_call_failed (e : positive) (w w' : world) : Prop :=
  exists pre, w_oracle w = pre ++ Fail e :: w_oracle w'.


(** ** More observations of a deep copy *)

(** [w] is a world of a deep copy that started with the file contents
    [src0] and [dst0] and the trace [tr0], and has written [k] bytes of
    the source, from [src_offset] on, at [dst_offset], whatever it has
    read since. *)
Record written (src0 dst0 : list byte) (tr0 : list event)
    (src_offset dst_offset k : Z) (w : world) : Prop := {
  wt_src     : f_data (w_src w) = src0;
  wt_dst     : f_data (w_dst w) = pwrite dst0 dst_offset (sub src0 src_offset k);
  wt_count   : 0 <= k /\ zlen (sub src0 src_offset k) = k;
  wt_written : bytes_written (w_trace w) = bytes_written tr0 + k
}.

(** A call of the copy loop that fits a block of [block_size] bytes: a
    [read] from [Src] of a positive count within the block, that got no
    more than it asked for, or a [write] to [Dst] of no more than a
    block. *)
Definition block_call (block_size : Z) (ev : event) : Prop :=
  match ev with
  | EvRead Src count got => 0 < count <= block_size /\ zlen got <= count
  | EvWrite Dst put => zlen put <= block_size
  | _ => False
  end.

(** * The program cpr (cpr.c)

    The driver of the library: it reads its options, opens the two files,
    calls one of the two exported functions, copies the attributes asked
    for, syncs and closes.  Its own system calls ([open], [fstat],
    [fchown], [futimens], [fchmod], [fsync], [close]) are answered by the
    oracle of the world as those of the library are; [getopt] and
    [strtoumax] are the C library's. *)

Module Cpr.

Import Stdlib.Strings.Ascii Stdlib.Strings.String.

(** ** Constants of the C library (Linux values) *)

Definition ENOENT : Z := 2.
Definition EEXIST : Z := 17.

Definition O_RDONLY : Z := 0.
Definition O_WRONLY : Z := 1.
Definition O_CREAT  : Z := 64.
Definition O_EXCL   : Z := 128.
Definition O_TRUNC  : Z := 512.

Definition EXIT_SUCCESS : Z := 0.
Definition EXIT_FAILURE : Z := 1.

Definition UINTMAX_MAX : Z := 2 ^ 64 - 1.
Definition UINT64_MAX  : Z := 2 ^ 64 - 1.

(** ** The types of cpr.c *)

(** [typedef uint8_t preserve_mode_t] and its bits. *)
Definition PRESERVE_MODE_OWNER : Z := 1.
Definition PRESERVE_MODE_TIMES : Z := 2.
Definition PRESERVE_MODE_PERMS : Z := 4.
Definition PRESERVE_MODE_NONE  : Z := 0.
Definition PRESERVE_MODE_ALL   : Z :=
  Z.lor (Z.lor PRESERVE_MODE_OWNER PRESERVE_MODE_TIMES) PRESERVE_MODE_PERMS.
Definition PRESERVE_MODE_DEFAULT : Z := PRESERVE_MODE_NONE.

Inductive clone_mode_t : Type := CLONE_MODE_FILE | CLONE_MODE_RANGE.

(** [operation_t]; a file name is [None] for the NULL pointer. *)
Record operation_t : Type := mkOperation {
  fallback_copy : bool;
  block_size    : Z;
  src_filename  : option String.string;
  dst_filename  : option String.string;
  force         : bool;
  preserve_mode : Z;
  clone_mode    : clone_mode_t;
  src_offset    : Z;
  src_length    : Z;
  dst_offset    : Z;
  src_fd        : Z;
  dst_fd        : Z
}.

Definition set_fallback_copy (v : bool) (o : operation_t) : operation_t :=
  mkOperation v (block_size o) (src_filename o) (dst_filename o) (force o)
    (preserve_mode o) (clone_mode o) (src_offset o) (src_length o)
    (dst_offset o) (src_fd o) (dst_fd o).

Definition set_filenames (s d : option String.string) (o : operation_t)
  : operation_t :=
  mkOperation (fallback_copy o) (block_size o) s d (force o)
    (preserve_mode o) (clone_mode o) (src_offset o) (src_length o)
    (dst_offset o) (src_fd o) (dst_fd o).

Definition set_force (v : bool) (o : operation_t) : operation_t :=
  mkOperation (fallback_copy o) (block_size o) (src_filename o)
    (dst_filename o) v (preserve_mode o) (clone_mode o) (src_offset o)
    (src_length o) (dst_offset o) (src_fd o) (dst_fd o).

Definition set_preserve_mode (v : Z) (o : operation_t) : operation_t :=
  mkOperation (fallback_copy o) (block_size o) (src_filename o)
    (dst_filename o) (force o) v (clone_mode o) (src_offset o)
    (src_length o) (dst_offset o) (src_fd o) (dst_fd o).

Definition set_clone_mode (v : clone_mode_t) (o : operation_t) : operation_t :=
  mkOperation (fallback_copy o) (block_size o) (src_filename o)
    (dst_filename o) (force o) (preserve_mode o) v (src_offset o)
    (src_length o) (dst_offset o) (src_fd o) (dst_fd o).

Definition set_src_offset (v : Z) (o : operation_t) : operation_t :=
  mkOperation (fallback_copy o) (block_size o) (src_filename o)
    (dst_filename o) (force o) (preserve_mode o) (clone_mode o) v
    (src_length o) (dst_offset o) (src_fd o) (dst_fd o).

Definition set_src_length (v : Z) (o : operation_t) : operation_t :=
  mkOperation (fallback_copy o) (block_size o) (src_filename o)
    (dst_filename o) (force o) (preserve_mode o) (clone_mode o)
    (src_offset o) v (dst_offset o) (src_fd o) (dst_fd o).

Definition set_dst_offset (v : Z) (o : operation_t) : operation_t :=
  mkOperation (fallback_copy o) (block_size o) (src_filename o)
    (dst_filename o) (force o) (preserve_mode o) (clone_mode o)
    (src_offset o) (src_length o) v (src_fd o) (dst_fd o).

Definition set_src_fd (v : Z) (o : operation_t) : operation_t :=
  mkOperation (fallback_copy o) (block_size o) (src_filename o)
    (dst_filename o) (force o) (preserve_mode o) (clone_mode o)
    (src_offset o) (src_length o) (dst_offset o) v (dst_fd o).

Definition set_dst_fd (v : Z) (o : operation_t) : operation_t :=
  mkOperation (fallback_copy o) (block_size o) (src_filename o)
    (dst_filename o) (force o) (preserve_mode o) (clone_mode o)
    (src_offset o) (src_length o) (dst_offset o) (src_fd o) v.

(** ** The process *)

(** What [fstat] tells of a file, as far as cpr.c reads it. *)
Record stat_t : Type := mkStat {
  st_uid  : Z;
  st_gid  : Z;
  st_atim : Z;
  st_mtim : Z;
  st_mode : Z
}.

(** What the program writes to stderr. *)
Inductive message : Type :=
| MsgUsage (error : option String.string)   (* "ERROR: ..." if any, and the usage *)
| MsgAssert                          (* "An assertion failed ..." *)
| MsgOpenSrc (e : Z)
| MsgOpenDst (e : Z)
| MsgStat (e : Z)
| MsgChown (e : Z)
| MsgTimes (e : Z)
| MsgMode (e : Z)
| MsgSync (e : Z)
| MsgClose (rc : Z).

(** The calls of cpr.c itself. *)
Inductive call : Type :=
| SysOpen (h : handle) (flags : Z)
| SysFstat (h : handle)
| SysFchown (h : handle) (uid gid : Z)
| SysFutimens (h : handle) (atim mtim : Z)
| SysFchmod (h : handle) (mode : Z)
| SysFsync (h : handle)
| SysClose (fd : Z)
| Stderr (m : message).

(** The world of the library, and around it: whether DST_FILE exists, the
    attributes of the two files, the descriptors that are open, and the
    calls made by cpr.c. *)
Record process : Type := mkProcess {
  p_world      : world;
  p_dst_exists : bool;
  p_src_stat   : stat_t;
  p_dst_stat   : stat_t;
  p_fds        : list Z;
  p_calls      : list call
}.

Definition with_world (w : world) (p : process) : process :=
  mkProcess w (p_dst_exists p) (p_src_stat p) (p_dst_stat p) (p_fds p)
            (p_calls p).

Definition with_dst_stat (s : stat_t) (p : process) : process :=
  mkProcess (p_world p) (p_dst_exists p) (p_src_stat p) s (p_fds p)
            (p_calls p).

Definition with_fds (fds : list Z) (p : process) : process :=
  mkProcess (p_world p) (p_dst_exists p) (p_src_stat p) (p_dst_stat p) fds
            (p_calls p).

Definition with_call (c : call) (p : process) : process :=
  mkProcess (p_world p) (p_dst_exists p) (p_src_stat p) (p_dst_stat p)
            (p_fds p) (p_calls p ++ [c]).

(** How a computation of the program ends: with a value, in [exit], or in
    [abort]. *)
Inductive outcome (A : Type) : Type :=
| Ret (a : A)
| Exit (status : Z)
| Abort.

Arguments Ret {A} a.
Arguments Exit {A} status.
Arguments Abort {A}.

Definition P (A : Type) : Type := process -> option (outcome A * process).

Definition pret {A} (a : A) : P A := fun p => Some (Ret a, p).

Definition pbind {A B} (m : P A) (k : A -> P B) : P B :=
  fun p => match m p with
           | Some (Ret a, p') => k a p'
           | Some (Exit status, p') => Some (Exit status, p')
           | Some (Abort, p') => Some (Abort, p')
           | None => None
           end.

Declare Scope cpr_main_scope.
Notation "x <- m ;; k" := (pbind m (fun x => k))
  (at level 61, m at next level, right associativity) : cpr_main_scope.
Notation "m ;;; k" := (pbind m (fun _ => k))
  (at level 61, right associativity) : cpr_main_scope.
#[local] Open Scope cpr_main_scope.

(** A call of the library, in the world of the process. *)
Definition lift {A} (m : M A) : P A :=
  fun p => match m (p_world p) with
           | Some (a, w') => Some (Ret a, with_world w' p)
           | None => None
           end.

Definition errno : P Z := lift get_errno.

Definition put_errno (e : Z) : P unit :=
  fun p => Some (Ret tt, with_world (set_errno e (p_world p)) p).

Definition answer : P response :=
  fun p => let (r, w1) := pop_oracle (p_world p) in
           Some (Ret r, with_world w1 p).

Definition made (c : call) : P unit :=
  fun p => Some (Ret tt, with_call c p).

(** [fprintf(stderr, ...)] *)
Definition stderr (m : message) : P unit := made (Stderr m).

(** ** The system calls of cpr.c *)

Definition has_flag (flags f : Z) : bool := negb (Z.land flags f =? 0).

(** The descriptor [open] returns: the lowest that is not in use, 0, 1
    and 2 being the standard streams. *)
Definition next_fd (p : process) : Z :=
  3 + Z.of_nat (List.length (p_fds p)).

(** The file behind [h] is opened with the content [data]: its descriptor
    is new, at offset 0. *)
Definition opened (h : handle) (data : list byte) (p : process)
  : outcome Z * process :=
  let fd := next_fd p in
  let p1 := with_world (set_file h (mkFile data 0) (p_world p)) p in
  let p2 := match h with
            | Src => p1
            | Dst => mkProcess (p_world p1) true (p_src_stat p1)
                               (p_dst_stat p1) (p_fds p1) (p_calls p1)
            end in
  (Ret fd, with_fds (p_fds p ++ [fd]) p2).

(** [open(path, flags, mode)] for the path of the file [h]: with [O_CREAT]
    and [O_EXCL] it refuses a file that exists ([EEXIST]), without
    [O_CREAT] one that does not ([ENOENT]); [O_CREAT] creates an empty
    file, [O_TRUNC] empties one that exists.  The source is there, unless
    the call fails. *)
Definition open_ (h : handle) (flags : Z) : P Z :=
  made (SysOpen h flags) ;;;
  r <- answer ;;
  match r with
  | Fail e => put_errno (Z.pos e) ;;; pret (-1)
  | _ => fun p =>
      let there := match h with Src => true | Dst => p_dst_exists p end in
      if there then
        if has_flag flags O_CREAT && has_flag flags O_EXCL
        then (put_errno EEXIST ;;; pret (-1)) p
        else
          let data := if has_flag flags O_TRUNC then []
                      else f_data (get_file h (p_world p)) in
          Some (opened h data p)
      else if has_flag flags O_CREAT then Some (opened h [] p)
      else (put_errno ENOENT ;;; pret (-1)) p
  end.

Definition get_stat (h : handle) (p : process) : stat_t :=
  match h with Src => p_src_stat p | Dst => p_dst_stat p end.

Definition set_stat (h : handle) (s : stat_t) (p : process) : process :=
  match h with
  | Src => mkProcess (p_world p) (p_dst_exists p) s (p_dst_stat p) (p_fds p)
                     (p_calls p)
  | Dst => with_dst_stat s p
  end.

(** A call that succeeds or fails as the oracle says, and does [effect]
    when it succeeds: 0, or -1 with errno set. *)
Definition simple_call (c : call) (effect : process -> process) : P Z :=
  made c ;;;
  r <- answer ;;
  match r with
  | Fail e => put_errno (Z.pos e) ;;; pret (-1)
  | _ => fun p => Some (Ret 0, effect p)
  end.

(** [fstat(fd, &st)]: the result and what is in [st]. *)
Definition fstat (h : handle) : P (Z * stat_t) :=
  rc <- simple_call (SysFstat h) (fun p => p) ;;
  fun p => Some (Ret (rc, get_stat h p), p).

Definition fchown (h : handle) (uid gid : Z) : P Z :=
  simple_call (SysFchown h uid gid)
    (fun p => let s := get_stat h p in
              set_stat h (mkStat uid gid (st_atim s) (st_mtim s) (st_mode s))
                       p).

Definition futimens (h : handle) (atim mtim : Z) : P Z :=
  simple_call (SysFutimens h atim mtim)
    (fun p => let s := get_stat h p in
              set_stat h (mkStat (st_uid s) (st_gid s) atim mtim (st_mode s))
                       p).

Definition fchmod (h : handle) (mode : Z) : P Z :=
  simple_call (SysFchmod h mode)
    (fun p => let s := get_stat h p in
              set_stat h (mkStat (st_uid s) (st_gid s) (st_atim s)
                                 (st_mtim s) mode) p).

Definition fsync (h : handle) : P Z := simple_call (SysFsync h) (fun p => p).

(** [close(fd)]: the descriptor is released whether the call fails or
    not. *)
Definition close (fd : Z) : P Z :=
  rc <- simple_call (SysClose fd) (fun p => p) ;;
  fun p => Some (Ret rc, with_fds (filter (fun x => negb (x =? fd)) (p_fds p))
                                  p).

(** ** The C library: [strtoumax] *)

(** [isspace], in the C locale. *)
Definition isspace (c : Ascii.ascii) : bool :=
  let n := Ascii.nat_of_ascii c in
  Nat.eqb n 32 || (Nat.leb 9 n && Nat.leb n 13).

(** The value of a character as a digit, if it is one. *)
Definition digit_of (c : Ascii.ascii) : option Z :=
  let n := Z.of_nat (Ascii.nat_of_ascii c) in
  if (48 <=? n) && (n <=? 57) then Some (n - 48)
  else if (97 <=? n) && (n <=? 122) then Some (n - 87)
  else if (65 <=? n) && (n <=? 90) then Some (n - 55)
  else None.

Fixpoint skip_spaces (s : String.string) : String.string :=
  match s with
  | String.String c s' => if isspace c then skip_spaces s' else s
  | String.EmptyString => s
  end.

(** The digits of [base] at the start of [s]: their value after [acc],
    whether there is one, and what follows them. *)
Fixpoint scan_digits (base acc : Z) (any : bool) (s : String.string)
  : Z * bool * String.string :=
  match s with
  | String.String c s' =>
      match digit_of c with
      | Some d =>
          if d <? base then scan_digits base (acc * base + d) true s'
          else (acc, any, s)
      | None => (acc, any, s)
      end
  | String.EmptyString => (acc, any, s)
  end.

(** What [strtoumax(nptr, &endptr, 0)] gives: the value, the text at
    [endptr], whether [endptr] differs from [nptr], and whether the value
    was out of range (then errno is set to [ERANGE]). *)
Record conversion : Type := mkConversion {
  cv_value  : Z;
  cv_rest   : String.string;
  cv_moved  : bool;
  cv_erange : bool
}.

Definition is_x (c : Ascii.ascii) : bool :=
  Ascii.eqb c "x"%char || Ascii.eqb c "X"%char.

Definition strtoumax_0 (nptr : String.string) : conversion :=
  let s := skip_spaces nptr in
  let '(negative, s) :=
    match s with
    | String.String c s' =>
        if Ascii.eqb c "-"%char then (true, s')
        else if Ascii.eqb c "+"%char then (false, s')
        else (false, s)
    | String.EmptyString => (false, s)
    end in
  let '(base, digits, at_x) :=
    match s with
    | String.String c s' =>
        if Ascii.eqb c "0"%char then
          match s' with
          | String.String x s'' =>
              if is_x x then (16, s'', Some s') else (8, s, None)
          | String.EmptyString => (8, s, None)
          end
        else (10, s, None)
    | String.EmptyString => (10, s, None)
    end in
  let '(v, any, rest) := scan_digits base 0 false digits in
  if any then
    if v >? UINTMAX_MAX then mkConversion UINTMAX_MAX rest true true
    else mkConversion (if negative then (- v) mod 2 ^ 64 else v) rest true
                      false
  else
    match at_x with
    | Some s' => mkConversion 0 s' true false   (* "0x": the 0 alone *)
    | None => mkConversion 0 nptr false false   (* no conversion *)
    end.

Definition strtoumax (nptr : String.string) : P conversion :=
  let cv := strtoumax_0 nptr in
  (if cv_erange cv then put_errno ERANGE else pret tt) ;;;
  pret cv.

(** ** The functions of cpr.c *)

(** [AS(cond_, fmt_, ...)] *)
Definition AS (cond_ : bool) : P unit :=
  if cond_ then pret tt
  else fun p => Some (Abort, with_call (Stderr MsgAssert) p).

(** [static void print_usage_and_exit (argv0, fmt, ...)]; [fmt] is [None]
    for NULL. *)
Definition print_usage_and_exit {A} (fmt : option String.string) : P A :=
  let error := match fmt with
               | Some String.EmptyString => None
               | _ => fmt
               end in
  fun p => Some (Exit EXIT_FAILURE, with_call (Stderr (MsgUsage error)) p).

(** [static uint64_t parse_uint64 (argvN, argv0, msg)] *)
Definition parse_uint64 (argvN msg : String.string) : P Z :=
  cv <- strtoumax argvN ;;
  let rval := cv_value cv in
  e <- errno ;;
  if (rval =? UINTMAX_MAX) && (e =? ERANGE) then
    print_usage_and_exit (Some msg)
  else if (rval =? 0) && negb (cv_moved cv) then
    print_usage_and_exit (Some msg)
  else if negb (rval =? 0)
          && negb (match cv_rest cv with
                   | String.EmptyString => true
                   | _ => false
                   end) then
    print_usage_and_exit (Some msg)
  else if rval >? UINT64_MAX then
    print_usage_and_exit (Some msg)
  else pret rval.

(** One turn of the [for (;;)] loop of [parse_options], for the option
    character [opt] that [getopt] returned, with its argument [optarg]. *)
Definition parse_option (opt : Ascii.ascii) (optarg : String.string)
    (o : operation_t) : P operation_t :=
  if Ascii.eqb opt "a"%char then
    pret (set_preserve_mode (Z.lor (preserve_mode o) PRESERVE_MODE_ALL) o)
  else if Ascii.eqb opt "c"%char then
    pret (set_fallback_copy true o)
  else if Ascii.eqb opt "d"%char then
    let o := set_clone_mode CLONE_MODE_RANGE o in
    v <- parse_uint64 optarg "Failed to parse DST_OFFSET: %s" ;;
    pret (set_dst_offset v o)
  else if Ascii.eqb opt "f"%char then
    pret (set_force true o)
  else if Ascii.eqb opt "l"%char then
    let o := set_clone_mode CLONE_MODE_RANGE o in
    v <- parse_uint64 optarg "Failed to parse SRC_LENGTH: %s" ;;
    pret (set_src_length v o)
  else if Ascii.eqb opt "o"%char then
    pret (set_preserve_mode (Z.lor (preserve_mode o) PRESERVE_MODE_OWNER) o)
  else if Ascii.eqb opt "p"%char then
    pret (set_preserve_mode (Z.lor (preserve_mode o) PRESERVE_MODE_PERMS) o)
  else if Ascii.eqb opt "s"%char then
    let o := set_clone_mode CLONE_MODE_RANGE o in
    v <- parse_uint64 optarg "Failed to parse SRC_OFFSET: %s" ;;
    pret (set_src_offset v o)
  else if Ascii.eqb opt "t"%char then
    pret (set_preserve_mode (Z.lor (preserve_mode o) PRESERVE_MODE_TIMES) o)
  else if Ascii.eqb opt "?"%char then
    print_usage_and_exit None
  else pret o.

(** The loop of [parse_options] over the successive results of
    [getopt(argc, argv, "acd:fl:ops:t")], until it returns -1. *)
Fixpoint parse_option_loop (opts : list (Ascii.ascii * String.string))
    (o : operation_t) : P operation_t :=
  match opts with
  | [] => pret o
  | (opt, optarg) :: opts' =>
      o' <- parse_option opt optarg o ;;
      parse_option_loop opts' o'
  end.

Definition empty_name (name : option String.string) : bool :=
  match name with
  | None => true
  | Some String.EmptyString => true
  | Some _ => false
  end.

(** [static void parse_options (argc, argv, p_operation)]: [opts] are the
    options [getopt] finds, [args] the arguments [argv[optind]] to
    [argv[argc - 1]] it leaves. *)
Definition parse_options (opts : list (Ascii.ascii * String.string))
    (args : list String.string) (o : operation_t) : P operation_t :=
  AS true ;;;
  o <- parse_option_loop opts o ;;
  match args with
  | [] => print_usage_and_exit (Some "Required SRC and DST filenames missing.")
  | [_] => print_usage_and_exit (Some "Required DST filename missing.")
  | src :: dst :: _ =>
      let o := set_filenames (Some src) (Some dst) o in
      (if empty_name (src_filename o)
       then print_usage_and_exit (Some "Source filename is an empty string.")
       else pret tt) ;;;
      (if empty_name (dst_filename o)
       then print_usage_and_exit
              (Some "Destination filename is an empty string.")
       else pret tt) ;;;
      pret o
  end%string.

(** [static int open_files (operation_t *p_operation)]: the value it
    returns and the operation it leaves. *)
Definition open_files (o : operation_t) : P (Z * operation_t) :=
  fd <- open_ Src O_RDONLY ;;
  let o := set_src_fd fd o in
  if src_fd o <? 0 then
    rc <- errno ;;
    stderr (MsgOpenSrc rc) ;;;
    pret (rc, o)
  else
    let open_flags := Z.lor O_WRONLY O_CREAT in
    let open_flags := match clone_mode o with
                      | CLONE_MODE_FILE => Z.lor open_flags O_EXCL
                      | CLONE_MODE_RANGE => open_flags
                      end in
    fd <- open_ Dst open_flags ;;
    let o := set_dst_fd fd o in
    e <- errno ;;
    let rc := if dst_fd o <? 0 then e else 0 in
    ro <- (if (dst_fd o <? 0) && (e =? EEXIST) && force o then
             AS (match clone_mode o with
                 | CLONE_MODE_FILE => true
                 | CLONE_MODE_RANGE => false
                 end) ;;;
             fd <- open_ Dst (Z.lor O_WRONLY O_TRUNC) ;;
             let o := set_dst_fd fd o in
             e <- errno ;;
             pret (if dst_fd o <? 0 then e else 0, o)
           else pret (rc, o)) ;;
    let rc := fst ro in
    let o := snd ro in
    if dst_fd o <? 0 then
      AS (negb (rc =? 0)) ;;;
      stderr (MsgOpenDst rc) ;;;
      pret (rc, o)
    else pret (rc, o).

(** [static int close_files (operation_t *p_operation)] *)
Definition close_files (o : operation_t) : P Z :=
  rc <- (if src_fd o >=? 0 then close (src_fd o) else pret 0) ;;
  if dst_fd o >=? 0 then
    rc2 <- close (dst_fd o) ;;
    pret (if rc =? 0 then rc2 else rc)
  else pret rc.

(** [if (rc == -1) { rc = errno; fprintf(stderr, ...); }] *)
Definition check (rc : Z) (m : Z -> message) : P Z :=
  if rc =? -1 then
    e <- errno ;;
    stderr (m e) ;;;
    pret e
  else pret rc.

(** [static int preserve_file_attrs (operation_t *p_operation)] *)
Definition preserve_file_attrs (o : operation_t) : P Z :=
  AS true ;;;
  AS ((src_fd o >=? 0) && (dst_fd o >=? 0)) ;;;
  st <- fstat Src ;;
  let src_stat := snd st in
  rc <- check (fst st) MsgStat ;;
  rc <- (if (rc =? 0) && has_flag (preserve_mode o) PRESERVE_MODE_OWNER then
           rc <- fchown Dst (st_uid src_stat) (st_gid src_stat) ;;
           check rc MsgChown
         else pret rc) ;;
  rc <- (if (rc =? 0) && has_flag (preserve_mode o) PRESERVE_MODE_TIMES then
           rc <- futimens Dst (st_atim src_stat) (st_mtim src_stat) ;;
           check rc MsgTimes
         else pret rc) ;;
  rc <- (if (rc =? 0) && has_flag (preserve_mode o) PRESERVE_MODE_PERMS then
           rc <- fchmod Dst (st_mode src_stat) ;;
           check rc MsgMode
         else pret rc) ;;
  pret rc.

(** Conversion of a [uint64_t] to [off_t], as in the call of
    [qtm_clone_file_range] by [main]. *)
Definition to_off_t (z : Z) : Z := (z + 2 ^ 63) mod 2 ^ 64 - 2 ^ 63.

(** The [operation_t] that [main] starts with. *)
Definition initial_operation : operation_t :=
  mkOperation false 8192 None None false PRESERVE_MODE_DEFAULT
              CLONE_MODE_FILE 0 0 0 (-1) (-1).

(** What [main] does once the options are read. *)
Definition run (fuel : nat) (operation : operation_t) : P Z :=
  ro <- open_files operation ;;
  let rc := fst ro in
  let operation := snd ro in
  rc <- (if rc =? 0 then
           match clone_mode operation with
           | CLONE_MODE_FILE =>
               lift (qtm_clone_file fuel (src_fd operation) (dst_fd operation)
                       (fallback_copy operation) (block_size operation))
           | CLONE_MODE_RANGE =>
               lift (qtm_clone_file_range fuel (src_fd operation)
                       (dst_fd operation)
                       (to_off_t (src_offset operation))
                       (to_off_t (dst_offset operation))
                       (src_length operation) (fallback_copy operation)
                       (block_size operation))
           end
         else pret rc) ;;
  rc <- (if rc =? 0 then preserve_file_attrs operation else pret rc) ;;
  rc <- (if rc =? 0 then
           rc <- fsync Dst ;;
           if negb (rc =? 0) then
             rc <- errno ;;
             stderr (MsgSync rc) ;;;
             pret rc
           else pret rc
         else pret rc) ;;
  close_rc <- close_files operation ;;
  rc <- (if negb (close_rc =? 0) then
           stderr (MsgClose close_rc) ;;;
           pret (if rc =? 0 then close_rc else rc)
         else pret rc) ;;
  pret (if rc =? 0 then EXIT_SUCCESS else EXIT_FAILURE).

(** [int main (int argc, char **argv)] *)
Definition main (fuel : nat) (opts : list (Ascii.ascii * String.string))
    (args : list String.string) : P Z :=
  operation <- parse_options opts args initial_operation ;;
  run fuel operation.

(** A process that starts: no descriptor but the standard ones, no call
    made yet. *)
Definition boot (w : world) (dst_exists : bool) (src_stat dst_stat : stat_t)
  : process :=
  mkProcess w dst_exists src_stat dst_stat [] [].

(** ** Observations of a process *)

Definition src_data (p : process) : list byte := f_data (w_src (p_world p)).
Definition dst_data (p : process) : list byte := f_data (w_dst (p_world p)).

(** Whether the option [c] is among those [getopt] found. *)
Definition given (c : Ascii.ascii) (opts : list (Ascii.ascii * String.string))
  : bool :=
  existsb (fun oa => Ascii.eqb (fst oa) c) opts.

(** The numeral written with the decimal digits [ds], and the number it
    writes. *)
Definition digit_char (d : Z) : Ascii.ascii :=
  Ascii.ascii_of_nat (Z.to_nat (48 + d)).

Fixpoint numeral (ds : list Z) : String.string :=
  match ds with
  | [] => String.EmptyString
  | d :: ds' => String.String (digit_char d) (numeral ds')
  end.

Definition value_of (ds : list Z) : Z :=
  fold_left (fun acc d => acc * 10 + d) ds 0.

(** What the options [opts] make of the operation [o], when none of them
    ends the program. *)
Record decoded (opts : list (Ascii.ascii * String.string))
    (o o' : operation_t) : Prop := {
  dc_block_size   : block_size o' = block_size o;
  dc_src_filename : src_filename o' = src_filename o;
  dc_dst_filename : dst_filename o' = dst_filename o;
  dc_src_fd       : src_fd o' = src_fd o;
  dc_dst_fd       : dst_fd o' = dst_fd o;
  dc_fallback     : fallback_copy o' = fallback_copy o || given "c" opts;
  dc_force        : force o' = force o || given "f" opts;
  dc_owner        : has_flag (preserve_mode o') PRESERVE_MODE_OWNER
                    = has_flag (preserve_mode o) PRESERVE_MODE_OWNER
                      || given "a" opts || given "o" opts;
  dc_times        : has_flag (preserve_mode o') PRESERVE_MODE_TIMES
                    = has_flag (preserve_mode o) PRESERVE_MODE_TIMES
                      || given "a" opts || given "t" opts;
  dc_perms        : has_flag (preserve_mode o') PRESERVE_MODE_PERMS
                    = has_flag (preserve_mode o) PRESERVE_MODE_PERMS
                      || given "a" opts || given "p" opts;
  dc_mode_range   : 0 <= preserve_mode o <= 7 -> 0 <= preserve_mode o' <= 7;
  dc_clone_mode   : clone_mode o'
                    = if given "d" opts || given "l" opts || given "s" opts
                      then CLONE_MODE_RANGE else clone_mode o;
  dc_src_offset   : if given "s" opts then 0 <= src_offset o' < 2 ^ 64
                    else src_offset o' = src_offset o;
  dc_src_length   : if given "l" opts then 0 <= src_length o' < 2 ^ 64
                    else src_length o' = src_length o;
  dc_dst_offset   : if given "d" opts then 0 <= dst_offset o' < 2 ^ 64
                    else dst_offset o' = dst_offset o;
  dc_known        : given "?" opts = false
}.

(** The operations [o] and [o1] ask for the same: they differ in their
    descriptors at most. *)
Definition same_request (o o1 : operation_t) : Prop :=
  fallback_copy o1 = fallback_copy o /\ block_size o1 = block_size o
  /\ src_filename o1 = src_filename o /\ dst_filename o1 = dst_filename o
  /\ force o1 = force o /\ preserve_mode o1 = preserve_mode o
  /\ clone_mode o1 = clone_mode o /\ src_offset o1 = src_offset o
  /\ src_length o1 = src_length o /\ dst_offset o1 = dst_offset o.

(** [p'] is [p] after calls of cpr.c, [open] among them: the source holds
    what it held, the attributes are what they were, and the library was
    not called. *)
Record after_open (p p' : process) : Prop := {
  ao_src      : src_data p' = src_data p;
  ao_trace    : w_trace (p_world p') = w_trace (p_world p);
  ao_oracle   : exists c, w_oracle (p_world p') = skipn c (w_oracle (p_world p));
  ao_src_stat : p_src_stat p' = p_src_stat p;
  ao_dst_stat : p_dst_stat p' = p_dst_stat p;
  ao_calls    : exists cs, p_calls p' = p_calls p ++ cs
}.

(** How [open_files] can end, from the process [p] with the operation
    [o]: the source did not open; the source is open and the destination
    did not open; both are open, at offset 0, and the destination is
    empty when the whole file is cloned; or the assertion on the clone
    mode failed. *)
Definition open_files_result (o : operation_t) (p : process)
    (out : outcome (Z * operation_t)) (p' : process) : Prop :=
  after_open p p'
  /\ ((exists rc o1,
          out = Ret (rc, o1) /\ same_request o o1 /\ 0 < rc
          /\ src_fd o1 < 0 /\ dst_fd o1 = dst_fd o
          /\ p_fds p' = p_fds p
          /\ w_dst (p_world p') = w_dst (p_world p)
          /\ p_dst_exists p' = p_dst_exists p)
      \/ (exists rc o1,
            out = Ret (rc, o1) /\ same_request o o1 /\ 0 < rc
            /\ src_fd o1 = next_fd p /\ dst_fd o1 < 0
            /\ p_fds p' = p_fds p ++ [next_fd p]
            /\ w_dst (p_world p') = w_dst (p_world p)
            /\ p_dst_exists p' = p_dst_exists p)
      \/ (exists o1,
            out = Ret (0, o1) /\ same_request o o1
            /\ src_fd o1 = next_fd p /\ dst_fd o1 = next_fd p + 1
            /\ p_fds p' = p_fds p ++ [next_fd p; next_fd p + 1]
            /\ p_dst_exists p' = true
            /\ w_src (p_world p') = mkFile (src_data p) 0
            /\ w_dst (p_world p')
               = mkFile (match clone_mode o with
                         | CLONE_MODE_FILE => []
                         | CLONE_MODE_RANGE =>
                             if p_dst_exists p then dst_data p else []
                         end) 0
            /\ (clone_mode o = CLONE_MODE_FILE ->
                p_dst_exists p = true -> force o = true))
      \/ (out = Abort /\ clone_mode o = CLONE_MODE_RANGE
          /\ force o = true
          /\ hd Full (tl (w_oracle (p_world p))) = Fail 17%positive)).

(** The attributes of the destination once those that [mode] asks for
    are those of the source. *)
Definition preserved (mode : Z) (s d : stat_t) : stat_t :=
  mkStat (if has_flag mode PRESERVE_MODE_OWNER then st_uid s else st_uid d)
         (if has_flag mode PRESERVE_MODE_OWNER then st_gid s else st_gid d)
         (if has_flag mode PRESERVE_MODE_TIMES then st_atim s else st_atim d)
         (if has_flag mode PRESERVE_MODE_TIMES then st_mtim s else st_mtim d)
         (if has_flag mode PRESERVE_MODE_PERMS then st_mode s else st_mode d).

(** The process after the call [c] of cpr.c was answered, with [e] in
    errno. *)
Definition answered (c : call) (e : Z) (p : process) : process :=
  let w := p_world p in
  mkProcess (mkWorld (w_src w) (w_dst w) e (w_trace w) (tl (w_oracle w)))
            (p_dst_exists p) (p_src_stat p) (p_dst_stat p) (p_fds p)
            (p_calls p ++ [c]).

(** [p'] is [p] after calls of cpr.c only: the two files hold what they
    held, and the library was not called. *)
Record same_files (p p' : process) : Prop := {
  sf_src    : src_data p' = src_data p;
  sf_dst    : dst_data p' = dst_data p;
  sf_trace  : w_trace (p_world p') = w_trace (p_world p);
  sf_oracle : exists c, w_oracle (p_world p') = skipn c (w_oracle (p_world p));
  sf_exists : p_dst_exists p' = p_dst_exists p;
  sf_calls  : exists cs, p_calls p' = p_calls p ++ cs
}.

(** The call of the library that [main] makes for the operation [o]. *)
Definition clone_call (fuel : nat) (o : operation_t) : M Z :=
  match clone_mode o with
  | CLONE_MODE_FILE =>
      qtm_clone_file fuel (src_fd o) (dst_fd o) (fallback_copy o)
                     (block_size o)
  | CLONE_MODE_RANGE =>
      qtm_clone_file_range fuel (src_fd o) (dst_fd o)
                           (to_off_t (src_offset o)) (to_off_t (dst_offset o))
                           (src_length o) (fallback_copy o) (block_size o)
  end.

(** [p'] is [p] after calls of cpr.c that leave the two files, their
    attributes and the descriptors as they are. *)
Definition untouched (p p' : process) : Prop :=
  same_files p p' /\ p_fds p' = p_fds p
  /\ p_src_stat p' = p_src_stat p /\ p_dst_stat p' = p_dst_stat p.

(** The attributes that the options ask to preserve. *)
Definition requested (opts : list (Ascii.ascii * String.string)) : Z :=
  Z.lor (if given "a" opts || given "o" opts then PRESERVE_MODE_OWNER else 0)
    (Z.lor
       (if given "a" opts || given "t" opts then PRESERVE_MODE_TIMES else 0)
       (if given "a" opts || given "p" opts then PRESERVE_MODE_PERMS else 0)).

(** Whether the options ask for the clone of a range. *)
Definition range_asked (opts : list (Ascii.ascii * String.string)) : bool :=
  given "d" opts || given "l" opts || given "s" opts.

End Cpr.

(** * Properties *)

(** ** Lists of bytes *)

Lemma zlen_nonneg l : 0 <= zlen l.
Proof. unfold zlen; lia. Qed.

Lemma zlen_app a b : zlen (a ++ b) = zlen a + zlen b.
Proof. unfold zlen; rewrite length_app; lia. Qed.

Lemma zlen_nil_inv l : zlen l = 0 -> l = [].
Proof. unfold zlen; destruct l; simpl; [reflexivity | lia]. Qed.

Lemma zlen_sub data off len :
  0 <= off -> 0 <= len ->
  zlen (sub data off len) = Z.min len (Z.max 0 (zlen data - off)).
Proof.
  intros Hoff Hlen. unfold zlen, sub.
  rewrite length_firstn, length_skipn. lia.
Qed.

Lemma firstn_plus (l : list byte) (a b : nat) :
  firstn (a + b) l = firstn a l ++ firstn b (skipn a l).
Proof.
  revert l. induction a as [|a IH]; intros [|x l]; simpl; trivial.
  - now rewrite firstn_nil.
  - now rewrite IH.
Qed.

Lemma sub_app data off k n :
  0 <= off -> 0 <= k -> 0 <= n ->
  sub data off k ++ sub data (off + k) n = sub data off (k + n).
Proof.
  intros Hoff Hk Hn. unfold sub.
  rewrite !Z2Nat.inj_add by lia.
  rewrite (Nat.add_comm (Z.to_nat off)), <- skipn_skipn.
  now rewrite firstn_plus.
Qed.

Lemma firstn_step (buf : list byte) j n :
  0 <= j -> 0 <= n ->
  firstn (Z.to_nat j) buf ++ firstn (Z.to_nat n) (skipn (Z.to_nat j) buf)
  = firstn (Z.to_nat (j + n)) buf.
Proof.
  intros Hj Hn. rewrite Z2Nat.inj_add by lia. now rewrite firstn_plus.
Qed.

Lemma length_pad data n : length (pad data n) = n.
Proof. unfold pad. rewrite length_app, length_firstn, repeat_length. lia. Qed.

Lemma pad_app_exact data n (a t : list byte) :
  pad (pad data n ++ a ++ t) (n + length a) = pad data n ++ a.
Proof.
  unfold pad at 1.
  rewrite app_assoc.
  assert (Hl : length (pad data n ++ a) = (n + length a)%nat)
    by (rewrite length_app, length_pad; reflexivity).
  rewrite <- Hl at 1. rewrite firstn_app, firstn_all, Nat.sub_diag.
  simpl firstn. rewrite app_nil_r.
  rewrite length_app, Hl.
  replace (n + length a - (n + length a + length t))%nat with 0%nat by lia.
  simpl. now rewrite app_nil_r.
Qed.

Lemma skipn_past_pad data n (a : list byte) m :
  skipn (n + length a + m) (pad data n ++ a ++ skipn (n + length a) data)
  = skipn (n + length a + m) data.
Proof.
  rewrite app_assoc.
  assert (Hl : length (pad data n ++ a) = (n + length a)%nat)
    by (rewrite length_app, length_pad; reflexivity).
  rewrite skipn_app, Hl.
  rewrite (skipn_all2 (pad data n ++ a)) by lia.
  simpl. replace (n + length a + m - (n + length a))%nat with m by lia.
  rewrite skipn_skipn. f_equal. lia.
Qed.

Lemma pwrite_nil data pos : pwrite data pos [] = data.
Proof. reflexivity. Qed.

Lemma pwrite_cons data pos bytes :
  bytes <> [] ->
  pwrite data pos bytes
  = pad data (Z.to_nat pos) ++ bytes
    ++ skipn (Z.to_nat pos + length bytes) data.
Proof. destruct bytes; [congruence | reflexivity]. Qed.

Lemma pwrite_app data pos a b :
  0 <= pos ->
  pwrite (pwrite data pos a) (pos + zlen a) b = pwrite data pos (a ++ b).
Proof.
  intros Hpos. destruct b as [|y b].
  - now rewrite app_nil_r.
  - destruct a as [|x a].
    + simpl. unfold zlen; simpl. now rewrite Z.add_0_r.
    + assert (Ha : x :: a <> []) by discriminate.
      assert (Hb : y :: b <> []) by discriminate.
      assert (Hab : (x :: a) ++ y :: b <> []) by discriminate.
      revert Ha Hb Hab. generalize (x :: a) as xa. generalize (y :: b) as yb.
      intros yb xa Ha Hb Hab.
      rewrite (pwrite_cons data pos xa Ha).
      rewrite (pwrite_cons _ _ yb Hb), (pwrite_cons _ _ _ Hab).
      replace (Z.to_nat (pos + zlen xa)) with (Z.to_nat pos + length xa)%nat
        by (unfold zlen; lia).
      rewrite pad_app_exact, skipn_past_pad, length_app.
      rewrite <- !app_assoc. do 4 f_equal. lia.
Qed.

Lemma sub_pwrite data pos bytes :
  0 <= pos -> sub (pwrite data pos bytes) pos (zlen bytes) = bytes.
Proof.
  intros Hpos. destruct bytes as [|x l]; [reflexivity|].
  rewrite pwrite_cons by discriminate.
  generalize (x :: l) as bs. intros bs. unfold sub, zlen.
  rewrite Nat2Z.id.
  rewrite skipn_app, length_pad, Nat.sub_diag.
  rewrite skipn_all2 by (rewrite length_pad; lia).
  simpl.
  rewrite firstn_app, firstn_all, Nat.sub_diag. simpl. now rewrite app_nil_r.
Qed.

Lemma length_pwrite data pos bytes :
  bytes <> [] ->
  length (pwrite data pos bytes)
  = Nat.max (length data) (Z.to_nat pos + length bytes).
Proof.
  intros Hb. rewrite pwrite_cons by assumption.
  rewrite !length_app, length_pad, length_skipn. lia.
Qed.

Lemma byte_at_pwrite_outside data pos bytes i :
  0 <= pos -> 0 <= i < zlen data ->
  i < pos \/ pos + zlen bytes <= i ->
  byte_at (pwrite data pos bytes) i = byte_at data i.
Proof.
  intros Hpos Hi Hout. unfold byte_at.
  destruct (i <? 0) eqn:Ei; [lia|].
  destruct bytes as [|x l]; [reflexivity|].
  rewrite pwrite_cons by discriminate.
  remember (x :: l) as bs eqn:Ebs. clear Ebs x l.
  unfold zlen in *.
  destruct Hout as [Hlt | Hge].
  - rewrite nth_error_app1 by (rewrite length_pad; lia).
    unfold pad. rewrite nth_error_app1 by (rewrite length_firstn; lia).
    rewrite nth_error_firstn.
    destruct (Nat.ltb_spec (Z.to_nat i) (Z.to_nat pos)); [reflexivity | lia].
  - rewrite app_assoc.
    rewrite nth_error_app2 by (rewrite length_app, length_pad; lia).
    rewrite length_app, length_pad, nth_error_skipn. f_equal. lia.
Qed.

(** ** Traces *)

Lemma bytes_written_app tr1 tr2 :
  bytes_written (tr1 ++ tr2) = bytes_written tr1 + bytes_written tr2.
Proof.
  induction tr1 as [|ev tr1 IH]; simpl; [reflexivity|].
  destruct ev as [| | | | | [|] put |]; rewrite ?IH; lia.
Qed.

Lemma bytes_written_nonneg tr : 0 <= bytes_written tr.
Proof.
  induction tr as [|ev tr IH]; simpl; [lia|].
  destruct ev as [| | | | | [|] put |]; try assumption.
  pose proof (zlen_nonneg put). lia.
Qed.

(** ** The system calls *)

Lemma granted_bounds r limit :
  (forall e, r <> Fail e) -> 0 <= limit ->
  0 <= granted r limit <= limit /\ (0 < limit -> 0 < granted r limit).
Proof.
  intros Hr Hl. destruct r as [|cap|e]; simpl.
  - lia.
  - lia.
  - now destruct (Hr e).
Qed.

Lemma read_fail fd count w e :
  hd Full (w_oracle w) = Fail e ->
  read fd count w
  = Some ((-1, []),
          mkWorld (w_src w) (w_dst w) (Z.pos e)
                  (w_trace w ++ [EvRead fd count []]) (tl (w_oracle w))).
Proof. intros H. unfold read, pop_oracle. now rewrite H. Qed.

Lemma read_src_ok count w :
  (forall e, hd Full (w_oracle w) <> Fail e) ->
  let n := granted (hd Full (w_oracle w))
                   (Z.min (Z.max 0 count) (avail (w_src w))) in
  let got := sub (f_data (w_src w)) (f_pos (w_src w)) n in
  read Src count w
  = Some ((n, got),
          mkWorld (mkFile (f_data (w_src w)) (f_pos (w_src w) + n)) (w_dst w)
                  (w_errno w) (w_trace w ++ [EvRead Src count got])
                  (tl (w_oracle w))).
Proof.
  intros H. unfold read, pop_oracle.
  destruct (hd Full (w_oracle w)) as [|cap|e] eqn:E; try reflexivity.
  now destruct (H e).
Qed.

Lemma write_fail fd buf count w e :
  hd Full (w_oracle w) = Fail e ->
  write fd buf count w
  = Some (-1,
          mkWorld (w_src w) (w_dst w) (Z.pos e)
                  (w_trace w ++ [EvWrite fd []]) (tl (w_oracle w))).
Proof. intros H. unfold write, pop_oracle. now rewrite H. Qed.

Lemma write_dst_ok buf count w :
  (forall e, hd Full (w_oracle w) <> Fail e) ->
  let n := granted (hd Full (w_oracle w))
                   (Z.min (Z.max 0 count) (zlen buf)) in
  let put := firstn (Z.to_nat n) buf in
  write Dst buf count w
  = Some (n,
          mkWorld (w_src w)
                  (mkFile (pwrite (f_data (w_dst w)) (f_pos (w_dst w)) put)
                          (f_pos (w_dst w) + n))
                  (w_errno w) (w_trace w ++ [EvWrite Dst put])
                  (tl (w_oracle w))).
Proof.
  intros H. unfold write, pop_oracle.
  destruct (hd Full (w_oracle w)) as [|cap|e] eqn:E; try reflexivity.
  now destruct (H e).
Qed.

Lemma response_cases (r : response) :
  (exists e, r = Fail e) \/ (forall e, r <> Fail e).
Proof.
  destruct r as [|cap|e]; [right | right | left]; try discriminate.
  now exists e.
Qed.

(** ** [write_block] *)

Ltac fields :=
  cbn [w_errno w_src w_dst w_trace w_oracle f_pos f_data fst snd
       get_file set_file] in *.

Lemma wrote_refl buf w : 0 <= f_pos (w_dst w) -> wrote buf 0 w w.
Proof.
  intros Hp. split; simpl; trivial.
  - lia.
  - exists []. rewrite app_nil_r. repeat split. constructor.
  - now exists 0%nat.
Qed.

Lemma write_block_unfold fuel fd p_block length :
  write_block (S fuel) fd p_block length
  = if length >? 0 then
      (wrote_now <- write fd p_block length ;;
       if wrote_now <? 0 then
         e <- get_errno ;;
         if e =? EINTR then write_block fuel fd p_block length
         else ret e
       else
         write_block fuel fd (skipn (Z.to_nat wrote_now) p_block)
                     (length - wrote_now))
    else ret 0.
Proof. reflexivity. Qed.

Lemma write_block_done fuel fd p_block length w :
  length <= 0 -> write_block fuel fd p_block length w = Some (0, w).
Proof.
  intros H. destruct fuel; simpl;
    destruct (Z.gtb_spec length 0); try lia; reflexivity.
Qed.

Lemma skipn_tl (o : list response) c : skipn c (tl o) = skipn (S c) o.
Proof. destruct o; simpl; [now destruct c | reflexivity]. Qed.

Lemma wrote_after_fail buf j w w' e :
  wrote buf j
        (mkWorld (w_src w) (w_dst w) (Z.pos e)
                 (w_trace w ++ [EvWrite Dst []]) (tl (w_oracle w))) w' ->
  wrote buf j w w'.
Proof.
  intros [Hs Hd Hp [evs (Ht & Hf & Hb)] [c Ho]]. fields.
  constructor; try assumption.
  - exists (EvWrite Dst [] :: evs).
    rewrite <- app_assoc in Ht. split; [exact Ht|]. split.
    + constructor; [now exists [] | assumption].
    + exact Hb.
  - exists (S c). rewrite Ho. apply skipn_tl.
Qed.

Lemma wrote_fail_now buf w e :
  wrote buf 0 w
        (mkWorld (w_src w) (w_dst w) (Z.pos e)
                 (w_trace w ++ [EvWrite Dst []]) (tl (w_oracle w))).
Proof.
  constructor; fields; trivial.
  - lia.
  - exists [EvWrite Dst []]. split; [reflexivity|]. split.
    + constructor; [now exists [] | constructor].
    + reflexivity.
  - now exists 1%nat.
Qed.

Lemma wrote_after_write buf m j w w' :
  0 <= f_pos (w_dst w) -> 0 <= m <= zlen buf -> 0 <= j ->
  wrote (skipn (Z.to_nat m) buf) j
        (mkWorld (w_src w)
                 (mkFile (pwrite (f_data (w_dst w)) (f_pos (w_dst w))
                                 (firstn (Z.to_nat m) buf))
                         (f_pos (w_dst w) + m))
                 (w_errno w)
                 (w_trace w ++ [EvWrite Dst (firstn (Z.to_nat m) buf)])
                 (tl (w_oracle w))) w' ->
  wrote buf (m + j) w w'.
Proof.
  intros Hpos Hm Hj [Hs Hd Hp [evs (Ht & Hf & Hb)] [c Ho]]. fields.
  assert (Hz : zlen (firstn (Z.to_nat m) buf) = m)
    by (unfold zlen in *; rewrite length_firstn; lia).
  constructor; try assumption.
  - rewrite Hd. rewrite <- Hz at 2.
    rewrite pwrite_app by assumption.
    now rewrite firstn_step by lia.
  - lia.
  - exists (EvWrite Dst (firstn (Z.to_nat m) buf) :: evs).
    rewrite <- app_assoc in Ht. split; [exact Ht|]. split.
    + constructor; [eexists; reflexivity | assumption].
    + simpl. lia.
  - exists (S c). rewrite Ho. apply skipn_tl.
Qed.

Lemma write_block_spec fuel :
  forall buf n w rc w',
    zlen buf = n -> 0 <= f_pos (w_dst w) ->
    write_block fuel Dst buf n w = Some (rc, w') ->
    exists j, 0 <= j <= n /\ wrote buf j w w'
              /\ (rc = 0 -> j = n)
              /\ (rc <> 0 -> 0 < rc /\ rc <> EINTR /\ w_errno w' = rc).
Proof.
  induction fuel as [|fuel IH]; intros buf n w rc w' Hlen Hpos Hrun;
    pose proof (zlen_nonneg buf) as Hnn.
  - simpl in Hrun.
    destruct (Z.gtb_spec n 0); [discriminate|].
    injection Hrun as <- <-. exists 0.
    split; [lia|]. split; [now apply wrote_refl|]. split; [lia|congruence].
  - rewrite write_block_unfold in Hrun.
    destruct (Z.gtb_spec n 0) as [Hn|Hn].
    2:{ injection Hrun as <- <-. exists 0.
        split; [lia|]. split; [now apply wrote_refl|].
        split; [lia|congruence]. }
    unfold bind in Hrun.
    destruct (response_cases (hd Full (w_oracle w))) as [[e He]|Hok].
    + rewrite (write_fail _ _ _ _ _ He) in Hrun.
      change (-1 <? 0) with true in Hrun. cbv beta iota in Hrun.
      unfold get_errno in Hrun; fields.
      destruct (Z.eqb_spec (Z.pos e) EINTR) as [Ee|Ee].
      * apply IH in Hrun; [|assumption|assumption].
        destruct Hrun as (j & Hj & Hw & H0 & H1).
        exists j. split; [assumption|].
        split; [now apply wrote_after_fail with e|]. now split.
      * unfold ret in Hrun. injection Hrun as <- <-.
        exists 0. split; [lia|]. split; [apply wrote_fail_now|].
        split; [lia|]. intros _. fields.
        split; [lia|split; [assumption|reflexivity]].
    + rewrite (write_dst_ok _ _ _ Hok) in Hrun.
      set (m := granted (hd Full (w_oracle w)) (Z.min (Z.max 0 n) (zlen buf))) in *.
      destruct (granted_bounds (hd Full (w_oracle w))
                  (Z.min (Z.max 0 n) (zlen buf)) Hok ltac:(lia)) as [Hm Hm'].
      fold m in Hm, Hm'.
      destruct (Z.ltb_spec m 0); [lia|].
      apply IH in Hrun.
      2:{ unfold zlen in *. rewrite length_skipn. lia. }
      2:{ fields. lia. }
      destruct Hrun as (j & Hj & Hw & H0 & H1).
      exists (m + j). split; [lia|].
      split; [apply wrote_after_write; (assumption || lia)|].
      split; [lia|assumption].
Qed.

(** ** The copy loop *)

Lemma MIN_spec x y : MIN x y = Z.min x y.
Proof. unfold MIN. destruct (Z.leb_spec x y); lia. Qed.

Lemma copy_loop_unfold fuel src_fd dst_fd length block_size rc remain :
  copy_loop (S fuel) src_fd dst_fd length block_size rc remain
  = if remain >? 0 then
      (t <- copy_body fuel src_fd dst_fd length block_size rc remain ;;
       match t with
       | Again rc' remain' =>
           copy_loop fuel src_fd dst_fd length block_size rc' remain'
       | Leave rc' => ret rc'
       end)
    else ret rc.
Proof. reflexivity. Qed.

Lemma copied_start src0 dst0 tr0 src_offset dst_offset w :
  0 <= src_offset ->
  f_data (w_src w) = src0 -> f_pos (w_src w) = src_offset ->
  f_data (w_dst w) = dst0 -> f_pos (w_dst w) = dst_offset ->
  bytes_written (w_trace w) = bytes_written tr0 ->
  copied src0 dst0 tr0 src_offset dst_offset 0 w.
Proof.
  intros Hso Hs Hsp Hd Hdp Ht. constructor; try lia; try assumption.
  split; [lia | reflexivity].
Qed.

(** A turn whose [read] fails. *)
Lemma copy_body_read_fail fuel src_fd dst_fd length block_size rc remain w e :
  hd Full (w_oracle w) = Fail e ->
  copy_body fuel src_fd dst_fd length block_size rc remain w
  = Some (if Z.pos e =? EINTR then Again rc remain else Leave (Z.pos e),
          mkWorld (w_src w) (w_dst w) (Z.pos e)
                  (w_trace w ++ [EvRead src_fd (MIN block_size remain) []])
                  (tl (w_oracle w))).
Proof.
  intros He. unfold copy_body, bind.
  rewrite (read_fail _ _ _ _ He). fields.
  change (-1 <? 0) with true. cbv beta iota.
  unfold get_errno; fields.
  now destruct (Z.pos e =? EINTR).
Qed.

(** A turn whose [read] returns no byte: the end of the source. *)
Lemma copy_body_eof fuel dst_fd length block_size rc remain w :
  (forall e, hd Full (w_oracle w) <> Fail e) ->
  0 < block_size -> 0 < remain ->
  avail (w_src w) = 0 ->
  copy_body fuel Src dst_fd length block_size rc remain w
  = Some (if length =? 0 then Leave rc else Leave ERANGE,
          mkWorld (w_src w) (w_dst w) (w_errno w)
                  (w_trace w ++ [EvRead Src (MIN block_size remain) []])
                  (tl (w_oracle w))).
Proof.
  intros Hok Hbs Hrem Hav. unfold copy_body, bind.
  rewrite (read_src_ok _ _ Hok). rewrite Hav.
  destruct (granted_bounds (hd Full (w_oracle w))
              (Z.min (Z.max 0 (MIN block_size remain)) 0) Hok ltac:(lia))
    as [Hn _].
  rewrite MIN_spec in *.
  replace (Z.min (Z.max 0 (Z.min block_size remain)) 0) with 0 in * by lia.
  assert (Hg : granted (hd Full (w_oracle w)) 0 = 0) by lia.
  rewrite Hg. fields. rewrite Z.add_0_r.
  change (sub (f_data (w_src w)) (f_pos (w_src w)) 0) with (@nil byte).
  change (0 <? 0) with false. change (0 =? 0) with true. cbv beta iota.
  destruct (w_src w) as [sd sp]. fields.
  destruct (Z.eqb_spec length 0) as [El|El]; simpl andb; cbv iota.
  - reflexivity.
  - destruct (Z.eqb_spec remain 0); [lia|]. reflexivity.
Qed.

(** A turn whose [read] returns [n > 0] bytes. *)
Lemma copy_body_data fuel length block_size rc remain w :
  (forall e, hd Full (w_oracle w) <> Fail e) ->
  0 < block_size -> 0 < remain ->
  0 < avail (w_src w) ->
  let n := granted (hd Full (w_oracle w))
                   (Z.min (Z.max 0 (MIN block_size remain)) (avail (w_src w))) in
  let got := sub (f_data (w_src w)) (f_pos (w_src w)) n in
  let w1 := mkWorld (mkFile (f_data (w_src w)) (f_pos (w_src w) + n)) (w_dst w)
                    (w_errno w)
                    (w_trace w ++ [EvRead Src (MIN block_size remain) got])
                    (tl (w_oracle w)) in
  0 < n <= Z.min (Z.min block_size remain) (avail (w_src w)) /\
  copy_body fuel Src Dst length block_size rc remain w
  = match write_block fuel Dst got n w1 with
    | Some (rc', w2) =>
        Some (if negb (rc' =? 0) then Leave rc'
              else if negb (length =? 0) then Again rc' (remain - n)
                   else Again rc' remain, w2)
    | None => None
    end.
Proof.
  intros Hok Hbs Hrem Hav n got w1.
  destruct (granted_bounds (hd Full (w_oracle w))
              (Z.min (Z.max 0 (MIN block_size remain)) (avail (w_src w)))
              Hok) as [Hn Hn'].
  { rewrite MIN_spec. lia. }
  fold n in Hn, Hn'. rewrite MIN_spec in Hn, Hn'.
  split; [lia|].
  unfold copy_body, bind. rewrite (read_src_ok _ _ Hok).
  fold n. fold got. fold w1. fields.
  destruct (Z.ltb_spec n 0); [lia|].
  destruct (Z.eqb_spec n 0); [lia|]. cbn [andb]. cbv beta.
  destruct (write_block fuel Dst got n w1) as [[rc' w2]|]; [|reflexivity].
  unfold ret.
  destruct (negb (rc' =? 0)); [reflexivity|].
  destruct (negb (length =? 0)); reflexivity.
Qed.

Section CopyLoop.

Variables (src0 dst0 : list byte) (tr0 : list event).
Variables (src_offset dst_offset : Z).
Hypothesis src_offset_nonneg : 0 <= src_offset.
Hypothesis dst_offset_nonneg : 0 <= dst_offset.

Let copied_at := copied src0 dst0 tr0 src_offset dst_offset.

Lemma copied_frame k w w1 :
  copied_at k w ->
  w_src w1 = w_src w -> w_dst w1 = w_dst w ->
  bytes_written (w_trace w1) = bytes_written (w_trace w) ->
  copied_at k w1.
Proof.
  intros [Hs Hsp Hd Hdp Hc Hw] Es Ed Et.
  constructor; rewrite ?Es, ?Ed, ?Et; assumption.
Qed.

Lemma copied_avail k w :
  copied_at k w -> avail (w_src w) = Z.max 0 (zlen src0 - src_offset) - k.
Proof.
  intros [Hs Hsp Hd Hdp [Hk Hc] Hw]. unfold avail. rewrite Hs, Hsp.
  rewrite zlen_sub in Hc by lia. lia.
Qed.

Lemma copied_step k n w w1 w2 :
  copied_at k w ->
  0 < n <= avail (w_src w) ->
  w_src w1 = mkFile (f_data (w_src w)) (f_pos (w_src w) + n) ->
  w_dst w1 = w_dst w ->
  bytes_written (w_trace w1) = bytes_written (w_trace w) ->
  wrote (sub (f_data (w_src w)) (f_pos (w_src w)) n) n w1 w2 ->
  copied_at (k + n) w2.
Proof.
  intros Hcp Hn Es Ed Et Hwr.
  pose proof (copied_avail _ _ Hcp) as Hav.
  destruct Hcp as [Hs Hsp Hd Hdp [Hk Hc] Hw].
  destruct Hwr as [Ws Wd Wp [evs (Wt & Wf & Wb)] _].
  rewrite Es in Ws. rewrite Ed in Wd, Wp.
  rewrite Hs, Hsp in *.
  assert (Hgot : zlen (sub src0 (src_offset + k) n) = n)
    by (rewrite zlen_sub by lia; lia).
  constructor.
  - rewrite Ws. reflexivity.
  - rewrite Ws. fields. lia.
  - rewrite Wd, Hd, Hdp.
    replace (firstn (Z.to_nat n) (sub src0 (src_offset + k) n))
      with (sub src0 (src_offset + k) n).
    2:{ symmetry. apply firstn_all2. unfold zlen in Hgot. lia. }
    rewrite <- Hc at 2. rewrite pwrite_app by assumption.
    now rewrite sub_app by lia.
  - rewrite Wp, Hdp. lia.
  - split; [lia|]. rewrite zlen_sub by lia. lia.
  - rewrite Wt, bytes_written_app, Wb, Et, Hw. lia.
Qed.

(** What a run of the loop that started after [k] copied bytes leaves:
    the source as it was and, when it ends with 0, the destination with
    all the bytes asked for. *)
Lemma copy_loop_spec fuel :
  forall length block_size remain k w rc w',
    0 < block_size -> 0 <= length ->
    copied_at k w ->
    (length <> 0 -> remain = length - k /\ 0 <= remain) ->
    (length = 0 -> remain = block_size) ->
    copy_loop fuel Src Dst length block_size 0 remain w = Some (rc, w') ->
    f_data (w_src w') = src0 /\
    (rc = 0 ->
     exists k', copied_at k' w'
                /\ (length <> 0 -> k' = length)
                /\ (length = 0 -> k' = Z.max 0 (zlen src0 - src_offset))).
Proof.
  induction fuel as [|fuel IH];
    intros length block_size remain k w rc w' Hbs Hlen Hcp Hfix Heof Hrun;
    simpl in Hrun.
  - destruct (Z.gtb_spec remain 0) as [Hr|Hr]; [discriminate|].
    injection Hrun as <- <-. split; [apply Hcp|]. intros _.
    exists k. split; [assumption|]. split; [|lia]. intros Hl.
    destruct (Hfix Hl). lia.
  - destruct (Z.gtb_spec remain 0) as [Hr|Hr].
    2:{ injection Hrun as <- <-. split; [apply Hcp|]. intros _.
        exists k. split; [assumption|]. split; [|lia]. intros Hl.
        destruct (Hfix Hl). lia. }
    unfold bind in Hrun.
    pose proof (copied_avail _ _ Hcp) as Hav.
    destruct (response_cases (hd Full (w_oracle w))) as [[e He]|Hok].
    + (* the read fails *)
      rewrite (copy_body_read_fail _ _ _ _ _ _ _ _ _ He) in Hrun.
      destruct (Z.eqb_spec (Z.pos e) EINTR) as [Ee|Ee].
      * eapply IH in Hrun; try eassumption.
        eapply copied_frame; [exact Hcp | reflexivity | reflexivity |].
        fields. rewrite bytes_written_app. simpl. lia.
      * injection Hrun as <- <-. fields. split; [apply Hcp|]. lia.
    + destruct (Z.eq_dec (avail (w_src w)) 0) as [Hz|Hz].
      * (* the end of the source *)
        rewrite (copy_body_eof _ _ _ _ _ _ _ Hok Hbs Hr Hz) in Hrun.
        destruct (Z.eqb_spec length 0) as [El|El];
          injection Hrun as <- <-; fields; (split; [apply Hcp|]).
        -- intros _. exists k. split.
           ++ eapply copied_frame; [exact Hcp | reflexivity | reflexivity |].
              fields. rewrite bytes_written_app. simpl. lia.
           ++ split; [congruence|]. intros _. lia.
        -- unfold ERANGE. lia.
      * (* some bytes *)
        assert (Hpos : 0 < avail (w_src w)) by (unfold avail in *; lia).
        destruct (copy_body_data fuel length block_size 0 remain w
                    Hok Hbs Hr Hpos) as [Hn Hbody].
        rewrite Hbody in Hrun. clear Hbody.
        set (n := granted (hd Full (w_oracle w))
                    (Z.min (Z.max 0 (MIN block_size remain))
                           (avail (w_src w)))) in *.
        set (got := sub (f_data (w_src w)) (f_pos (w_src w)) n) in *.
        destruct (write_block fuel Dst got n _) as [[rc1 w2]|] eqn:Ewb;
          [|discriminate].
        apply write_block_spec in Ewb.
        2:{ subst got. rewrite zlen_sub.
            - unfold avail in *. lia.
            - destruct Hcp. lia.
            - lia. }
        2:{ fields. destruct Hcp. lia. }
        destruct Ewb as (j & Hj & Hwr & Hj0 & Hj1).
        destruct (Z.eqb_spec rc1 0) as [E1|E1]; cbn [negb] in Hrun.
        -- subst rc1. rewrite (Hj0 eq_refl) in Hwr.
           assert (Hcp2 : copied_at (k + n) w2).
           { apply copied_step with w
               (mkWorld (mkFile (f_data (w_src w)) (f_pos (w_src w) + n))
                  (w_dst w) (w_errno w)
                  (w_trace w ++ [EvRead Src (MIN block_size remain) got])
                  (tl (w_oracle w))); try reflexivity;
               [assumption | lia | | assumption].
             fields. rewrite bytes_written_app. simpl. lia. }
           destruct (Z.eqb_spec length 0) as [El|El]; cbn [negb] in Hrun.
           ++ refine (IH _ _ _ _ _ _ _ Hbs Hlen Hcp2 _ _ Hrun).
              ** intros; congruence.
              ** intros _. now apply Heof.
           ++ refine (IH _ _ _ _ _ _ _ Hbs Hlen Hcp2 _ _ Hrun).
              ** intros _. destruct (Hfix El). lia.
              ** intros; congruence.
        -- injection Hrun as <- <-. split; [|lia].
           destruct Hwr as [Ws _ _ _ _]. rewrite Ws. fields. apply Hcp.
Qed.

End CopyLoop.

(** ** [seek_file] *)

Lemma to_int_small z : - 2 ^ 31 <= z < 2 ^ 31 -> to_int z = z.
Proof.
  intros H. unfold to_int.
  rewrite Z.mod_small by lia. lia.
Qed.

Lemma lseek_fail fd offset w e :
  hd Full (w_oracle w) = Fail e ->
  lseek fd offset w = Some (-1, failed (EvLseek fd offset) (Z.pos e) w).
Proof. intros H. unfold lseek, pop_oracle, log. fields. now rewrite H. Qed.

Lemma lseek_negative fd offset w :
  (forall e, hd Full (w_oracle w) <> Fail e) -> offset < 0 ->
  lseek fd offset w = Some (-1, failed (EvLseek fd offset) EINVAL w).
Proof.
  intros H Ho. unfold lseek, pop_oracle, log. fields.
  destruct (Z.ltb_spec offset 0); [|lia].
  destruct (hd Full (w_oracle w)) as [|cap|e]; try reflexivity.
  now destruct (H e).
Qed.

Lemma lseek_ok fd offset w :
  (forall e, hd Full (w_oracle w) <> Fail e) -> 0 <= offset ->
  lseek fd offset w = Some (offset, seeked fd offset w).
Proof.
  intros H Ho. unfold lseek, pop_oracle, log. fields.
  destruct (Z.ltb_spec offset 0); [lia|].
  destruct (hd Full (w_oracle w)) as [|cap|e]; try reflexivity.
  now destruct (H e).
Qed.

(** The three ways [lseek] ends. *)
Lemma lseek_cases fd offset w :
  (exists e, lseek fd offset w
             = Some (-1, failed (EvLseek fd offset) (Z.pos e) w))
  \/ (offset < 0 /\
      lseek fd offset w = Some (-1, failed (EvLseek fd offset) EINVAL w))
  \/ (0 <= offset /\ lseek fd offset w = Some (offset, seeked fd offset w)).
Proof.
  destruct (response_cases (hd Full (w_oracle w))) as [[e He]|Hok].
  - left. exists e. now apply lseek_fail.
  - right. destruct (Z.lt_ge_cases offset 0).
    + left. split; [assumption|]. now apply lseek_negative.
    + right. split; [assumption|]. now apply lseek_ok.
Qed.

Lemma seek_file_after_fail fd offset w e w1 :
  0 < e ->
  lseek fd offset w = Some (-1, failed (EvLseek fd offset) e w) ->
  w1 = failed (EvLseek fd offset) e w ->
  seek_file fd offset w = Some (e, w1).
Proof.
  intros He H ->. unfold seek_file, bind. rewrite H.
  change (to_int (-1) =? -1) with true. cbv iota.
  reflexivity.
Qed.

(** [seek_file] returns 0 only when the descriptor is at [offset]. *)
Lemma seek_file_zero fd offset w w' :
  seek_file fd offset w = Some (0, w') ->
  0 <= offset /\ w' = seeked fd offset w.
Proof.
  intros H.
  destruct (lseek_cases fd offset w) as [[e L]|[[Hneg L]|[Hpos L]]].
  - rewrite (seek_file_after_fail fd offset w (Z.pos e) _ ltac:(lia) L eq_refl)
      in H. discriminate.
  - rewrite (seek_file_after_fail fd offset w EINVAL _ ltac:(unfold EINVAL; lia)
               L eq_refl) in H. discriminate.
  - split; [assumption|]. unfold seek_file, bind in H. rewrite L in H.
    destruct (to_int offset =? -1).
    + unfold get_errno in H. cbv beta in H. congruence.
    + destruct (to_int offset >? 0); unfold ret in H; cbv beta in H;
        congruence.
Qed.

(** In all cases [seek_file] makes one [lseek] and moves no byte. *)
Lemma seek_file_any fd offset w rc w' :
  seek_file fd offset w = Some (rc, w') ->
  w_trace w' = w_trace w ++ [EvLseek fd offset]
  /\ f_data (w_src w') = f_data (w_src w)
  /\ f_data (w_dst w') = f_data (w_dst w)
  /\ w_oracle w' = tl (w_oracle w).
Proof.
  intros H. unfold seek_file, bind in H.
  assert (Hw : w' = failed (EvLseek fd offset) (w_errno w') w
               \/ w' = seeked fd offset w).
  { destruct (lseek_cases fd offset w) as [[e L]|[[Hneg L]|[Hpos L]]];
      rewrite L in H;
      (destruct (to_int _ =? -1);
       [unfold get_errno in H
       |destruct (to_int _ >? 0); unfold ret in H]);
      cbv beta in H; injection H as _ <-; auto. }
  destruct Hw as [-> | ->]; destruct fd; repeat split.
Qed.

Lemma seek_file_ok fd offset w :
  (forall e, hd Full (w_oracle w) <> Fail e) ->
  0 <= offset < 2 ^ 31 ->
  seek_file fd offset w = Some (0, seeked fd offset w).
Proof.
  intros Hok Ho. unfold seek_file, bind.
  rewrite (lseek_ok _ _ _ Hok) by lia.
  rewrite to_int_small by lia.
  destruct (Z.eqb_spec offset (-1)); [lia|].
  destruct (Z.gtb_spec offset 0); [reflexivity|].
  unfold ret. do 2 f_equal. lia.
Qed.

(** ** [deep_copy_file_range_impl] *)

Lemma malloc_fail size w e :
  hd Full (w_oracle w) = Fail e ->
  malloc size w = Some (false, failed (EvMalloc size) (Z.pos e) w).
Proof. intros H. unfold malloc, pop_oracle, log. fields. now rewrite H. Qed.

Lemma malloc_ok size w :
  (forall e, hd Full (w_oracle w) <> Fail e) ->
  malloc size w
  = Some (true, failed (EvMalloc size) (w_errno w) w).
Proof.
  intros H. unfold malloc, pop_oracle, log. fields.
  destruct (hd Full (w_oracle w)) as [|cap|e]; try reflexivity.
  now destruct (H e).
Qed.

Lemma span_nonneg src src_offset length :
  0 <= length -> 0 <= span src src_offset length.
Proof. unfold span. destruct (length =? 0); lia. Qed.

Lemma deep_copy_spec fuel src_offset dst_offset length block_size w rc w' :
  0 < block_size -> 0 <= length ->
  deep_copy_file_range_impl fuel Src Dst src_offset dst_offset length
                            block_size w = Some (rc, w') ->
  f_data (w_src w') = f_data (w_src w) /\
  (rc = 0 ->
   0 <= src_offset /\ 0 <= dst_offset /\
   copied (f_data (w_src w)) (f_data (w_dst w)) (w_trace w)
          src_offset dst_offset
          (span (f_data (w_src w)) src_offset length) w').
Proof.
  intros Hbs Hlen Hrun. unfold deep_copy_file_range_impl, bind in Hrun.
  destruct (seek_file Src src_offset w) as [[rc1 w1]|] eqn:S1; [|discriminate].
  pose proof (seek_file_any _ _ _ _ _ S1) as (T1 & D1 & D1' & O1).
  destruct (Z.eqb_spec rc1 0) as [E1|E1].
  2:{ unfold ret in Hrun. destruct (Z.eqb_spec rc1 0); [lia|].
      cbn [negb] in Hrun. injection Hrun as <- <-. split; [assumption|lia]. }
  subst rc1.
  destruct (seek_file Dst dst_offset w1) as [[rc2 w2]|] eqn:S2; [|discriminate].
  pose proof (seek_file_any _ _ _ _ _ S2) as (T2 & D2 & D2' & O2).
  destruct (Z.eqb_spec rc2 0) as [E2|E2]; cbn [negb] in Hrun.
  2:{ injection Hrun as <- <-. split; [congruence|lia]. }
  subst rc2.
  apply seek_file_zero in S1, S2. destruct S1 as [Hso ->], S2 as [Hdo ->].
  set (w2 := seeked Dst dst_offset (seeked Src src_offset w)) in *.
  destruct (response_cases (hd Full (w_oracle w2))) as [[e He]|Hok].
  { rewrite (malloc_fail _ _ _ He) in Hrun. cbn [negb] in Hrun.
    injection Hrun as <- <-. split; [reflexivity|]. unfold ENOMEM. lia. }
  rewrite (malloc_ok _ _ Hok) in Hrun. cbn [negb] in Hrun.
  set (w3 := failed (EvMalloc (block_size * 1)) (w_errno w2) w2) in *.
  destruct (copy_loop fuel Src Dst length block_size 0 _ w3)
    as [[rc3 w4]|] eqn:L; [|discriminate].
  unfold free in Hrun. injection Hrun as <- <-.
  assert (Hcp : copied (f_data (w_src w)) (f_data (w_dst w)) (w_trace w)
                       src_offset dst_offset 0 w3).
  { apply copied_start; try reflexivity; try assumption.
    subst w3 w2. unfold failed, seeked. fields.
    rewrite !bytes_written_app. simpl. lia. }
  pose proof (copy_loop_spec (f_data (w_src w)) (f_data (w_dst w)) (w_trace w)
                src_offset dst_offset Hso Hdo fuel length block_size
                (if negb (length =? 0) then length else block_size) 0 w3
                rc3 w4 Hbs Hlen Hcp) as HL.
  destruct HL as [Hsrc Hok'].
  - intros Hl. destruct (Z.eqb_spec length 0); [lia|]. cbn [negb]. lia.
  - intros ->. reflexivity.
  - exact L.
  - split; [exact Hsrc|].
    intros ->. destruct (Hok' eq_refl) as (k' & Hk' & Hf & He).
    split; [assumption|]. split; [assumption|].
    assert (k' = span (f_data (w_src w)) src_offset length) as <-.
    { unfold span. destruct (Z.eqb_spec length 0); auto. }
    eapply copied_frame; [exact Hk' | reflexivity | reflexivity |].
    unfold log. fields. rewrite bytes_written_app. simpl. lia.
Qed.

(** ** Termination *)

Lemma length_tl_oracle (o : list response) r :
  hd Full o = r -> r <> Full -> S (length (tl o)) = length o.
Proof. destruct o; simpl; congruence. Qed.

Lemma length_tl_le (o : list response) : (length (tl o) <= length o)%nat.
Proof. destruct o; simpl; lia. Qed.

(** [write_block] leaves the source alone; it only consumes the oracle and
    extends the trace. *)
Lemma write_block_frame fuel :
  forall buf n w rc w',
    write_block fuel Dst buf n w = Some (rc, w') ->
    w_src w' = w_src w
    /\ (exists c, w_oracle w' = skipn c (w_oracle w))
    /\ (exists evs, w_trace w' = w_trace w ++ evs).
Proof.
  assert (Hnow : forall w : world,
             w_src w = w_src w
             /\ (exists c, w_oracle w = skipn c (w_oracle w))
             /\ (exists evs, w_trace w = w_trace w ++ evs)).
  { intros w. split; [reflexivity|]. split; [now exists 0%nat|].
    exists []. now rewrite app_nil_r. }
  assert (Hnext : forall (w w1 w' : world) ev,
             w_src w1 = w_src w -> w_oracle w1 = tl (w_oracle w) ->
             w_trace w1 = w_trace w ++ [ev] ->
             w_src w' = w_src w1
             /\ (exists c, w_oracle w' = skipn c (w_oracle w1))
             /\ (exists evs, w_trace w' = w_trace w1 ++ evs) ->
             w_src w' = w_src w
             /\ (exists c, w_oracle w' = skipn c (w_oracle w))
             /\ (exists evs, w_trace w' = w_trace w ++ evs)).
  { intros w w1 w' ev Es Eo Et (Hs & [c Hc] & [evs Ht]).
    split; [congruence|]. split.
    - exists (S c). rewrite Hc, Eo. apply skipn_tl.
    - exists (ev :: evs). rewrite Ht, Et, <- app_assoc. reflexivity. }
  induction fuel as [|fuel IH]; intros buf n w rc w' Hrun.
  - simpl in Hrun. destruct (n >? 0); [discriminate|].
    injection Hrun as _ <-. apply Hnow.
  - rewrite write_block_unfold in Hrun.
    destruct (n >? 0).
    2:{ injection Hrun as _ <-. apply Hnow. }
    unfold bind in Hrun.
    destruct (response_cases (hd Full (w_oracle w))) as [[e He]|Hok].
    + rewrite (write_fail _ _ _ _ _ He) in Hrun.
      change (-1 <? 0) with true in Hrun. cbv beta iota in Hrun.
      unfold get_errno in Hrun; fields.
      destruct (Z.pos e =? EINTR).
      * apply IH in Hrun. eapply Hnext; [| | |exact Hrun]; reflexivity.
      * injection Hrun as _ <-.
        eapply Hnext; [| | |apply Hnow]; reflexivity.
    + rewrite (write_dst_ok _ _ _ Hok) in Hrun.
      destruct (_ <? 0) in Hrun.
      * unfold get_errno in Hrun; fields.
        destruct (_ =? EINTR) in Hrun.
        -- apply IH in Hrun. eapply Hnext; [| | |exact Hrun]; reflexivity.
        -- injection Hrun as _ <-.
           eapply Hnext; [| | |apply Hnow]; reflexivity.
      * apply IH in Hrun. eapply Hnext; [| | |exact Hrun]; reflexivity.
Qed.

Lemma write_block_terminates fuel :
  forall buf n w,
    zlen buf = n ->
    (length (w_oracle w) < fuel)%nat ->
    exists rc w', write_block fuel Dst buf n w = Some (rc, w').
Proof.
  induction fuel as [|fuel IH]; intros buf n w Hlen Hfuel; [lia|].
  rewrite write_block_unfold.
  destruct (Z.gtb_spec n 0) as [Hn|Hn]; [|now exists 0, w].
  unfold bind.
  destruct (response_cases (hd Full (w_oracle w))) as [[e He]|Hok].
  - rewrite (write_fail _ _ _ _ _ He).
    change (-1 <? 0) with true. cbv beta iota.
    unfold get_errno; fields.
    pose proof (length_tl_oracle _ _ He ltac:(discriminate)).
    destruct (Z.pos e =? EINTR).
    + apply IH; [assumption|]. fields. lia.
    + now eexists _, _.
  - rewrite (write_dst_ok _ _ _ Hok).
    set (m := granted (hd Full (w_oracle w)) (Z.min (Z.max 0 n) (zlen buf))).
    destruct (granted_bounds (hd Full (w_oracle w))
                (Z.min (Z.max 0 n) (zlen buf)) Hok ltac:(lia)) as [Hm Hm'].
    fold m in Hm, Hm'.
    destruct (Z.ltb_spec m 0); [lia|].
    destruct (w_oracle w) as [|r o] eqn:Eo.
    + (* nothing left in the oracle: the write is complete *)
      assert (m = n) as -> by (subst m; simpl; lia).
      rewrite Z.sub_diag. rewrite write_block_done by lia.
      now eexists _, _.
    + apply IH.
      * unfold zlen in *. rewrite length_skipn. lia.
      * fields. simpl in *. lia.
Qed.

Lemma length_skipn_le (o : list response) c :
  (length (skipn c o) <= length o)%nat.
Proof. rewrite length_skipn. lia. Qed.

Lemma copy_loop_terminates fuel :
  forall length block_size rc remain w,
    0 < block_size ->
    0 <= f_pos (w_src w) ->
    (List.length (w_oracle w) + Z.to_nat (avail (w_src w)) < fuel)%nat ->
    exists rc' w',
      copy_loop fuel Src Dst length block_size rc remain w = Some (rc', w').
Proof.
  induction fuel as [|fuel IH];
    intros length block_size rc remain w Hbs Hp Hfuel; [lia|].
  simpl. destruct (Z.gtb_spec remain 0) as [Hr|Hr]; [|now exists rc, w].
  unfold bind.
  destruct (response_cases (hd Full (w_oracle w))) as [[e He]|Hok].
  - rewrite (copy_body_read_fail _ _ _ _ _ _ _ _ _ He).
    pose proof (length_tl_oracle _ _ He ltac:(discriminate)).
    destruct (Z.pos e =? EINTR).
    + apply IH; [assumption | assumption |]. fields. lia.
    + now eexists _, _.
  - destruct (Z.eq_dec (avail (w_src w)) 0) as [Hz|Hz].
    + rewrite (copy_body_eof _ _ _ _ _ _ _ Hok Hbs Hr Hz).
      destruct (length =? 0); now eexists _, _.
    + assert (Hpos : 0 < avail (w_src w)) by (unfold avail in *; lia).
      destruct (copy_body_data fuel length block_size rc remain w
                  Hok Hbs Hr Hpos) as [Hn Hbody].
      rewrite Hbody. clear Hbody.
      set (n := granted (hd Full (w_oracle w))
                  (Z.min (Z.max 0 (MIN block_size remain))
                         (avail (w_src w)))) in *.
      set (got := sub (f_data (w_src w)) (f_pos (w_src w)) n) in *.
      set (w1 := mkWorld _ _ _ _ _).
      pose proof (length_tl_le (w_oracle w)) as Htl.
      destruct (write_block_terminates fuel got n w1) as (rc1 & w2 & Hwb).
      { subst got. rewrite zlen_sub by lia. unfold avail in *. lia. }
      { subst w1. fields.
        destruct (w_oracle w) as [|r o]; simpl in *; lia. }
      rewrite Hwb.
      apply write_block_frame in Hwb. destruct Hwb as (Hs & [c Hc] & _).
      assert (Hdec : (List.length (w_oracle w2)
                      + Z.to_nat (avail (w_src w2)) < fuel)%nat).
      { rewrite Hs, Hc. subst w1. fields.
        pose proof (length_skipn_le (tl (w_oracle w)) c).
        unfold avail in *. fields.
        destruct (w_oracle w) as [|r o]; simpl in *; lia. }
      assert (Hp2 : 0 <= f_pos (w_src w2)).
      { rewrite Hs. subst w1. fields. lia. }
      destruct (negb (rc1 =? 0)); [now eexists _, _|].
      destruct (negb (length =? 0)); now apply IH.
Qed.

Lemma deep_copy_terminates src_offset dst_offset length block_size w :
  0 < block_size ->
  exists rc w',
    deep_copy_file_range_impl (enough w) Src Dst src_offset dst_offset length
                              block_size w = Some (rc, w').
Proof.
  intros Hbs. unfold deep_copy_file_range_impl, bind.
  destruct (seek_file Src src_offset w) as [[rc1 w1]|] eqn:S1.
  2:{ unfold seek_file, bind in S1.
      destruct (lseek_cases Src src_offset w) as [[e L]|[[? L]|[? L]]];
        rewrite L in S1;
        (destruct (to_int _ =? -1); [|destruct (to_int _ >? 0)]);
        discriminate. }
  destruct (Z.eqb_spec rc1 0) as [E1|E1].
  2:{ unfold ret. destruct (Z.eqb_spec rc1 0); [lia|]. now eexists _, _. }
  subst rc1.
  destruct (seek_file Dst dst_offset w1) as [[rc2 w2]|] eqn:S2.
  2:{ unfold seek_file, bind in S2.
      destruct (lseek_cases Dst dst_offset w1) as [[e L]|[[? L]|[? L]]];
        rewrite L in S2;
        (destruct (to_int _ =? -1); [|destruct (to_int _ >? 0)]);
        discriminate. }
  destruct (Z.eqb_spec rc2 0) as [E2|E2]; cbn [negb]; [|now eexists _, _].
  subst rc2.
  apply seek_file_zero in S1, S2. destruct S1 as [Hso ->], S2 as [Hdo ->].
  set (w2 := seeked Dst dst_offset (seeked Src src_offset w)) in *.
  destruct (response_cases (hd Full (w_oracle w2))) as [[e He]|Hok].
  { rewrite (malloc_fail _ _ _ He). cbn [negb]. now eexists _, _. }
  rewrite (malloc_ok _ _ Hok). cbn [negb].
  set (w3 := failed (EvMalloc (block_size * 1)) (w_errno w2) w2) in *.
  destruct (copy_loop_terminates (enough w) length block_size 0
              (if negb (length =? 0) then length else block_size) w3 Hbs)
    as (rc3 & w4 & L).
  - subst w3 w2. unfold failed, seeked. fields. assumption.
  - subst w3 w2. unfold failed, seeked, enough, avail. fields.
    pose proof (length_tl_le (w_oracle w)).
    pose proof (length_tl_le (tl (w_oracle w))).
    pose proof (length_tl_le (tl (tl (w_oracle w)))).
    unfold zlen. lia.
  - rewrite L. unfold free. now eexists _, _.
Qed.

(** ** More fuel changes no result *)

Lemma write_block_mono fuel :
  forall fuel' fd buf n w r,
    (fuel <= fuel')%nat ->
    write_block fuel fd buf n w = Some r ->
    write_block fuel' fd buf n w = Some r.
Proof.
  induction fuel as [|fuel IH]; intros fuel' fd buf n w r Hle Hrun.
  - simpl in Hrun. destruct (Z.gtb_spec n 0); [discriminate|].
    injection Hrun as <-. apply write_block_done. lia.
  - destruct fuel' as [|fuel']; [lia|].
    rewrite write_block_unfold in *.
    destruct (n >? 0); [|assumption].
    unfold bind in *.
    destruct (write fd buf n w) as [[wrote_now w1]|]; [|discriminate].
    destruct (wrote_now <? 0).
    + unfold get_errno in *.
      destruct (_ =? EINTR); [|assumption].
      apply IH; [lia | assumption].
    + apply IH; [lia | assumption].
Qed.

Lemma copy_body_mono fuel fuel' src_fd dst_fd length block_size rc remain w r :
  (fuel <= fuel')%nat ->
  copy_body fuel src_fd dst_fd length block_size rc remain w = Some r ->
  copy_body fuel' src_fd dst_fd length block_size rc remain w = Some r.
Proof.
  intros Hle Hrun. unfold copy_body, bind in *.
  destruct (read src_fd _ w) as [[[read_now p_block] w1]|]; [|discriminate].
  fields.
  destruct (read_now <? 0); [assumption|].
  destruct (_ && _); [assumption|].
  destruct (_ && _); [assumption|].
  destruct (write_block fuel dst_fd p_block read_now w1) as [[rc' w2]|] eqn:E;
    [|discriminate].
  now rewrite (write_block_mono _ _ _ _ _ _ _ Hle E).
Qed.

Lemma copy_loop_mono fuel :
  forall fuel' src_fd dst_fd length block_size rc remain w r,
    (fuel <= fuel')%nat ->
    copy_loop fuel src_fd dst_fd length block_size rc remain w = Some r ->
    copy_loop fuel' src_fd dst_fd length block_size rc remain w = Some r.
Proof.
  induction fuel as [|fuel IH];
    intros fuel' src_fd dst_fd length block_size rc remain w r Hle Hrun.
  - simpl in Hrun. destruct fuel'; simpl;
      destruct (remain >? 0); (discriminate || assumption).
  - destruct fuel' as [|fuel']; [lia|]. simpl in *.
    destruct (remain >? 0); [|assumption].
    unfold bind in *.
    destruct (copy_body fuel _ _ _ _ _ _ w) as [[t w1]|] eqn:E; [|discriminate].
    rewrite (copy_body_mono fuel fuel' _ _ _ _ _ _ _ _ ltac:(lia) E).
    destruct t; [|assumption]. apply IH; [lia | assumption].
Qed.

Lemma deep_copy_mono fuel fuel' src_fd dst_fd src_offset dst_offset length
    block_size w r :
  (fuel <= fuel')%nat ->
  deep_copy_file_range_impl fuel src_fd dst_fd src_offset dst_offset length
                            block_size w = Some r ->
  deep_copy_file_range_impl fuel' src_fd dst_fd src_offset dst_offset length
                            block_size w = Some r.
Proof.
  intros Hle Hrun. unfold deep_copy_file_range_impl, bind in *.
  destruct (seek_file src_fd src_offset w) as [[rc1 w1]|]; [|discriminate].
  destruct ((if rc1 =? 0 then seek_file dst_fd dst_offset else ret rc1) w1)
    as [[rc2 w2]|]; [|discriminate].
  destruct (negb (rc2 =? 0)); [assumption|].
  destruct (malloc _ w2) as [[p w3]|]; [|discriminate].
  destruct (negb p); [assumption|].
  destruct (copy_loop fuel _ _ _ _ _ _ w3) as [[rc3 w4]|] eqn:E;
    [|discriminate].
  now rewrite (copy_loop_mono _ _ _ _ _ _ _ _ _ _ Hle E).
Qed.



(** ** The clone [ioctl]s *)

Lemma clone_range_cases src_offset dst_offset length ev w :
  (exists e, 0 < e /\
     clone_range Dst Src src_offset dst_offset length (log ev w)
     = (-1, failed ev e w))
  \/ (0 <= src_offset /\ 0 <= dst_offset /\ 0 <= length
      /\ src_offset + length <= zlen (f_data (w_src w))
      /\ clone_range Dst Src src_offset dst_offset length (log ev w)
         = (0, cloned ev src_offset dst_offset length w)).
Proof.
  unfold clone_range, pop_oracle, log. fields.
  destruct (hd Full (w_oracle w)) as [|cap|e] eqn:E.
  3:{ left. exists (Z.pos e). split; [lia | reflexivity]. }
  all: destruct (Z.ltb_spec src_offset 0); cbn [orb];
    [left; exists EINVAL; split; [unfold EINVAL; lia | reflexivity]|];
    destruct (Z.ltb_spec dst_offset 0); cbn [orb];
    [left; exists EINVAL; split; [unfold EINVAL; lia | reflexivity]|];
    destruct (Z.ltb_spec length 0); cbn [orb];
    [left; exists EINVAL; split; [unfold EINVAL; lia | reflexivity]|];
    destruct (Z.ltb_spec (zlen (f_data (w_src w))) (src_offset + length));
    [left; exists EINVAL; split; [unfold EINVAL; lia | reflexivity]|];
    right; repeat (split; [assumption|]); reflexivity.
Qed.

Lemma clone_file_range_impl_cases src_offset dst_offset length w :
  let ev := EvFiclonerange src_offset dst_offset length in
  (exists e, 0 < e /\
     clone_file_range_impl Src Dst src_offset dst_offset length w
     = Some (e, failed ev e w))
  \/ (0 <= src_offset /\ 0 <= dst_offset /\ 0 <= length
      /\ src_offset + length <= zlen (f_data (w_src w))
      /\ clone_file_range_impl Src Dst src_offset dst_offset length w
         = Some (0, cloned ev src_offset dst_offset length w)).
Proof.
  intros ev. subst ev.
  unfold clone_file_range_impl, ioctl_FICLONERANGE, bind.
  destruct (clone_range_cases src_offset dst_offset length
              (EvFiclonerange src_offset dst_offset length) w)
    as [(e & He & ->)|(H1 & H2 & H3 & H4 & ->)].
  - left. exists e. split; [assumption | reflexivity].
  - right. repeat (split; [assumption|]). reflexivity.
Qed.

Lemma clone_file_impl_cases w :
  (exists e, 0 < e /\
     clone_file_impl Src Dst w = Some (e, failed EvFiclone e w))
  \/ clone_file_impl Src Dst w = Some (0, cloned EvFiclone 0 0 0 w).
Proof.
  unfold clone_file_impl, ioctl_FICLONE, bind.
  destruct (clone_range_cases 0 0 0 EvFiclone w)
    as [(e & He & ->)|(H1 & H2 & H3 & H4 & ->)].
  - left. exists e. split; [assumption | reflexivity].
  - right. reflexivity.
Qed.

Lemma clone_file_impl_fail src_fd dst_fd w e :
  hd Full (w_oracle w) = Fail e ->
  clone_file_impl src_fd dst_fd w
  = Some (Z.pos e, failed EvFiclone (Z.pos e) w).
Proof.
  intros H. unfold clone_file_impl, ioctl_FICLONE, bind, clone_range,
    pop_oracle, log. fields. now rewrite H.
Qed.

Lemma clone_file_range_impl_fail src_fd dst_fd src_offset dst_offset length
    w e :
  hd Full (w_oracle w) = Fail e ->
  clone_file_range_impl src_fd dst_fd src_offset dst_offset length w
  = Some (Z.pos e,
          failed (EvFiclonerange src_offset dst_offset length) (Z.pos e) w).
Proof.
  intros H. unfold clone_file_range_impl, ioctl_FICLONERANGE, bind,
    clone_range, pop_oracle, log. fields. now rewrite H.
Qed.

(** ** The two exported functions *)

Lemma qtm_clone_file_valid fuel src_fd dst_fd fallback_copy block_size w :
  0 <= src_fd -> 0 <= dst_fd -> (fallback_copy = true -> block_size <> 0) ->
  qtm_clone_file fuel src_fd dst_fd fallback_copy block_size w
  = (rc <- clone_file_impl Src Dst ;;
     if negb (rc =? 0) && fallback_copy
     then deep_copy_file_range_impl fuel Src Dst 0 0 0 block_size
     else ret rc) w.
Proof.
  intros Hs Hd Hb. unfold qtm_clone_file.
  destruct (Z.ltb_spec src_fd 0); [lia|].
  destruct (Z.ltb_spec dst_fd 0); [lia|].
  destruct fallback_copy; [|reflexivity].
  destruct (Z.eqb_spec block_size 0); [now destruct Hb | reflexivity].
Qed.

Lemma qtm_clone_file_range_valid fuel src_fd dst_fd src_offset dst_offset
    length fallback_copy block_size w :
  0 <= src_fd -> 0 <= dst_fd -> 0 <= src_offset -> 0 <= dst_offset ->
  (fallback_copy = true -> block_size <> 0) ->
  qtm_clone_file_range fuel src_fd dst_fd src_offset dst_offset length
                       fallback_copy block_size w
  = (rc <- clone_file_range_impl Src Dst src_offset dst_offset length ;;
     if negb (rc =? 0) && fallback_copy
     then deep_copy_file_range_impl fuel Src Dst src_offset dst_offset length
                                    block_size
     else ret rc) w.
Proof.
  intros Hs Hd Hso Hdo Hb. unfold qtm_clone_file_range.
  destruct (Z.ltb_spec src_fd 0); [lia|].
  destruct (Z.ltb_spec dst_fd 0); [lia|].
  destruct (Z.ltb_spec src_offset 0); [lia|].
  destruct (Z.ltb_spec dst_offset 0); [lia|].
  destruct fallback_copy; [|reflexivity].
  destruct (Z.eqb_spec block_size 0); [now destruct Hb | reflexivity].
Qed.

(** The arguments of a call that did not return [EINVAL] at once. *)
Lemma qtm_clone_file_range_invalid fuel src_fd dst_fd src_offset dst_offset
    length fallback_copy block_size w :
  src_fd < 0 \/ dst_fd < 0 \/ src_offset < 0 \/ dst_offset < 0
  \/ (fallback_copy = true /\ block_size = 0) ->
  qtm_clone_file_range fuel src_fd dst_fd src_offset dst_offset length
                       fallback_copy block_size w = Some (EINVAL, w).
Proof.
  intros H. unfold qtm_clone_file_range.
  destruct (Z.ltb_spec src_fd 0); [reflexivity|].
  destruct (Z.ltb_spec dst_fd 0); [reflexivity|].
  destruct (Z.ltb_spec src_offset 0); [reflexivity|].
  destruct (Z.ltb_spec dst_offset 0); [reflexivity|].
  destruct H as [H|[H|[H|[H|[-> ->]]]]]; try lia. reflexivity.
Qed.

Lemma qtm_clone_file_invalid fuel src_fd dst_fd fallback_copy block_size w :
  src_fd < 0 \/ dst_fd < 0 \/ (fallback_copy = true /\ block_size = 0) ->
  qtm_clone_file fuel src_fd dst_fd fallback_copy block_size w
  = Some (EINVAL, w).
Proof.
  intros H. unfold qtm_clone_file.
  destruct (Z.ltb_spec src_fd 0); [reflexivity|].
  destruct (Z.ltb_spec dst_fd 0); [reflexivity|].
  destruct H as [H|[H|[-> ->]]]; try lia. reflexivity.
Qed.

Lemma args_checked (a b : Z) (c : bool) (d : Z) :
  (a <? 0) || (b <? 0) || (c && (d =? 0)) = false ->
  0 <= a /\ 0 <= b /\ (c = true -> d <> 0).
Proof.
  destruct (Z.ltb_spec a 0), (Z.ltb_spec b 0); cbn [orb]; try discriminate.
  intros Hc. repeat (split; [assumption|]). intros ->.
  destruct (Z.eqb_spec d 0); [discriminate | assumption].
Qed.

(** A clone attempt that did not return 0 left the files as they were
    and made the [ioctl] only. *)
Lemma clone_file_impl_failed w e w1 :
  clone_file_impl Src Dst w = Some (e, w1) -> e <> 0 ->
  0 < e /\ w1 = failed EvFiclone e w.
Proof.
  intros H He.
  destruct (clone_file_impl_cases w) as [(e' & Hpos & Hn)|Hn];
    rewrite Hn in H; injection H as <- <-; [now split | contradiction].
Qed.

Lemma clone_file_range_impl_failed src_offset dst_offset length w e w1 :
  clone_file_range_impl Src Dst src_offset dst_offset length w
  = Some (e, w1) -> e <> 0 ->
  0 < e /\ w1 = failed (EvFiclonerange src_offset dst_offset length) e w.
Proof.
  intros H He.
  destruct (clone_file_range_impl_cases src_offset dst_offset length w)
    as [(e' & Hpos & Hn)|(_ & _ & _ & _ & Hn)];
    rewrite Hn in H; injection H as <- <-; [now split | contradiction].
Qed.

Lemma range_args_checked (a b c d : Z) (f : bool) (g : Z) :
  (a <? 0) || (b <? 0) || (c <? 0) || (d <? 0) || (f && (g =? 0)) = false ->
  0 <= a /\ 0 <= b /\ 0 <= c /\ 0 <= d /\ (f = true -> g <> 0).
Proof.
  destruct (Z.ltb_spec a 0), (Z.ltb_spec b 0), (Z.ltb_spec c 0),
    (Z.ltb_spec d 0); cbn [orb]; try discriminate.
  intros Hc. repeat (split; [assumption|]). intros ->.
  destruct (Z.eqb_spec g 0); [discriminate | assumption].
Qed.




Lemma pwrite_zero (dst src : list byte) :
  pwrite dst 0 src = src ++ skipn (length src) dst.
Proof. destruct src; reflexivity. Qed.

Lemma sub_all (src : list byte) : sub src 0 (zlen src) = src.
Proof. unfold sub, zlen. rewrite Nat2Z.id. simpl. apply firstn_all. Qed.

(** What a range clone that returned 0 did, through the [ioctl] or through
    the deep copy. *)
Lemma qtm_clone_file_range_success fuel src_fd dst_fd src_offset dst_offset
    length fallback_copy block_size w w' :
  0 <= length -> 0 <= block_size ->
  qtm_clone_file_range fuel src_fd dst_fd src_offset dst_offset length
                       fallback_copy block_size w = Some (0, w') ->
  0 <= src_offset /\ 0 <= dst_offset /\
  ((src_offset + length <= zlen (f_data (w_src w))
    /\ w' = cloned (EvFiclonerange src_offset dst_offset length)
                   src_offset dst_offset length w)
   \/ (fallback_copy = true /\
       exists e, 0 < e /\
         copied (f_data (w_src w)) (f_data (w_dst w)) (w_trace w)
                src_offset dst_offset
                (span (f_data (w_src w)) src_offset length) w')).
Proof.
  intros Hlen Hbs Hrun.
  assert (Hargs : 0 <= src_fd /\ 0 <= dst_fd /\ 0 <= src_offset
                  /\ 0 <= dst_offset
                  /\ (fallback_copy = true -> block_size <> 0)).
  { apply range_args_checked. unfold qtm_clone_file_range in Hrun.
    destruct (_ || _); [discriminate | reflexivity]. }
  destruct Hargs as (Hs & Hd & Hso & Hdo & Hnz).
  rewrite qtm_clone_file_range_valid in Hrun by assumption.
  split; [assumption|]. split; [assumption|].
  unfold bind in Hrun.
  destruct (clone_file_range_impl_cases src_offset dst_offset length w)
    as [(e & He & Hn)|(_ & _ & _ & Hin & Hn)]; rewrite Hn in Hrun.
  - destruct (Z.eqb_spec e 0); [lia|]. cbn [negb andb] in Hrun.
    destruct fallback_copy; [|injection Hrun as ? _; lia].
    right. split; [reflexivity|]. exists e. split; [assumption|].
    apply deep_copy_spec in Hrun; [|specialize (Hnz eq_refl); lia|lia].
    destruct Hrun as [_ Hok]. destruct (Hok eq_refl) as (_ & _ & Hcp).
    unfold failed in Hcp. fields.
    destruct Hcp as [C1 C2 C3 C4 C5 C6].
    constructor; try assumption.
    rewrite C6, bytes_written_app. simpl. lia.
  - cbn [negb andb] in Hrun. injection Hrun as <-.
    left. split; [assumption | reflexivity].
Qed.

(** ** Runs in which no call fails *)

Lemma answers_ok_hd o : answers_ok o -> forall e, hd Full o <> Fail e.
Proof.
  intros H e He. destruct o as [|r o]; [discriminate|].
  simpl in He. subst r. apply (H e). now left.
Qed.

Lemma answers_ok_tl o : answers_ok o -> answers_ok (tl o).
Proof.
  intros H e He. destruct o as [|r o]; [exact He|]. apply (H e). now right.
Qed.

Lemma answers_ok_skipn c o : answers_ok o -> answers_ok (skipn c o).
Proof.
  intros H e He. apply (H e). rewrite <- (firstn_skipn c o).
  apply in_or_app. now right.
Qed.

Lemma write_block_ok fuel :
  forall buf n w rc w',
    answers_ok (w_oracle w) ->
    write_block fuel Dst buf n w = Some (rc, w') -> rc = 0.
Proof.
  induction fuel as [|fuel IH]; intros buf n w rc w' Hok Hrun.
  - simpl in Hrun. destruct (n >? 0); [discriminate|]. now injection Hrun.
  - rewrite write_block_unfold in Hrun.
    destruct (n >? 0); [|now injection Hrun].
    unfold bind in Hrun.
    rewrite (write_dst_ok _ _ _ (answers_ok_hd _ Hok)) in Hrun.
    set (m := granted _ _) in *.
    destruct (granted_bounds (hd Full (w_oracle w))
                (Z.min (Z.max 0 n) (zlen buf)) (answers_ok_hd _ Hok))
      as [Hm _].
    { pose proof (zlen_nonneg buf). lia. }
    fold m in Hm. destruct (Z.ltb_spec m 0); [lia|].
    apply IH in Hrun; [assumption|]. fields. now apply answers_ok_tl.
Qed.

(** The turn of the loop whose [read] returns 0: out of the loop, with
    [rc] as it is when copying to the end of the source, with [ERANGE]
    when a length was asked for. *)
Lemma copy_body_zero_read fuel src_fd dst_fd length block_size rc remain
    w p w1 :
  remain <> 0 ->
  read src_fd (MIN block_size remain) w = Some ((0, p), w1) ->
  copy_body fuel src_fd dst_fd length block_size rc remain w
  = Some (if length =? 0 then Leave rc else Leave ERANGE, w1).
Proof.
  intros Hr Hread. unfold copy_body, bind. rewrite Hread. fields.
  change (0 <? 0) with false. change (0 =? 0) with true. cbn [andb].
  cbv iota.
  destruct (length =? 0); [reflexivity|].
  destruct (Z.eqb_spec remain 0); [contradiction | reflexivity].
Qed.

Lemma copy_loop_ok fuel :
  forall length block_size remain w rc w',
    0 < block_size ->
    answers_ok (w_oracle w) ->
    copy_loop fuel Src Dst length block_size 0 remain w = Some (rc, w') ->
    rc = 0 \/ (rc = ERANGE /\ length <> 0).
Proof.
  induction fuel as [|fuel IH];
    intros length block_size remain w rc w' Hbs Hok Hrun; simpl in Hrun.
  - destruct (remain >? 0); [discriminate|]. injection Hrun as <- _. now left.
  - destruct (Z.gtb_spec remain 0) as [Hr|Hr];
      [|injection Hrun as <- _; now left].
    unfold bind in Hrun.
    pose proof (answers_ok_hd _ Hok) as Hhd.
    destruct (Z.eq_dec (avail (w_src w)) 0) as [Hz|Hz].
    + rewrite (copy_body_eof _ _ _ _ _ _ _ Hhd Hbs Hr Hz) in Hrun.
      destruct (Z.eqb_spec length 0); injection Hrun as <- _; auto.
    + assert (Hpos : 0 < avail (w_src w)) by (unfold avail in *; lia).
      destruct (copy_body_data fuel length block_size 0 remain w
                  Hhd Hbs Hr Hpos) as [Hn Hbody].
      rewrite Hbody in Hrun. clear Hbody.
      destruct (write_block fuel Dst _ _ _) as [[rc1 w2]|] eqn:Ewb;
        [|discriminate].
      pose proof (write_block_frame _ _ _ _ _ _ Ewb) as (_ & [c Hc] & _).
      apply write_block_ok in Ewb; [|fields; now apply answers_ok_tl].
      subst rc1. cbn [negb Z.eqb] in Hrun. cbv iota in Hrun.
      assert (Hok2 : answers_ok (w_oracle w2)).
      { rewrite Hc. fields. now apply answers_ok_skipn, answers_ok_tl. }
      destruct (negb (length =? 0)); now apply IH in Hrun.
Qed.

Lemma deep_copy_ok fuel src_offset dst_offset length block_size w rc w' :
  0 < block_size ->
  answers_ok (w_oracle w) ->
  0 <= src_offset < 2 ^ 31 -> 0 <= dst_offset < 2 ^ 31 ->
  deep_copy_file_range_impl fuel Src Dst src_offset dst_offset length
                            block_size w = Some (rc, w') ->
  rc = 0 \/ (rc = ERANGE /\ length <> 0).
Proof.
  intros Hbs Hok Hso Hdo Hrun. unfold deep_copy_file_range_impl, bind in Hrun.
  rewrite (seek_file_ok _ _ _ (answers_ok_hd _ Hok) Hso) in Hrun.
  change (0 =? 0) with true in Hrun. cbv iota in Hrun.
  assert (Hok1 : answers_ok (w_oracle (seeked Src src_offset w)))
    by (now apply answers_ok_tl).
  rewrite (seek_file_ok _ _ _ (answers_ok_hd _ Hok1) Hdo) in Hrun.
  change (negb (0 =? 0)) with false in Hrun. cbv iota in Hrun.
  set (w2 := seeked Dst dst_offset (seeked Src src_offset w)) in *.
  assert (Hok2 : answers_ok (w_oracle w2)) by (now apply answers_ok_tl).
  cbv beta in Hrun.
  rewrite (malloc_ok _ _ (answers_ok_hd _ Hok2)) in Hrun.
  cbn [negb] in Hrun.
  destruct (copy_loop fuel Src Dst _ _ _ _ _) as [[rc3 w4]|] eqn:L;
    [|discriminate].
  injection Hrun as <- _.
  apply copy_loop_ok in L; [assumption | assumption |].
  unfold failed. fields. now apply answers_ok_tl.
Qed.

Lemma sub_to_end (src : list byte) off :
  0 <= off -> sub src off (Z.max 0 (zlen src - off)) = skipn (Z.to_nat off) src.
Proof.
  intros Hoff. unfold sub. apply firstn_all2.
  rewrite length_skipn. unfold zlen. lia.
Qed.

(** ** The order of the calls *)

Lemma read_trace fd count w r w1 :
  read fd count w = Some (r, w1) ->
  exists ev, w_trace w1 = w_trace w ++ [ev].
Proof.
  unfold read, pop_oracle. intros H.
  destruct (hd Full (w_oracle w)); injection H as _ <-;
    unfold log; destruct fd; fields; eexists; reflexivity.
Qed.

Lemma copy_body_trace fuel length block_size rc remain w t w' :
  copy_body fuel Src Dst length block_size rc remain w = Some (t, w') ->
  exists evs, w_trace w' = w_trace w ++ evs.
Proof.
  unfold copy_body, bind. intros H.
  destruct (read Src _ w) as [[[read_now p_block] w1]|] eqn:R; [|discriminate].
  apply read_trace in R. destruct R as [ev R]. fields.
  assert (Hnow : forall x, ret (A := turn) x w1 = Some (t, w') ->
                           exists evs, w_trace w' = w_trace w ++ evs).
  { intros x Hx. injection Hx as _ <-. now exists [ev]. }
  destruct (read_now <? 0).
  { unfold get_errno in H. destruct (_ =? EINTR); now apply Hnow in H. }
  destruct (_ && _); [now apply Hnow in H|].
  destruct (_ && _); [now apply Hnow in H|].
  destruct (write_block fuel Dst p_block read_now w1) as [[rc' w2]|] eqn:Ewb;
    [|discriminate].
  apply write_block_frame in Ewb. destruct Ewb as (_ & _ & [evs Ht]).
  assert (w' = w2) as ->.
  { destruct (negb (rc' =? 0)); [|destruct (negb (length =? 0))];
      now injection H. }
  exists (ev :: evs). rewrite Ht, R, <- app_assoc. reflexivity.
Qed.

Lemma copy_loop_trace fuel :
  forall length block_size rc remain w rc' w',
    copy_loop fuel Src Dst length block_size rc remain w = Some (rc', w') ->
    exists evs, w_trace w' = w_trace w ++ evs.
Proof.
  induction fuel as [|fuel IH];
    intros length block_size rc remain w rc' w' H; simpl in H.
  - destruct (remain >? 0); [discriminate|]. injection H as _ <-.
    exists []. now rewrite app_nil_r.
  - destruct (remain >? 0).
    2:{ injection H as _ <-. exists []. now rewrite app_nil_r. }
    unfold bind in H.
    destruct (copy_body fuel Src Dst _ _ _ _ w) as [[t w1]|] eqn:B;
      [|discriminate].
    apply copy_body_trace in B. destruct B as [evs B].
    destruct t as [rc1 remain1 | rc1].
    + apply IH in H. destruct H as [evs' H].
      exists (evs ++ evs'). now rewrite H, B, app_assoc.
    + injection H as _ <-. now exists evs.
Qed.

(** A failed [lseek] leaves its error number in errno, and [seek_file]
    returns it. *)
Lemma seek_file_lseek_failed fd offset w w1 :
  lseek fd offset w = Some (-1, w1) ->
  seek_file fd offset w = Some (w_errno w1, w1) /\ 0 < w_errno w1.
Proof.
  intros L.
  assert (H : 0 < w_errno w1
              /\ w1 = failed (EvLseek fd offset) (w_errno w1) w).
  { destruct (lseek_cases fd offset w) as [[e L']|[[_ L']|[Hpos L']]];
      rewrite L' in L.
    - injection L as <-. split; [simpl; lia | reflexivity].
    - injection L as <-. split; [simpl; unfold EINVAL; lia | reflexivity].
    - injection L as Ho _. lia. }
  destruct H as [Hpos Hw1]. split; [|exact Hpos].
  rewrite Hw1 in L at 1.
  exact (seek_file_after_fail _ _ _ _ _ Hpos L Hw1).
Qed.

(** ** The source is only read *)

Lemma qtm_clone_file_source fuel src_fd dst_fd fallback_copy block_size
    w rc w' :
  0 <= block_size ->
  qtm_clone_file fuel src_fd dst_fd fallback_copy block_size w
  = Some (rc, w') ->
  f_data (w_src w') = f_data (w_src w).
Proof.
  intros Hbs Hrun. unfold qtm_clone_file in Hrun.
  destruct (_ || _) eqn:Eargs; [now injection Hrun as _ <-|].
  apply args_checked in Eargs. destruct Eargs as (_ & _ & Hnz).
  unfold bind in Hrun.
  destruct (clone_file_impl_cases w) as [(e & He & Hn)|Hn];
    rewrite Hn in Hrun.
  - destruct (negb (e =? 0) && fallback_copy) eqn:Efb.
    + apply andb_prop in Efb. destruct Efb as [_ ->].
      apply deep_copy_spec in Hrun; [|specialize (Hnz eq_refl); lia|lia].
      destruct Hrun as [Hsrc _]. exact Hsrc.
    + now injection Hrun as _ <-.
  - cbn [negb andb Z.eqb] in Hrun. now injection Hrun as _ <-.
Qed.

Lemma qtm_clone_file_range_source fuel src_fd dst_fd src_offset dst_offset
    length fallback_copy block_size w rc w' :
  0 <= length -> 0 <= block_size ->
  qtm_clone_file_range fuel src_fd dst_fd src_offset dst_offset length
                       fallback_copy block_size w = Some (rc, w') ->
  f_data (w_src w') = f_data (w_src w).
Proof.
  intros Hlen Hbs Hrun. unfold qtm_clone_file_range in Hrun.
  destruct (_ || _) eqn:Eargs; [now injection Hrun as _ <-|].
  apply range_args_checked in Eargs. destruct Eargs as (_ & _ & _ & _ & Hnz).
  unfold bind in Hrun.
  destruct (clone_file_range_impl_cases src_offset dst_offset length w)
    as [(e & He & Hn)|(_ & _ & _ & _ & Hn)]; rewrite Hn in Hrun.
  - destruct (negb (e =? 0) && fallback_copy) eqn:Efb.
    + apply andb_prop in Efb. destruct Efb as [_ ->].
      apply deep_copy_spec in Hrun; [|specialize (Hnz eq_refl); lia|lia].
      destruct Hrun as [Hsrc _]. exact Hsrc.
    + now injection Hrun as _ <-.
  - cbn [negb andb Z.eqb] in Hrun. now injection Hrun as _ <-.
Qed.

(** ** Turns of the copy loop *)

(** A turn that goes back to the loop test either had its [read]
    interrupted, and then read nothing and left [remain] as it was, or
    read [n > 0] bytes, and then took [n] off [remain] when a length was
    asked for. *)
Lemma copy_body_again fuel length block_size rc remain w rc' remain' w' :
  0 < block_size -> 0 < remain ->
  copy_body fuel Src Dst length block_size rc remain w
  = Some (Again rc' remain', w') ->
  (hd Full (w_oracle w) = Fail 4%positive
   /\ remain' = remain /\ w_src w' = w_src w)
  \/ (exists n,
        0 < n /\ f_pos (w_src w') = f_pos (w_src w) + n
        /\ (length <> 0 -> remain' = remain - n /\ 0 <= remain' < remain)
        /\ (length = 0 -> remain' = remain)).
Proof.
  intros Hbs Hr Hrun.
  destruct (response_cases (hd Full (w_oracle w))) as [[e He]|Hok].
  - rewrite (copy_body_read_fail _ _ _ _ _ _ _ _ _ He) in Hrun.
    destruct (Z.eqb_spec (Z.pos e) EINTR) as [Ee|Ee]; [|discriminate].
    injection Hrun as _ <- <-. left.
    injection Ee as ->. repeat split. exact He.
  - destruct (Z.eq_dec (avail (w_src w)) 0) as [Hz|Hz].
    + rewrite (copy_body_eof _ _ _ _ _ _ _ Hok Hbs Hr Hz) in Hrun.
      destruct (length =? 0); discriminate.
    + assert (Hpos : 0 < avail (w_src w)) by (unfold avail in *; lia).
      destruct (copy_body_data fuel length block_size rc remain w
                  Hok Hbs Hr Hpos) as [Hn Hbody].
      rewrite Hbody in Hrun. clear Hbody.
      set (n := granted (hd Full (w_oracle w))
                  (Z.min (Z.max 0 (MIN block_size remain))
                         (avail (w_src w)))) in *.
      destruct (write_block fuel Dst _ _ _) as [[rc1 w2]|] eqn:Ewb;
        [|discriminate].
      apply write_block_frame in Ewb. destruct Ewb as (Hs & _ & _).
      fields. right. exists n. split; [lia|].
      destruct (negb (rc1 =? 0)); [discriminate|].
      destruct (Z.eqb_spec length 0) as [El|El]; cbn [negb] in Hrun;
        injection Hrun as _ <- <-; rewrite Hs; fields;
        (split; [reflexivity|]); split; intros; (lia || contradiction).
Qed.

(** ** Where a result that is not 0 comes from *)

Lemma oracle_after_fail (o : list response) e :
  hd Full o = Fail e -> o = Fail e :: tl o.
Proof. destruct o as [|r o]; simpl; [discriminate | now intros ->]. Qed.

Lemma oracle_consumed (o : list response) c :
  exists pre, o = pre ++ skipn c o.
Proof. exists (firstn c o). symmetry. apply firstn_skipn. Qed.

Lemma oracle_tl_consumed (o : list response) : exists pre, o = pre ++ tl o.
Proof. destruct o as [|r o]; [now exists [] | now exists [r]]. Qed.

Lemma last_call_failed_now e w w' :
  hd Full (w_oracle w) = Fail e -> w_oracle w' = tl (w_oracle w) ->
  last_call_failed e w w'.
Proof.
  intros He Ho. exists []. rewrite Ho. now apply oracle_after_fail.
Qed.

Lemma last_call_failed_later e w w1 w' :
  (exists pre, w_oracle w = pre ++ w_oracle w1) ->
  last_call_failed e w1 w' -> last_call_failed e w w'.
Proof.
  intros [pre Hpre] [pre1 H1]. exists (pre ++ pre1).
  now rewrite Hpre, H1, <- app_assoc.
Qed.


(** [write_block] returns 0 or the error number, not [EINTR], of the
    [write] it made last, that failed. *)
Lemma write_block_origin fuel :
  forall buf n w rc w',
    write_block fuel Dst buf n w = Some (rc, w') ->
    rc = 0
    \/ exists e, last_call_failed e w w' /\ rc = Z.pos e /\ rc <> EINTR.
Proof.
  induction fuel as [|fuel IH]; intros buf n w rc w' Hrun.
  - simpl in Hrun. destruct (n >? 0); [discriminate|].
    injection Hrun as <- _. now left.
  - rewrite write_block_unfold in Hrun.
    destruct (n >? 0); [|injection Hrun as <- _; now left].
    unfold bind in Hrun.
    destruct (response_cases (hd Full (w_oracle w))) as [[e He]|Hok].
    + rewrite (write_fail _ _ _ _ _ He) in Hrun.
      change (-1 <? 0) with true in Hrun. cbv beta iota in Hrun.
      unfold get_errno in Hrun; fields.
      destruct (Z.eqb_spec (Z.pos e) EINTR) as [Ee|Ee].
      * apply IH in Hrun. destruct Hrun as [->|(e' & Hl & Hrc)]; [now left|].
        right. exists e'. split; [|assumption].
        eapply last_call_failed_later; [|exact Hl]. fields.
        apply oracle_tl_consumed.
      * injection Hrun as <- <-. right. exists e.
        split; [now apply last_call_failed_now|]. now split.
    + rewrite (write_dst_ok _ _ _ Hok) in Hrun.
      set (m := granted _ _) in *.
      destruct (granted_bounds (hd Full (w_oracle w))
                  (Z.min (Z.max 0 n) (zlen buf)) Hok) as [Hm _].
      { pose proof (zlen_nonneg buf). lia. }
      fold m in Hm. destruct (Z.ltb_spec m 0); [lia|].
      apply IH in Hrun. destruct Hrun as [->|(e' & Hl & Hrc)]; [now left|].
      right. exists e'. split; [|assumption].
      eapply last_call_failed_later; [|exact Hl]. fields.
      apply oracle_tl_consumed.
Qed.

(** The copy loop returns the [rc] it started with, 0, [ERANGE] for a
    premature end of the source, or the error number, not [EINTR], of
    the [read] or [write] it made last, that failed. *)
Lemma copy_loop_origin fuel :
  forall length block_size rc0 remain w rc w',
    0 < block_size ->
    copy_loop fuel Src Dst length block_size rc0 remain w = Some (rc, w') ->
    rc = rc0 \/ rc = 0
    \/ (rc = ERANGE /\ length <> 0 /\ avail (w_src w') = 0)
    \/ exists e, last_call_failed e w w' /\ rc = Z.pos e /\ rc <> EINTR.
Proof.
  induction fuel as [|fuel IH];
    intros length block_size rc0 remain w rc w' Hbs Hrun.
  - simpl in Hrun. destruct (remain >? 0); [discriminate|].
    injection Hrun as <- _. now left.
  - rewrite copy_loop_unfold in Hrun.
    destruct (Z.gtb_spec remain 0) as [Hr|Hr];
      [|injection Hrun as <- _; now left].
    unfold bind in Hrun.
    destruct (response_cases (hd Full (w_oracle w))) as [[e He]|Hok].
    + rewrite (copy_body_read_fail _ _ _ _ _ _ _ _ _ He) in Hrun.
      destruct (Z.eqb_spec (Z.pos e) EINTR) as [Ee|Ee].
      * apply IH in Hrun; [|assumption].
        destruct Hrun as [H|[H|[H|(e' & Hl & Hrc)]]]; auto.
        right. right. right. exists e'. split; [|assumption].
        eapply last_call_failed_later; [|exact Hl]. fields.
        apply oracle_tl_consumed.
      * injection Hrun as <- <-. right. right. right. exists e.
        split; [now apply last_call_failed_now|]. now split.
    + destruct (Z.eq_dec (avail (w_src w)) 0) as [Hz|Hz].
      * rewrite (copy_body_eof _ _ _ _ _ _ _ Hok Hbs Hr Hz) in Hrun.
        destruct (Z.eqb_spec length 0); injection Hrun as <- <-;
          [now left|].
        right. right. left. now repeat split.
      * assert (Hpos : 0 < avail (w_src w)) by (unfold avail in *; lia).
        destruct (copy_body_data fuel length block_size rc0 remain w
                    Hok Hbs Hr Hpos) as [Hn Hbody].
        rewrite Hbody in Hrun. clear Hbody.
        set (w1 := mkWorld _ _ _ _ _) in Hrun.
        destruct (write_block fuel Dst _ _ w1) as [[rc1 w2]|] eqn:Ewb;
          [|discriminate].
        assert (H1 : exists pre, w_oracle w = pre ++ w_oracle w1)
          by (subst w1; fields; apply oracle_tl_consumed).
        pose proof (write_block_frame _ _ _ _ _ _ Ewb) as (_ & [c Hc] & _).
        assert (H2 : exists pre, w_oracle w = pre ++ w_oracle w2).
        { destruct H1 as [pre1 H1].
          destruct (oracle_consumed (w_oracle w1) c) as [pre2 H2].
          exists (pre1 ++ pre2). now rewrite H1, H2 at 1; rewrite Hc, app_assoc. }
        apply write_block_origin in Ewb.
        destruct (Z.eqb_spec rc1 0) as [E1|E1]; cbn [negb] in Hrun.
        -- subst rc1.
           assert (Hnext : exists remain',
                      copy_loop fuel Src Dst length block_size 0 remain' w2
                      = Some (rc, w'))
             by (destruct (negb (length =? 0)); eexists; exact Hrun).
           destruct Hnext as [remain' Hnext].
           apply IH in Hnext; [|assumption].
           destruct Hnext as [H|[H|[H|(e' & Hl & Hrc)]]]; auto.
           right. right. right. exists e'. split; [|assumption].
           eapply last_call_failed_later; [exact H2 | exact Hl].
        -- injection Hrun as <- <-.
           destruct Ewb as [?|(e' & Hl & Hrc)]; [contradiction|].
           right. right. right. exists e'. split; [|assumption].
           eapply last_call_failed_later; [exact H1 | exact Hl].
Qed.

(** The five ways [seek_file] ends. *)
Lemma seek_file_origin fd offset w rc w' :
  seek_file fd offset w = Some (rc, w') ->
  rc = 0
  \/ (exists e, last_call_failed e w w' /\ rc = Z.pos e)
  \/ (offset < 0 /\ rc = EINVAL)
  \/ (to_int offset = -1 /\ rc = w_errno w)
  \/ (to_int offset < -1 /\ rc = to_int offset).
Proof.
  intros H.
  destruct (response_cases (hd Full (w_oracle w))) as [[e He]|Hok].
  { rewrite (seek_file_after_fail fd offset w (Z.pos e) _ ltac:(lia)
               (lseek_fail _ _ _ _ He) eq_refl) in H.
    injection H as <- <-. right. left. exists e.
    split; [|reflexivity]. now apply last_call_failed_now. }
  destruct (Z.lt_ge_cases offset 0) as [Hneg|Hpos].
  { rewrite (seek_file_after_fail fd offset w EINVAL _
               ltac:(unfold EINVAL; lia) (lseek_negative _ _ _ Hok Hneg)
               eq_refl) in H.
    injection H as <- _. right. right. left. now split. }
  unfold seek_file, bind in H. rewrite (lseek_ok _ _ _ Hok Hpos) in H.
  destruct (Z.eqb_spec (to_int offset) (-1)) as [Em|Em].
  - unfold get_errno in H. injection H as <- _.
    right. right. right. left. split; [assumption|].
    unfold seeked. now destruct fd.
  - destruct (Z.gtb_spec (to_int offset) 0) as [Hg|Hg];
      unfold ret in H; injection H as <- _; [now left|].
    destruct (Z.eq_dec (to_int offset) 0) as [Hz|Hz]; [now left|].
    right. right. right. right. split; [lia | reflexivity].
Qed.

(** Where the value a deep copy returns comes from. *)
Lemma deep_copy_origin fuel src_offset dst_offset length block_size w rc w' :
  0 < block_size ->
  deep_copy_file_range_impl fuel Src Dst src_offset dst_offset length
                            block_size w = Some (rc, w') ->
  rc = 0
  \/ (rc = ERANGE /\ length <> 0 /\ avail (w_src w') = 0)
  \/ (exists e,
        last_call_failed e w w'
        /\ (rc = Z.pos e
            \/ (rc = ENOMEM
                /\ exists tr, w_trace w' = tr ++ [EvMalloc block_size])))
  \/ ((src_offset < 0 \/ dst_offset < 0) /\ rc = EINVAL)
  \/ ((to_int src_offset = -1 \/ to_int dst_offset = -1)
      /\ rc = w_errno w)
  \/ rc < -1.
Proof.
  intros Hbs Hrun. unfold deep_copy_file_range_impl, bind in Hrun.
  destruct (seek_file Src src_offset w) as [[rc1 w1]|] eqn:S1; [|discriminate].
  pose proof (seek_file_any _ _ _ _ _ S1) as (_ & _ & _ & O1).
  pose proof (seek_file_origin _ _ _ _ _ S1) as Hs1.
  destruct (Z.eqb_spec rc1 0) as [E1|E1].
  2:{ unfold ret in Hrun. destruct (Z.eqb_spec rc1 0); [lia|].
      cbn [negb] in Hrun. injection Hrun as <- <-.
      destruct Hs1 as [?|[(e & Hl & ->)|[[? ->]|[[? ->]|[? ->]]]]];
        [contradiction| | | |].
      - right. right. left. exists e. split; [assumption | now left].
      - right. right. right. left. split; [now left | reflexivity].
      - right. right. right. right. left. split; [now left | reflexivity].
      - repeat right. assumption. }
  subst rc1.
  assert (H1 : exists pre, w_oracle w = pre ++ w_oracle w1)
    by (rewrite O1; apply oracle_tl_consumed).
  assert (Herr : w_errno w1 = w_errno w).
  { apply seek_file_zero in S1. destruct S1 as [_ ->]. reflexivity. }
  destruct (seek_file Dst dst_offset w1) as [[rc2 w2]|] eqn:S2; [|discriminate].
  pose proof (seek_file_any _ _ _ _ _ S2) as (_ & _ & _ & O2).
  pose proof (seek_file_origin _ _ _ _ _ S2) as Hs2.
  assert (H2 : exists pre, w_oracle w = pre ++ w_oracle w2).
  { destruct H1 as [pre1 H1].
    destruct (oracle_tl_consumed (w_oracle w1)) as [pre2 H2].
    exists (pre1 ++ pre2). rewrite O2, <- app_assoc, <- H2. exact H1. }
  destruct (Z.eqb_spec rc2 0) as [E2|E2]; cbn [negb] in Hrun.
  2:{ injection Hrun as <- <-.
      destruct Hs2 as [?|[(e & Hl & ->)|[[? ->]|[[? ->]|[? ->]]]]];
        [contradiction| | | |].
      - right. right. left. exists e. split; [|now left].
        eapply last_call_failed_later; [exact H1 | exact Hl].
      - right. right. right. left. split; [now right | reflexivity].
      - right. right. right. right. left. split; [now right | assumption].
      - repeat right. assumption. }
  subst rc2.
  destruct (response_cases (hd Full (w_oracle w2))) as [[e He]|Hok].
  { rewrite (malloc_fail _ _ _ He) in Hrun. cbn [negb] in Hrun.
    injection Hrun as <- <-. right. right. left. exists e. split.
    - eapply last_call_failed_later; [exact H2|].
      now apply last_call_failed_now.
    - right. split; [reflexivity|]. exists (w_trace w2).
      unfold failed. fields. now rewrite Z.mul_1_r. }
  rewrite (malloc_ok _ _ Hok) in Hrun. cbn [negb] in Hrun.
  set (w3 := failed (EvMalloc (block_size * 1)) (w_errno w2) w2) in *.
  destruct (copy_loop fuel Src Dst length block_size 0 _ w3)
    as [[rc3 w4]|] eqn:L; [|discriminate].
  unfold free in Hrun. injection Hrun as <- <-.
  apply copy_loop_origin in L; [|assumption].
  destruct L as [H|[H|[H|(e & Hl & Hrc & _)]]]; auto.
  right. right. left. exists e. split; [|now left].
  assert (H3 : exists pre, w_oracle w = pre ++ w_oracle w3).
  { destruct H2 as [pre2 H2].
    destruct (oracle_tl_consumed (w_oracle w2)) as [pre3 H3].
    exists (pre2 ++ pre3). subst w3. unfold failed. fields.
    rewrite <- app_assoc, <- H3. exact H2. }
  destruct Hl as [pre Hl]. destruct H3 as [pre3 H3].
  exists (pre3 ++ pre). unfold log. fields.
  now rewrite H3, Hl, <- app_assoc.
Qed.

(** * The claims *)

(** C1, as amended.  With the fallback enabled, when the native whole-file
    clone attempt fails, [qtm_clone_file] returns what the deep copy of
    the span (0, 0, length 0) returns; when that is 0, the source is what
    it was, as many bytes were written as the source holds, and the
    destination holds the bytes of the source followed by the bytes it
    already had past the size of the source.  So the destination is equal
    to the source, byte for byte, when it did not hold more bytes than the
    source before the call (a new or truncated file); the size of the
    source need not be a multiple of the block size. *)
Theorem whole_file_fallback_copy fuel src_fd dst_fd fallback_copy_block_size
    w e w1 w' :
  0 <= fallback_copy_block_size ->
  clone_file_impl Src Dst w = Some (e, w1) -> e <> 0 ->
  qtm_clone_file fuel src_fd dst_fd true fallback_copy_block_size w
  = Some (0, w') ->
  let src := f_data (w_src w) in
  let dst := f_data (w_dst w) in
  deep_copy_file_range_impl fuel Src Dst 0 0 0 fallback_copy_block_size w1
  = Some (0, w')
  /\ f_data (w_src w') = src
  /\ f_data (w_dst w') = src ++ skipn (List.length src) dst
  /\ ((List.length dst <= List.length src)%nat -> f_data (w_dst w') = src)
  /\ bytes_written (w_trace w') = bytes_written (w_trace w) + zlen src.
Proof.
  intros Hbs Hn He Hrun src dst.
  assert (Hargs : 0 <= src_fd /\ 0 <= dst_fd
                  /\ (true = true -> fallback_copy_block_size <> 0)).
  { apply args_checked. unfold qtm_clone_file in Hrun.
    destruct (_ || _); [discriminate | reflexivity]. }
  destruct Hargs as (Hs & Hd & Hnz). specialize (Hnz eq_refl).
  rewrite qtm_clone_file_valid in Hrun by (assumption || easy).
  unfold bind in Hrun. rewrite Hn in Hrun.
  assert (Hez : (e =? 0) = false) by (now apply Z.eqb_neq).
  rewrite Hez in Hrun. cbn [negb andb] in Hrun.
  split; [exact Hrun|].
  destruct (clone_file_impl_failed _ _ _ Hn He) as [_ ->].
  apply deep_copy_spec in Hrun; [|lia|lia].
  destruct Hrun as [Hsrc Hok]. destruct (Hok eq_refl) as (_ & _ & Hcp).
  unfold failed in Hsrc, Hcp. fields.
  fold src in Hsrc, Hcp. fold dst in Hcp.
  assert (Hspan : span src 0 0 = zlen src).
  { unfold span. simpl. pose proof (zlen_nonneg src). lia. }
  rewrite Hspan in Hcp. destruct Hcp as [_ _ Hd' _ _ Hw].
  rewrite sub_all, pwrite_zero in Hd'.
  split; [exact Hsrc|]. split; [exact Hd'|]. split.
  - intros Hle. rewrite Hd', skipn_all2 by exact Hle. apply app_nil_r.
  - rewrite Hw, bytes_written_app. simpl. lia.
Qed.

Lemma whole_file_fallback_copy_witness :
  let w := start (pattern 10) [] [Fail 95%positive] in
  exists w',
    qtm_clone_file 9 3 4 true 4 w = Some (0, w')
    /\ f_data (w_dst w') = pattern 10.
Proof.
  intros w. eexists. split.
  - vm_compute. reflexivity.
  - refine (proj1 (proj2 (proj2 (proj2
      (whole_file_fallback_copy 9 3 4 4 w 95 (failed EvFiclone 95 w) _
         _ _ _ _)))) _).
    + lia.
    + reflexivity.
    + discriminate.
    + vm_compute. reflexivity.
    + simpl. lia.
Defined.

(** C1 as it is stated fails: nothing truncates the destination, so a
    destination that holds more bytes than the source keeps those past the
    size of the source, and differs from the source after a copy that
    returned 0. *)
Lemma longer_destination_keeps_its_tail :
  let w := start ["001"%byte] ["009"%byte; "009"%byte; "009"%byte]
                 [Fail 95%positive] in
  exists w',
    qtm_clone_file 9 3 4 true 8192 w = Some (0, w')
    /\ f_data (w_src w') = ["001"%byte]
    /\ f_data (w_dst w') = ["001"%byte; "009"%byte; "009"%byte]
    /\ f_data (w_dst w') <> f_data (w_src w').
Proof.
  intros w. eexists. split; [vm_compute; reflexivity|].
  repeat split. discriminate.
Qed.

(** The scenario of the 10,000 bytes: the clone [ioctl] is not supported,
    the block size is 8192; the destination, created empty, ends with the
    10,000 bytes of the source, read as 8192 then 1808 bytes, the third
    [read] finding the end of the source. *)
Lemma ten_thousand_bytes :
  let w := start (pattern (Z.to_nat 10000)) [] [Fail 95%positive] in
  exists w',
    qtm_clone_file 9 3 4 true 8192 w = Some (0, w')
    /\ f_data (w_dst w') = pattern (Z.to_nat 10000)
    /\ reads_of (w_trace w') = [8192; 1808; 0]
    /\ bytes_written (w_trace w') = 10000.
Proof.
  intros w. eexists. split; [vm_compute; reflexivity|].
  split; [vm_compute; reflexivity|].
  split; vm_compute; reflexivity.
Qed.

(** C2.  A range clone of [length > 0] bytes that lie within the source
    and that returns 0 leaves in the destination, at
    [dst_offset, dst_offset + length), the [length] bytes the source
    holds at [src_offset, src_offset + length); when the bytes went
    through the deep copy, exactly [length] bytes were written. *)
Theorem range_clone_copies_length fuel src_fd dst_fd src_offset dst_offset
    length fallback_copy fallback_copy_block_size w w' :
  0 < length ->
  src_offset + length <= zlen (f_data (w_src w)) ->
  0 <= fallback_copy_block_size ->
  qtm_clone_file_range fuel src_fd dst_fd src_offset dst_offset length
                       fallback_copy fallback_copy_block_size w
  = Some (0, w') ->
  sub (f_data (w_dst w')) dst_offset length
  = sub (f_data (w_src w)) src_offset length
  /\ zlen (sub (f_data (w_src w)) src_offset length) = length
  /\ f_data (w_src w') = f_data (w_src w)
  /\ (w' = cloned (EvFiclonerange src_offset dst_offset length)
                  src_offset dst_offset length w
      \/ bytes_written (w_trace w') = bytes_written (w_trace w) + length).
Proof.
  intros Hlen Hin Hbs Hrun.
  apply qtm_clone_file_range_success in Hrun; [|lia|assumption].
  destruct Hrun as (Hso & Hdo & Hrun).
  assert (Hz : zlen (sub (f_data (w_src w)) src_offset length) = length)
    by (rewrite zlen_sub by lia; lia).
  assert (Hd : f_data (w_dst w')
               = pwrite (f_data (w_dst w)) dst_offset
                        (sub (f_data (w_src w)) src_offset length)
               /\ f_data (w_src w') = f_data (w_src w)
               /\ (w' = cloned (EvFiclonerange src_offset dst_offset length)
                               src_offset dst_offset length w
                   \/ bytes_written (w_trace w')
                      = bytes_written (w_trace w) + length)).
  { destruct Hrun as [[_ ->]|(_ & e & _ & Hcp)].
    - unfold cloned at 1 2. fields.
      destruct (Z.eqb_spec length 0); [lia|]. repeat split. now left.
    - destruct Hcp as [C1 _ C3 _ _ C6]. unfold span in C3, C6.
      destruct (Z.eqb_spec length 0); [lia|]. repeat split; auto. }
  destruct Hd as (Hd & Hs & Hw). split; [|now repeat split].
  rewrite Hd. rewrite <- Hz at 2. now apply sub_pwrite.
Qed.

Lemma range_clone_copies_length_witness :
  let w := start (pattern 10) (pattern 3) [Fail 95%positive; Full; Full; Full;
                                           Short 2] in
  exists w',
    qtm_clone_file_range 9 3 4 2 1 5 true 4 w = Some (0, w')
    /\ sub (f_data (w_dst w')) 1 5 = sub (pattern 10) 2 5.
Proof.
  intros w. eexists. split.
  - vm_compute. reflexivity.
  - refine (proj1 (range_clone_copies_length 9 3 4 2 1 5 true 4 w _ _ _ _ _)).
    + lia.
    + vm_compute. discriminate.
    + lia.
    + vm_compute. reflexivity.
Defined.

(** C3.  A deep copy of [length > 0] bytes from [src_offset] in a source
    that ends before [src_offset + length] never returns 0, whatever the
    calls do; it returns [ERANGE] when no call fails (offsets below 2^31);
    and the turn of the loop whose [read] returns 0 bytes while bytes are
    still to be copied leaves the loop with [ERANGE], which is neither 0
    nor the code for a validation or allocation failure. *)
Theorem premature_end_of_source fuel src_offset dst_offset length block_size
    w :
  0 < length -> 0 < block_size ->
  zlen (f_data (w_src w)) < src_offset + length ->
  (forall rc w',
      deep_copy_file_range_impl fuel Src Dst src_offset dst_offset length
                                block_size w = Some (rc, w') ->
      rc <> 0)
  /\ (answers_ok (w_oracle w) ->
      0 <= src_offset < 2 ^ 31 -> 0 <= dst_offset < 2 ^ 31 ->
      exists w',
        deep_copy_file_range_impl (enough w) Src Dst src_offset dst_offset
                                  length block_size w = Some (ERANGE, w'))
  /\ (forall rc remain w1 p w2,
        0 < remain ->
        read Src (MIN block_size remain) w1 = Some ((0, p), w2) ->
        copy_body fuel Src Dst length block_size rc remain w1
        = Some (Leave ERANGE, w2)
        /\ copy_loop (S fuel) Src Dst length block_size rc remain w1
           = Some (ERANGE, w2))
  /\ ERANGE <> 0 /\ ERANGE <> EINVAL /\ ERANGE <> ENOMEM /\ ERANGE <> EINTR.
Proof.
  intros Hlen Hbs Hshort.
  assert (Hnever : forall fuel' rc w',
             deep_copy_file_range_impl fuel' Src Dst src_offset dst_offset
                                       length block_size w = Some (rc, w') ->
             rc <> 0).
  { intros fuel' rc w' Hrun ->.
    apply deep_copy_spec in Hrun; [|assumption|lia].
    destruct Hrun as [_ Hok]. destruct (Hok eq_refl) as (Hso & _ & Hcp).
    destruct Hcp as [_ _ _ _ [_ Hc] _]. unfold span in Hc.
    destruct (Z.eqb_spec length 0); [lia|].
    rewrite zlen_sub in Hc by lia. lia. }
  split; [apply Hnever|]. split; [|split].
  - intros Hok Hso Hdo.
    destruct (deep_copy_terminates src_offset dst_offset length block_size w
                Hbs) as (rc & w' & Hrun).
    exists w'. rewrite Hrun. do 2 f_equal.
    destruct (deep_copy_ok _ _ _ _ _ _ _ _ Hbs Hok Hso Hdo Hrun) as [E|[E _]];
      [|assumption].
    now destruct (Hnever _ _ _ Hrun).
  - intros rc remain w1 p w2 Hr Hread.
    assert (Hbody : copy_body fuel Src Dst length block_size rc remain w1
                    = Some (Leave ERANGE, w2)).
    { assert (Hr0 : remain <> 0) by lia.
      rewrite (copy_body_zero_read _ _ _ _ _ _ _ _ _ _ Hr0 Hread).
      destruct (Z.eqb_spec length 0); [lia | reflexivity]. }
    split; [exact Hbody|]. simpl.
    destruct (Z.gtb_spec remain 0); [|lia].
    unfold bind. now rewrite Hbody.
  - repeat split; discriminate.
Qed.

Lemma premature_end_of_source_witness :
  let w := start (pattern 120) [] [] in
  exists w',
    deep_copy_file_range_impl (enough w) Src Dst 100 0 50 8192 w
    = Some (ERANGE, w').
Proof.
  intros w.
  refine (proj1 (proj2
    (premature_end_of_source 9 100 0 50 8192 w _ _ _)) _ _ _).
  - lia.
  - lia.
  - vm_compute. reflexivity.
  - intros e H. exact H.
  - lia.
  - lia.
Defined.

(** C4, as amended.  A deep copy with length 0 that returns 0 has copied
    the source from [src_offset] to its end: the destination holds at
    [dst_offset] the bytes of the source from [src_offset] on, and the
    number of bytes written is [source_size - src_offset] when
    [src_offset] is within the source, and 0 when it lies past its end.
    In this mode the turn of the loop whose [read] returns 0 bytes leaves
    the loop with the value [rc] has, which is 0; and the copy does return
    0 when no call fails (offsets below 2^31). *)
Theorem copy_to_end_of_source fuel src_offset dst_offset block_size w :
  0 < block_size ->
  let src := f_data (w_src w) in
  (forall w',
      deep_copy_file_range_impl fuel Src Dst src_offset dst_offset 0
                                block_size w = Some (0, w') ->
      bytes_written (w_trace w') - bytes_written (w_trace w)
      = Z.max 0 (zlen src - src_offset)
      /\ (src_offset <= zlen src ->
          bytes_written (w_trace w') - bytes_written (w_trace w)
          = zlen src - src_offset)
      /\ f_data (w_dst w')
         = pwrite (f_data (w_dst w)) dst_offset
                  (skipn (Z.to_nat src_offset) src)
      /\ f_data (w_src w') = src)
  /\ (forall rc remain w1 p w2,
        0 < remain ->
        read Src (MIN block_size remain) w1 = Some ((0, p), w2) ->
        copy_body fuel Src Dst 0 block_size rc remain w1
        = Some (Leave rc, w2)
        /\ copy_loop (S fuel) Src Dst 0 block_size rc remain w1
           = Some (rc, w2))
  /\ (answers_ok (w_oracle w) ->
      0 <= src_offset < 2 ^ 31 -> 0 <= dst_offset < 2 ^ 31 ->
      exists w',
        deep_copy_file_range_impl (enough w) Src Dst src_offset dst_offset 0
                                  block_size w = Some (0, w')).
Proof.
  intros Hbs src. split; [|split].
  - intros w' Hrun.
    apply deep_copy_spec in Hrun; [|assumption|lia].
    destruct Hrun as [Hsrc Hok]. destruct (Hok eq_refl) as (Hso & Hdo & Hcp).
    fold src in Hcp, Hsrc. unfold span in Hcp. simpl Z.eqb in Hcp.
    cbv iota in Hcp.
    destruct Hcp as [_ _ Hd _ _ Hw].
    rewrite sub_to_end in Hd by assumption.
    split; [lia|]. split; [lia|]. split; [exact Hd | exact Hsrc].
  - intros rc remain w1 p w2 Hr Hread.
    assert (Hr0 : remain <> 0) by lia.
    pose proof (copy_body_zero_read fuel Src Dst 0 block_size rc remain w1 p w2
                  Hr0 Hread) as Hbody.
    simpl Z.eqb in Hbody. cbv iota in Hbody.
    split; [exact Hbody|]. rewrite copy_loop_unfold.
    destruct (Z.gtb_spec remain 0); [|lia].
    unfold bind. now rewrite Hbody.
  - intros Hok Hso Hdo.
    destruct (deep_copy_terminates src_offset dst_offset 0 block_size w Hbs)
      as (rc & w' & Hrun).
    exists w'. rewrite Hrun. do 2 f_equal.
    destruct (deep_copy_ok _ _ _ _ _ _ _ _ Hbs Hok Hso Hdo Hrun)
      as [E|[_ E]]; [assumption | contradiction].
Qed.

Lemma copy_to_end_of_source_witness :
  let w := start (pattern 10) (pattern 3) [Short 3] in
  exists w',
    deep_copy_file_range_impl 9 Src Dst 4 1 0 4 w = Some (0, w')
    /\ bytes_written (w_trace w') - bytes_written (w_trace w) = 10 - 4.
Proof.
  intros w. eexists. split.
  - vm_compute. reflexivity.
  - refine (proj1 (proj2
      (proj1 (copy_to_end_of_source 9 4 1 4 w _) _ _)) _).
    + lia.
    + vm_compute. reflexivity.
    + vm_compute. discriminate.
Defined.

(** C4 as it is stated fails: [lseek] accepts an offset past the end of the
    source, the first [read] returns 0, and the copy returns 0 having
    copied nothing, although [source_size - src_offset] is -4. *)
Lemma offset_past_the_end_copies_nothing :
  let w := start ["001"%byte] [] [] in
  exists w',
    deep_copy_file_range_impl (enough w) Src Dst 5 0 0 4 w = Some (0, w')
    /\ bytes_written (w_trace w') - bytes_written (w_trace w) = 0
    /\ zlen (f_data (w_src w)) - 5 = -4
    /\ w_trace w' = [EvLseek Src 5; EvLseek Dst 0; EvMalloc 4;
                     EvRead Src 4 []; EvFree].
Proof.
  intros w. eexists. split; [vm_compute; reflexivity|].
  repeat split.
Qed.

(** C5, as amended.  When the native clone attempt fails, with the code
    [e]: with the fallback disabled both functions return [e], and the
    world they leave is the one the failed [ioctl] left (the files as they
    were, nothing but the [ioctl] in the trace, no byte written); with the
    fallback enabled the value they return is the one the deep copy
    returns, run in that world with the same span.  When that value is
    the number [e] again, the deep copy itself failed with it: the last
    call it made failed, with the error number [e] or, for [ENOMEM], at
    the allocation of the block; or [e] is [ERANGE], a [length] was given
    and the source is at its end.  For the range clone this holds for
    offsets that are not -1 as a 32-bit [int]. *)
Theorem fallback_decides_the_result fuel src_fd dst_fd src_offset dst_offset
    length fallback_copy_block_size w :
  0 <= src_fd -> 0 <= dst_fd ->
  (forall e w1,
      clone_file_impl Src Dst w = Some (e, w1) -> e <> 0 ->
      qtm_clone_file fuel src_fd dst_fd false fallback_copy_block_size w
      = Some (e, w1)
      /\ (fallback_copy_block_size <> 0 ->
          qtm_clone_file fuel src_fd dst_fd true fallback_copy_block_size w
          = deep_copy_file_range_impl fuel Src Dst 0 0 0
                                      fallback_copy_block_size w1)
      /\ w_trace w1 = w_trace w ++ [EvFiclone]
      /\ bytes_written (w_trace w1) = bytes_written (w_trace w)
      /\ w_src w1 = w_src w /\ w_dst w1 = w_dst w)
  /\ (forall e w1,
        0 <= src_offset -> 0 <= dst_offset ->
        clone_file_range_impl Src Dst src_offset dst_offset length w
        = Some (e, w1) -> e <> 0 ->
        qtm_clone_file_range fuel src_fd dst_fd src_offset dst_offset length
                             false fallback_copy_block_size w
        = Some (e, w1)
        /\ (fallback_copy_block_size <> 0 ->
            qtm_clone_file_range fuel src_fd dst_fd src_offset dst_offset
                                 length true fallback_copy_block_size w
            = deep_copy_file_range_impl fuel Src Dst src_offset dst_offset
                                        length fallback_copy_block_size w1)
        /\ w_trace w1
           = w_trace w ++ [EvFiclonerange src_offset dst_offset length]
        /\ bytes_written (w_trace w1) = bytes_written (w_trace w)
        /\ w_src w1 = w_src w /\ w_dst w1 = w_dst w)
  /\ (forall e w1 w',
        0 < fallback_copy_block_size ->
        clone_file_impl Src Dst w = Some (e, w1) -> e <> 0 ->
        qtm_clone_file fuel src_fd dst_fd true fallback_copy_block_size w
        = Some (e, w') ->
        exists e',
          last_call_failed e' w1 w'
          /\ (e = Z.pos e'
              \/ (e = ENOMEM
                  /\ exists tr,
                       w_trace w' = tr ++ [EvMalloc fallback_copy_block_size])))
  /\ (forall e w1 w',
        0 < fallback_copy_block_size ->
        0 <= src_offset -> 0 <= dst_offset ->
        to_int src_offset <> -1 -> to_int dst_offset <> -1 ->
        clone_file_range_impl Src Dst src_offset dst_offset length w
        = Some (e, w1) -> e <> 0 ->
        qtm_clone_file_range fuel src_fd dst_fd src_offset dst_offset length
                             true fallback_copy_block_size w
        = Some (e, w') ->
        (exists e',
            last_call_failed e' w1 w'
            /\ (e = Z.pos e'
                \/ (e = ENOMEM
                    /\ exists tr,
                         w_trace w'
                         = tr ++ [EvMalloc fallback_copy_block_size])))
        \/ (e = ERANGE /\ length <> 0 /\ avail (w_src w') = 0)).
Proof.
  intros Hs Hd. split; [|split; [|split]].
  - intros e w1 Hn He.
    assert (Hnz : (e =? 0) = false) by (now apply Z.eqb_neq).
    split; [|split].
    + rewrite qtm_clone_file_valid by (assumption || discriminate).
      unfold bind. rewrite Hn, Hnz. reflexivity.
    + intros Hb. rewrite qtm_clone_file_valid by (assumption || easy).
      unfold bind. rewrite Hn, Hnz. reflexivity.
    + destruct (clone_file_impl_failed _ _ _ Hn He) as [_ ->].
      unfold failed. fields. rewrite bytes_written_app. simpl.
      repeat split. lia.
  - intros e w1 Hso Hdo Hn He.
    assert (Hnz : (e =? 0) = false) by (now apply Z.eqb_neq).
    split; [|split].
    + rewrite qtm_clone_file_range_valid by (assumption || discriminate).
      unfold bind. rewrite Hn, Hnz. reflexivity.
    + intros Hb. rewrite qtm_clone_file_range_valid by (assumption || easy).
      unfold bind. rewrite Hn, Hnz. reflexivity.
    + destruct (clone_file_range_impl_failed _ _ _ _ _ _ Hn He) as [_ ->].
      unfold failed. fields. rewrite bytes_written_app. simpl.
      repeat split. lia.
  - intros e w1 w' Hbs Hn He Hrun.
    assert (Hnz : (e =? 0) = false) by (now apply Z.eqb_neq).
    destruct (clone_file_impl_failed _ _ _ Hn He) as [Hpos Hw1].
    rewrite qtm_clone_file_valid in Hrun by (assumption || lia).
    unfold bind in Hrun. rewrite Hn, Hnz in Hrun. cbn [negb andb] in Hrun.
    apply deep_copy_origin in Hrun; [|assumption].
    destruct Hrun as [H|[[_ H]|[H|[[H _]|[[H _]|H]]]]];
      try lia; try (now contradiction H);
      try (change (to_int 0) with 0 in H; lia).
    exact H.
  - intros e w1 w' Hbs Hso Hdo Hsi Hdi Hn He Hrun.
    assert (Hnz : (e =? 0) = false) by (now apply Z.eqb_neq).
    destruct (clone_file_range_impl_failed _ _ _ _ _ _ Hn He) as [Hpos Hw1].
    rewrite qtm_clone_file_range_valid in Hrun by (assumption || lia).
    unfold bind in Hrun. rewrite Hn, Hnz in Hrun. cbn [negb andb] in Hrun.
    apply deep_copy_origin in Hrun; [|assumption].
    destruct Hrun as [H|[H|[H|[[H _]|[[H _]|H]]]]];
      [lia | right; exact H | left; exact H | lia | lia | lia].
Qed.

Lemma fallback_decides_the_result_witness :
  let w := start (pattern 8) []
                 [Fail 9%positive; Full; Full; Full; Full; Fail 9%positive] in
  exists w',
    qtm_clone_file 9 3 4 true 4096 w = Some (9, w')
    /\ last_call_failed 9 (failed EvFiclone 9 w) w'.
Proof.
  intros w.
  assert (Hrun : { w' | qtm_clone_file 9 3 4 true 4096 w = Some (9, w') })
    by (eexists; vm_compute; reflexivity).
  destruct Hrun as [w' Hrun]. exists w'. split; [exact Hrun|].
  destruct (proj1 (proj2 (proj2
              (fallback_decides_the_result 9 3 4 0 0 0 4096 w
                 ltac:(lia) ltac:(lia))))
              9 (failed EvFiclone 9 w) w' ltac:(lia) eq_refl
              ltac:(discriminate) Hrun) as (e' & Hl & [He|[He _]]).
  - injection He as <-. exact Hl.
  - discriminate He.
Defined.

(** C5 as it is stated fails: the descriptor [dst_fd] is not open for
    writing, the clone [ioctl] fails with [EBADF] (9), the fallback runs,
    reads the source, and its [write] fails with [EBADF]: the caller gets
    the number the native attempt failed with. *)
Lemma native_code_returned_after_fallback :
  let w := start (pattern 8) []
                 [Fail 9%positive; Full; Full; Full; Full; Fail 9%positive] in
  exists w1 w',
    clone_file_impl Src Dst w = Some (9, w1)
    /\ qtm_clone_file 9 3 4 true 4096 w = Some (9, w')
    /\ w_trace w' = [EvFiclone; EvLseek Src 0; EvLseek Dst 0; EvMalloc 4096;
                     EvRead Src 4096 (pattern 8); EvWrite Dst []; EvFree].
Proof.
  intros w. eexists. eexists.
  split; [vm_compute; reflexivity|].
  split; vm_compute; reflexivity.
Qed.

(** The conversion to [int] in [seek_file] lets the error number of the
    failed [ioctl] through: the seek of the source to 2^32 - 1 succeeds,
    [lseek] returns 2^32 - 1, that is -1 as an [int], and [seek_file]
    returns errno, which the [ioctl] set. *)
Lemma stale_errno_returned_by_seek_file :
  let w := start (pattern 8) [] [Fail 18%positive] in
  exists w',
    qtm_clone_file_range 9 3 4 (2 ^ 32 - 1) 0 1 true 4096 w = Some (18, w')
    /\ w_trace w' = [EvFiclonerange (2 ^ 32 - 1) 0 1; EvLseek Src (2 ^ 32 - 1)]
    /\ f_pos (w_src w') = 2 ^ 32 - 1.
Proof.
  intros w. eexists. split; [vm_compute; reflexivity|]. split; reflexivity.
Qed.

(** C6.  A call with a negative source or destination descriptor, with a
    negative source or destination offset (range clone), or with the
    fallback enabled and a block size of zero returns the validation
    failure [EINVAL] at once: the world it returns is the world it was
    given, so no clone was attempted, no seek, read, write or allocation
    made, and no answer of the kernel consumed. *)
Theorem validation_precedes_io fuel src_fd dst_fd src_offset dst_offset length
    fallback_copy fallback_copy_block_size w :
  (src_fd < 0 \/ dst_fd < 0
   \/ (fallback_copy = true /\ fallback_copy_block_size = 0) ->
   qtm_clone_file fuel src_fd dst_fd fallback_copy fallback_copy_block_size w
   = Some (EINVAL, w))
  /\ (src_fd < 0 \/ dst_fd < 0 \/ src_offset < 0 \/ dst_offset < 0
      \/ (fallback_copy = true /\ fallback_copy_block_size = 0) ->
      qtm_clone_file_range fuel src_fd dst_fd src_offset dst_offset length
                           fallback_copy fallback_copy_block_size w
      = Some (EINVAL, w))
  /\ EINVAL <> 0.
Proof.
  split; [|split].
  - apply qtm_clone_file_invalid.
  - apply qtm_clone_file_range_invalid.
  - discriminate.
Qed.

Lemma validation_precedes_io_witness :
  let w := start (pattern 8) [] [Fail 95%positive] in
  qtm_clone_file 9 3 4 true 0 w = Some (EINVAL, w)
  /\ qtm_clone_file_range 9 3 4 0 (-1) 5 false 4096 w = Some (EINVAL, w).
Proof.
  intros w.
  destruct (validation_precedes_io 9 3 4 0 0 0 true 0 w) as (Hf & _ & _).
  destruct (validation_precedes_io 9 3 4 0 (-1) 5 false 4096 w) as (_ & Hr & _).
  split.
  - apply Hf. right. right. split; reflexivity.
  - apply Hr. right. right. right. left. lia.
Defined.

(** The calls of a deep copy before the loop, by what [seek_file]
    returns: the copy first calls [seek_file] on the source with
    [src_offset] and, when that returns 0, on the destination with
    [dst_offset].  When one of the two does not return 0, the copy returns
    the value it returned, having made no call but the seeks: no block was
    allocated, no byte read or written.  The value [seek_file] returns
    when [lseek] fails is the error number of that failure.  When the
    allocation of the block fails, the copy returns [ENOMEM], having made
    the two seeks and the allocation only. *)
Theorem seeks_then_allocation fuel src_offset dst_offset length block_size w :
  (forall rc w',
      deep_copy_file_range_impl fuel Src Dst src_offset dst_offset length
                                block_size w = Some (rc, w') ->
      exists rest,
        w_trace w' = w_trace w ++ EvLseek Src src_offset :: rest
        /\ (forall w1, seek_file Src src_offset w = Some (0, w1) ->
                       exists rest', rest = EvLseek Dst dst_offset :: rest'))
  /\ (forall rc1 w1,
        seek_file Src src_offset w = Some (rc1, w1) -> rc1 <> 0 ->
        deep_copy_file_range_impl fuel Src Dst src_offset dst_offset length
                                  block_size w = Some (rc1, w1)
        /\ w_trace w1 = w_trace w ++ [EvLseek Src src_offset]
        /\ f_data (w_src w1) = f_data (w_src w)
        /\ f_data (w_dst w1) = f_data (w_dst w))
  /\ (forall w1 rc2 w2,
        seek_file Src src_offset w = Some (0, w1) ->
        seek_file Dst dst_offset w1 = Some (rc2, w2) -> rc2 <> 0 ->
        deep_copy_file_range_impl fuel Src Dst src_offset dst_offset length
                                  block_size w = Some (rc2, w2)
        /\ w_trace w2
           = w_trace w ++ [EvLseek Src src_offset; EvLseek Dst dst_offset]
        /\ f_data (w_src w2) = f_data (w_src w)
        /\ f_data (w_dst w2) = f_data (w_dst w))
  /\ (forall fd offset w0 w1,
        lseek fd offset w0 = Some (-1, w1) ->
        seek_file fd offset w0 = Some (w_errno w1, w1) /\ 0 < w_errno w1)
  /\ (forall w1 w2 e,
        seek_file Src src_offset w = Some (0, w1) ->
        seek_file Dst dst_offset w1 = Some (0, w2) ->
        hd Full (w_oracle w2) = Fail e ->
        exists w3,
          deep_copy_file_range_impl fuel Src Dst src_offset dst_offset length
                                    block_size w = Some (ENOMEM, w3)
          /\ w_trace w3
             = w_trace w ++ [EvLseek Src src_offset; EvLseek Dst dst_offset;
                             EvMalloc block_size]
          /\ f_data (w_src w3) = f_data (w_src w)
          /\ f_data (w_dst w3) = f_data (w_dst w)).
Proof.
  split; [|split; [|split; [|split]]].
  - intros rc w' Hrun. unfold deep_copy_file_range_impl, bind in Hrun.
    destruct (seek_file Src src_offset w) as [[rc1 w1]|] eqn:S1;
      [|discriminate].
    pose proof (seek_file_any _ _ _ _ _ S1) as (T1 & _).
    destruct (Z.eqb_spec rc1 0) as [E1|E1].
    2:{ unfold ret in Hrun. destruct (Z.eqb_spec rc1 0); [lia|].
        cbn [negb] in Hrun. injection Hrun as _ <-.
        exists []. split; [exact T1|]. intros w0 Hw0. congruence. }
    destruct (seek_file Dst dst_offset w1) as [[rc2 w2]|] eqn:S2;
      [|discriminate].
    pose proof (seek_file_any _ _ _ _ _ S2) as (T2 & _).
    assert (Hrest : exists evs, w_trace w' = w_trace w2 ++ evs).
    { destruct (negb (rc2 =? 0)).
      - injection Hrun as _ <-. exists []. now rewrite app_nil_r.
      - destruct (malloc _ w2) as [[p w3]|] eqn:Em; [|discriminate].
        assert (T3 : exists ev, w_trace w3 = w_trace w2 ++ [ev]).
        { unfold malloc, pop_oracle, log in Em. fields.
          destruct (hd Full (w_oracle w2)); injection Em as _ <-;
            eexists; reflexivity. }
        destruct T3 as [ev T3].
        destruct (negb p).
        + injection Hrun as _ <-. now exists [ev].
        + destruct (copy_loop fuel Src Dst _ _ _ _ w3) as [[rc3 w4]|] eqn:L;
            [|discriminate].
          apply copy_loop_trace in L. destruct L as [evs L].
          unfold free in Hrun. injection Hrun as _ <-.
          exists (ev :: evs ++ [EvFree]). unfold log. fields.
          rewrite L, T3, <- !app_assoc. reflexivity. }
    destruct Hrest as [evs Hrest].
    exists (EvLseek Dst dst_offset :: evs).
    split; [|intros; eexists; reflexivity].
    rewrite Hrest, T2, T1, <- !app_assoc. reflexivity.
  - intros rc1 w1 S1 Hrc.
    pose proof (seek_file_any _ _ _ _ _ S1) as (T1 & D1 & D1' & _).
    split; [|now repeat split].
    unfold deep_copy_file_range_impl, bind. rewrite S1.
    assert (Hnz : (rc1 =? 0) = false) by (now apply Z.eqb_neq).
    rewrite Hnz. unfold ret. cbv beta iota. rewrite Hnz. reflexivity.
  - intros w1 rc2 w2 S1 S2 Hrc.
    pose proof (seek_file_any _ _ _ _ _ S1) as (T1 & D1 & D1' & _).
    pose proof (seek_file_any _ _ _ _ _ S2) as (T2 & D2 & D2' & _).
    split; [|repeat split; try congruence].
    + unfold deep_copy_file_range_impl, bind. rewrite S1.
      change (0 =? 0) with true. cbv iota. rewrite S2.
      assert (Hnz : (rc2 =? 0) = false) by (now apply Z.eqb_neq).
      rewrite Hnz. reflexivity.
    + rewrite T2, T1, <- app_assoc. reflexivity.
  - intros fd offset w0 w1. apply seek_file_lseek_failed.
  - intros w1 w2 e S1 S2 He.
    apply seek_file_zero in S1 as S1'. destruct S1' as [Hso ->].
    apply seek_file_zero in S2 as S2'. destruct S2' as [Hdo ->].
    eexists. split.
    + unfold deep_copy_file_range_impl, bind. rewrite S1.
      change (0 =? 0) with true. cbv iota. rewrite S2.
      change (negb (0 =? 0)) with false. cbv beta iota.
      rewrite (malloc_fail _ _ _ He). reflexivity.
    + unfold failed, seeked. fields. rewrite Z.mul_1_r, <- !app_assoc.
      repeat split.
Qed.

Lemma seeks_then_allocation_witness :
  let w := start (pattern 8) [] [Full; Fail 13%positive] in
  let w2 := failed (EvLseek Dst 3) 13 (seeked Src 2 w) in
  deep_copy_file_range_impl 9 Src Dst 2 3 0 4 w = Some (13, w2)
  /\ w_trace w2 = [EvLseek Src 2; EvLseek Dst 3].
Proof.
  intros w w2.
  destruct (proj1 (proj2 (proj2 (seeks_then_allocation 9 2 3 0 4 w)))
              (seeked Src 2 w) 13 w2 eq_refl eq_refl ltac:(discriminate))
    as (H1 & H2 & _).
  split; [exact H1 | exact H2].
Defined.

(** The conversion to [int] in [seek_file]: after a seek of the source to
    2^31, that succeeds, [seek_file] does not return 0. *)
Lemma seek_file_truncates_offset :
  let w := start (pattern 8) [] [] in
  seek_file Src (2 ^ 31) w = Some (- 2 ^ 31, seeked Src (2 ^ 31) w).
Proof. reflexivity. Qed.

(** C7 fails on the code, by a slip of [seek_file], whose comment says
    "Zero on success, some errno value on failure": it keeps the [off_t]
    that [lseek] returns in an [int].  A range clone from the offset 2^31
    to the end of the source, on a file system that does not clone
    ([EOPNOTSUPP], 95), falls back to the deep copy.  No call of the deep
    copy fails: the [lseek] of the source succeeds, returns 2^31 and moves
    the descriptor.  As an [int] that is -2^31, neither -1 nor positive,
    and [seek_file] returns it; the deep copy takes it for a failure of
    the seek, does not seek the destination, and returns -2147483648,
    which is the error number of no call. *)
Lemma destination_not_seeked_after_source_seek :
  let w := start (pattern 8) (pattern 3) [Fail 95%positive] in
  let w1 := failed (EvFiclonerange (2 ^ 31) 0 0) 95 w in
  let w2 := seeked Src (2 ^ 31) w1 in
  clone_file_range_impl Src Dst (2 ^ 31) 0 0 w = Some (95, w1)
  /\ lseek Src (2 ^ 31) w1 = Some (2 ^ 31, w2)
  /\ seek_file Src (2 ^ 31) w1 = Some (- 2 ^ 31, w2)
  /\ deep_copy_file_range_impl 9 Src Dst (2 ^ 31) 0 0 4 w1
     = Some (- 2 ^ 31, w2)
  /\ qtm_clone_file_range 9 3 4 (2 ^ 31) 0 0 true 4 w = Some (- 2 ^ 31, w2)
  /\ w_trace w2 = [EvFiclonerange (2 ^ 31) 0 0; EvLseek Src (2 ^ 31)]
  /\ f_pos (w_src w2) = 2 ^ 31 /\ f_pos (w_dst w2) = 0
  /\ w_oracle w2 = [].
Proof. repeat split. Qed.



(** C9, as amended.  Neither function changes the bytes of the source.
    After a range clone that went through the deep copy and returned 0,
    the bytes the destination already had outside
    [dst_offset, dst_offset + n) are what they were, [n] being [length]
    when it is positive and, for the length 0, the number of bytes of the
    source from [src_offset] to its end. *)
Theorem range_deep_copy_frame fuel src_fd dst_fd src_offset dst_offset length
    fallback_copy fallback_copy_block_size w :
  0 <= length -> 0 <= fallback_copy_block_size ->
  (forall rc w',
      qtm_clone_file fuel src_fd dst_fd fallback_copy
                     fallback_copy_block_size w = Some (rc, w') ->
      f_data (w_src w') = f_data (w_src w))
  /\ (forall rc w',
        qtm_clone_file_range fuel src_fd dst_fd src_offset dst_offset length
                             fallback_copy fallback_copy_block_size w
        = Some (rc, w') ->
        f_data (w_src w') = f_data (w_src w))
  /\ (forall e w1 w',
        clone_file_range_impl Src Dst src_offset dst_offset length w
        = Some (e, w1) -> e <> 0 ->
        qtm_clone_file_range fuel src_fd dst_fd src_offset dst_offset length
                             true fallback_copy_block_size w = Some (0, w') ->
        let n := span (f_data (w_src w)) src_offset length in
        forall i,
          0 <= i < zlen (f_data (w_dst w)) ->
          i < dst_offset \/ dst_offset + n <= i ->
          byte_at (f_data (w_dst w')) i = byte_at (f_data (w_dst w)) i).
Proof.
  intros Hlen Hbs. split; [|split].
  - intros rc w'. now apply qtm_clone_file_source.
  - intros rc w'. now apply qtm_clone_file_range_source.
  - intros e w1 w' Hn He Hrun n i Hi Hout.
    assert (Hargs : 0 <= src_fd /\ 0 <= dst_fd /\ 0 <= src_offset
                    /\ 0 <= dst_offset
                    /\ (true = true -> fallback_copy_block_size <> 0)).
    { apply range_args_checked. unfold qtm_clone_file_range in Hrun.
      destruct (_ || _); [discriminate | reflexivity]. }
    destruct Hargs as (Hs & Hd & Hso & Hdo & Hnz). specialize (Hnz eq_refl).
    rewrite qtm_clone_file_range_valid in Hrun by (assumption || easy).
    unfold bind in Hrun. rewrite Hn in Hrun.
    assert (Hez : (e =? 0) = false) by (now apply Z.eqb_neq).
    rewrite Hez in Hrun. cbn [negb andb] in Hrun.
    destruct (clone_file_range_impl_failed _ _ _ _ _ _ Hn He) as [_ ->].
    apply deep_copy_spec in Hrun; [|lia|lia].
    destruct Hrun as [_ Hok]. destruct (Hok eq_refl) as (_ & _ & Hcp).
    unfold failed in Hcp. fields. fold n in Hcp.
    destruct Hcp as [_ _ Hd' _ [_ Hc] _].
    rewrite Hd'. apply byte_at_pwrite_outside; try assumption.
    rewrite Hc. exact Hout.
Qed.

Lemma range_deep_copy_frame_witness :
  let w := start (pattern 10) (pattern 9) [Fail 95%positive] in
  exists w',
    qtm_clone_file_range 9 3 4 2 1 5 true 4 w = Some (0, w')
    /\ byte_at (f_data (w_dst w')) 7 = byte_at (pattern 9) 7.
Proof.
  intros w. eexists. split.
  - vm_compute. reflexivity.
  - refine (proj2 (proj2 (range_deep_copy_frame 9 3 4 2 1 5 true 4 w _ _))
              95 (failed (EvFiclonerange 2 1 5) 95 w) _ eq_refl _ _ 7 _ _).
    + lia.
    + lia.
    + discriminate.
    + vm_compute. reflexivity.
    + vm_compute. split; [discriminate | reflexivity].
    + right. vm_compute. discriminate.
Defined.

(** C9 as it is stated fails.  A range clone with length 0 copies to the
    end of the source: it changes bytes of the destination, all outside
    the empty range [dst_offset, dst_offset + 0).  And the calls move the
    file offsets of the two descriptors, an effect that is not on the
    contents of the destination. *)
Lemma copy_to_end_writes_past_the_empty_range :
  let w := start ["001"%byte; "002"%byte] ["009"%byte; "009"%byte; "009"%byte]
                 [Fail 95%positive] in
  exists w',
    qtm_clone_file_range 9 3 4 0 0 0 true 4 w = Some (0, w')
    /\ byte_at (f_data (w_dst w)) 0 = Some "009"%byte
    /\ byte_at (f_data (w_dst w')) 0 = Some "001"%byte
    /\ f_pos (w_src w) = 0 /\ f_pos (w_src w') = 2
    /\ f_pos (w_dst w) = 0 /\ f_pos (w_dst w') = 2.
Proof.
  intros w. eexists. split; [vm_compute; reflexivity|].
  repeat split.
Qed.

(** C10, as amended.  The deep copy of a source returns, whatever the
    calls do, once the finitely many interrupted calls of the run are
    over.  A turn of the loop that does not leave it either had its [read]
    interrupted, and then read no byte and left the remaining count as it
    was, or read at least one byte, which in fixed-length mode decreases
    the remaining count, that stays non-negative.  In copy-to-EOF mode
    the loop is left at the first [read] that returns zero bytes. *)
Theorem copy_loop_terminates_after_interrupts src_offset dst_offset length
    block_size w :
  0 < block_size ->
  (exists rc w',
      deep_copy_file_range_impl (enough w) Src Dst src_offset dst_offset
                                length block_size w = Some (rc, w')
      /\ forall fuel, (enough w <= fuel)%nat ->
           deep_copy_file_range_impl fuel Src Dst src_offset dst_offset
                                     length block_size w = Some (rc, w'))
  /\ (forall fuel rc remain w0 rc' remain' w1,
        0 < remain ->
        copy_body fuel Src Dst length block_size rc remain w0
        = Some (Again rc' remain', w1) ->
        (hd Full (w_oracle w0) = Fail 4%positive
         /\ remain' = remain /\ w_src w1 = w_src w0)
        \/ (exists n,
              0 < n /\ f_pos (w_src w1) = f_pos (w_src w0) + n
              /\ (length <> 0 -> remain' = remain - n /\ 0 <= remain' < remain)
              /\ (length = 0 -> remain' = remain)))
  /\ (forall fuel rc remain w0 p w1,
        0 < remain ->
        read Src (MIN block_size remain) w0 = Some ((0, p), w1) ->
        copy_loop (S fuel) Src Dst 0 block_size rc remain w0 = Some (rc, w1)).
Proof.
  intros Hbs. split; [|split].
  - destruct (deep_copy_terminates src_offset dst_offset length block_size w
                Hbs) as (rc & w' & Hrun).
    exists rc, w'. split; [exact Hrun|].
    intros fuel Hle. now apply deep_copy_mono with (enough w).
  - intros fuel rc remain w0 rc' remain' w1 Hr.
    now apply copy_body_again.
  - intros fuel rc remain w0 p w1 Hr Hread.
    rewrite copy_loop_unfold. destruct (Z.gtb_spec remain 0); [|lia].
    assert (Hr0 : remain <> 0) by lia.
    unfold bind.
    rewrite (copy_body_zero_read _ _ _ _ _ _ _ _ _ _ Hr0 Hread).
    reflexivity.
Qed.

Lemma copy_loop_terminates_after_interrupts_witness :
  let w := start (pattern 10) []
                 [Full; Full; Full; Fail 4%positive; Short 3; Fail 4%positive;
                  Short 1; Fail 4%positive] in
  exists rc w',
    deep_copy_file_range_impl (enough w) Src Dst 0 0 0 4 w = Some (rc, w').
Proof.
  intros w.
  destruct (proj1 (copy_loop_terminates_after_interrupts 0 0 0 4 w
                     ltac:(lia))) as (rc & w' & Hrun & _).
  exists rc, w'. exact Hrun.
Defined.

(** C10 as it is stated fails: the turn of the loop whose [read] is
    interrupted does not leave the loop, reads no byte (the file offset
    of the source does not move) and leaves the remaining count, 5, as it
    was. *)
Lemma interrupted_turn_reads_nothing :
  let w := start (pattern 8) [] [Fail 4%positive] in
  exists w1,
    copy_body 9 Src Dst 5 4 0 5 w = Some (Again 0 5, w1)
    /\ w_src w1 = w_src w
    /\ reads_of (w_trace w1) = [0]
    /\ copy_loop 1 Src Dst 5 4 0 5 w = None.
Proof.
  intros w. eexists. split; [vm_compute; reflexivity|].
  repeat split.
Qed.

(** Interrupted calls can outlast any fuel, whatever the size of the
    source. *)
Lemma interrupts_outlast_any_fuel fuel :
  forall length block_size rc remain w,
    0 < remain ->
    w_oracle w = repeat (Fail 4%positive) fuel ->
    copy_loop fuel Src Dst length block_size rc remain w = None.
Proof.
  induction fuel as [|fuel IH]; intros length block_size rc remain w Hr Ho.
  - simpl. now destruct (Z.gtb_spec remain 0); [|lia].
  - rewrite copy_loop_unfold. destruct (Z.gtb_spec remain 0); [|lia].
    unfold bind.
    rewrite (copy_body_read_fail _ _ _ _ _ _ _ _ 4%positive)
      by (rewrite Ho; reflexivity).
    change (Z.pos 4 =? EINTR) with true. cbv iota.
    apply IH; [assumption|]. fields. now rewrite Ho.
Qed.

(** * More of libcpr.c *)

(** ** Every exit of the copy loop *)

Lemma is_write_sizes evs j :
  Forall is_write evs -> bytes_written evs = j ->
  Forall (fun ev => exists put, ev = EvWrite Dst put /\ zlen put <= j) evs.
Proof.
  intros Hf. revert j. induction Hf as [|ev evs [put ->] Hf IH]; intros j Hj.
  - constructor.
  - simpl in Hj. pose proof (bytes_written_nonneg evs).
    pose proof (zlen_nonneg put). constructor.
    + exists put. split; [reflexivity | lia].
    + eapply Forall_impl; [|apply (IH _ eq_refl)].
      intros ev (put' & -> & Hle). exists put'. split; [reflexivity | lia].
Qed.

Lemma written_of_copied src0 dst0 tr0 src_offset dst_offset k w :
  copied src0 dst0 tr0 src_offset dst_offset k w ->
  written src0 dst0 tr0 src_offset dst_offset k w.
Proof. intros [Hs _ Hd _ Hc Hw]. now constructor. Qed.

Lemma written_frame src0 dst0 tr0 src_offset dst_offset k w w1 :
  written src0 dst0 tr0 src_offset dst_offset k w ->
  f_data (w_src w1) = f_data (w_src w) ->
  f_data (w_dst w1) = f_data (w_dst w) ->
  bytes_written (w_trace w1) = bytes_written (w_trace w) ->
  written src0 dst0 tr0 src_offset dst_offset k w1.
Proof.
  intros [Hs Hd Hc Hw] Es Ed Et.
  constructor; rewrite ?Es, ?Ed, ?Et; assumption.
Qed.

(** The world after a [read] of [n] bytes and the [write] of the first
    [j] of them. *)
Lemma written_step src0 dst0 tr0 src_offset dst_offset k n j w w1 w2 :
  0 <= src_offset -> 0 <= dst_offset ->
  copied src0 dst0 tr0 src_offset dst_offset k w ->
  0 < n <= avail (w_src w) -> 0 <= j <= n ->
  f_data (w_src w1) = f_data (w_src w) ->
  w_dst w1 = w_dst w ->
  bytes_written (w_trace w1) = bytes_written (w_trace w) ->
  wrote (sub (f_data (w_src w)) (f_pos (w_src w)) n) j w1 w2 ->
  written src0 dst0 tr0 src_offset dst_offset (k + j) w2.
Proof.
  intros Hso Hdo Hcp Hn Hj Es Ed Et Hwr.
  pose proof (copied_avail _ _ _ _ _ Hso _ _ Hcp) as Hav.
  destruct Hcp as [Hs Hsp Hd Hdp [Hk Hc] Hw].
  destruct Hwr as [Ws Wd Wp [evs (Wt & Wf & Wb)] _].
  rewrite Ed in Wd, Wp. rewrite Hs, Hsp in *.
  assert (Hfirst : firstn (Z.to_nat j) (sub src0 (src_offset + k) n)
                   = sub src0 (src_offset + k) j).
  { unfold sub. rewrite firstn_firstn. f_equal. lia. }
  assert (Hgot : zlen (sub src0 (src_offset + k) j) = j)
    by (rewrite zlen_sub by lia; lia).
  constructor.
  - rewrite Ws. exact Es.
  - rewrite Wd, Hd, Hdp, Hfirst.
    rewrite <- Hc at 2. rewrite pwrite_app by assumption.
    now rewrite sub_app by lia.
  - split; [lia|]. rewrite zlen_sub by lia. lia.
  - rewrite Wt, bytes_written_app, Wb, Et, Hw. lia.
Qed.

Lemma block_call_read block_size remain got :
  0 < block_size -> 0 < remain -> zlen got <= MIN block_size remain ->
  block_call block_size (EvRead Src (MIN block_size remain) got).
Proof. intros Hbs Hr Hg. simpl. rewrite MIN_spec in *. lia. Qed.

Lemma block_call_writes block_size evs j :
  Forall is_write evs -> bytes_written evs = j -> j <= block_size ->
  Forall (block_call block_size) evs.
Proof.
  intros Hf Hj Hle. eapply Forall_impl; [|apply (is_write_sizes _ _ Hf Hj)].
  intros ev (put & -> & Hput). simpl. lia.
Qed.

(** Whatever a run of the loop returns, it leaves the destination with the
    bytes it wrote, that are the first bytes of the source range, and made
    only reads and writes that fit the block. *)
Lemma copy_loop_any src0 dst0 tr0 src_offset dst_offset fuel :
  0 <= src_offset -> 0 <= dst_offset ->
  forall length block_size remain k w rc w',
    0 < block_size -> 0 <= length ->
    copied src0 dst0 tr0 src_offset dst_offset k w ->
    (length <> 0 -> remain = length - k /\ 0 <= remain) ->
    (length = 0 -> remain = block_size) ->
    copy_loop fuel Src Dst length block_size 0 remain w = Some (rc, w') ->
    exists k' evs,
      written src0 dst0 tr0 src_offset dst_offset k' w'
      /\ k <= k' /\ (length <> 0 -> k' <= length)
      /\ w_trace w' = w_trace w ++ evs
      /\ Forall (block_call block_size) evs.
Proof.
  intros Hso Hdo.
  induction fuel as [|fuel IH];
    intros length block_size remain k w rc w' Hbs Hlen Hcp Hfix Heof Hrun.
  - simpl in Hrun. destruct (Z.gtb_spec remain 0) as [Hr|Hr]; [discriminate|].
    injection Hrun as _ <-. exists k, [].
    split; [now apply written_of_copied|]. split; [lia|].
    split; [intros Hl; destruct (Hfix Hl); lia|].
    split; [now rewrite app_nil_r | constructor].
  - rewrite copy_loop_unfold in Hrun.
    destruct (Z.gtb_spec remain 0) as [Hr|Hr].
    2:{ injection Hrun as _ <-. exists k, [].
        split; [now apply written_of_copied|]. split; [lia|].
        split; [intros Hl; destruct (Hfix Hl); lia|].
        split; [now rewrite app_nil_r | constructor]. }
    unfold bind in Hrun.
    assert (Hkl : length <> 0 -> k <= length)
      by (intros Hl; destruct (Hfix Hl); lia).
    pose proof (copied_avail _ _ _ _ _ Hso _ _ Hcp) as Hav.
    assert (Hempty : block_call block_size
                       (EvRead Src (MIN block_size remain) []))
      by (apply block_call_read; try assumption; rewrite MIN_spec;
          unfold zlen; simpl; lia).
    destruct (response_cases (hd Full (w_oracle w))) as [[e He]|Hok].
    + rewrite (copy_body_read_fail _ _ _ _ _ _ _ _ _ He) in Hrun.
      set (w1 := mkWorld _ _ _ _ _) in Hrun.
      assert (Hcp1 : copied src0 dst0 tr0 src_offset dst_offset k w1).
      { eapply copied_frame; [exact Hcp | reflexivity | reflexivity |].
        subst w1. fields. rewrite bytes_written_app. simpl. lia. }
      destruct (Z.pos e =? EINTR).
      * destruct (IH _ _ _ _ _ _ _ Hbs Hlen Hcp1 Hfix Heof Hrun)
          as (k' & evs & Hw & Hk & Hl & Ht & Hf).
        exists k', (EvRead Src (MIN block_size remain) [] :: evs).
        repeat (split; [assumption|]). split.
        -- rewrite Ht. subst w1. fields. now rewrite <- app_assoc.
        -- now constructor.
      * injection Hrun as _ <-.
        exists k, [EvRead Src (MIN block_size remain) []].
        split; [now apply written_of_copied|]. split; [lia|].
        split; [assumption|]. split; [reflexivity|]. now constructor.
    + destruct (Z.eq_dec (avail (w_src w)) 0) as [Hz|Hz].
      * rewrite (copy_body_eof _ _ _ _ _ _ _ Hok Hbs Hr Hz) in Hrun.
        set (w1 := mkWorld _ _ _ _ _) in Hrun.
        assert (Hcp1 : copied src0 dst0 tr0 src_offset dst_offset k w1).
        { eapply copied_frame; [exact Hcp | reflexivity | reflexivity |].
          subst w1. fields. rewrite bytes_written_app. simpl. lia. }
        assert (w' = w1) as ->
          by (destruct (length =? 0); now injection Hrun).
        exists k, [EvRead Src (MIN block_size remain) []].
        split; [now apply written_of_copied|]. split; [lia|].
        split; [assumption|]. split; [reflexivity|]. now constructor.
      * assert (Hpos : 0 < avail (w_src w)) by (unfold avail in *; lia).
        destruct (copy_body_data fuel length block_size 0 remain w
                    Hok Hbs Hr Hpos) as [Hn Hbody].
        rewrite Hbody in Hrun. clear Hbody.
        set (n := granted (hd Full (w_oracle w))
                    (Z.min (Z.max 0 (MIN block_size remain))
                           (avail (w_src w)))) in *.
        set (got := sub (f_data (w_src w)) (f_pos (w_src w)) n) in *.
        set (w1 := mkWorld _ _ _ _ _) in Hrun.
        assert (Hgot : zlen got = n).
        { subst got. rewrite zlen_sub.
          - unfold avail in *. lia.
          - destruct Hcp. lia.
          - lia. }
        assert (Hread : block_call block_size
                          (EvRead Src (MIN block_size remain) got)).
        { apply block_call_read; try assumption. rewrite MIN_spec. lia. }
        destruct (write_block fuel Dst got n w1) as [[rc1 w2]|] eqn:Ewb;
          [|discriminate].
        apply write_block_spec in Ewb; [|assumption|].
        2:{ subst w1. fields. destruct Hcp. lia. }
        destruct Ewb as (j & Hj & Hwr & Hj0 & Hj1).
        assert (Hevs : exists wevs,
                   w_trace w2
                   = w_trace w ++ EvRead Src (MIN block_size remain) got
                                  :: wevs
                   /\ Forall (block_call block_size) wevs).
        { destruct Hwr as [_ _ _ [wevs (Wt & Wf & Wb)] _].
          exists wevs. split.
          - rewrite Wt. subst w1. fields. now rewrite <- app_assoc.
          - apply block_call_writes with j; try assumption. lia. }
        destruct Hevs as (wevs & Ht2 & Hf2).
        assert (Hw2 : written src0 dst0 tr0 src_offset dst_offset (k + j) w2).
        { apply written_step with n w w1; try assumption; try reflexivity.
          - lia.
          - subst w1. fields. rewrite bytes_written_app. simpl. lia. }
        destruct (Z.eqb_spec rc1 0) as [E1|E1]; cbn [negb] in Hrun.
        -- subst rc1. specialize (Hj0 eq_refl). subst j.
           assert (Hcp2 : copied src0 dst0 tr0 src_offset dst_offset
                                 (k + n) w2).
           { apply (copied_step _ _ _ _ _ Hso Hdo) with w w1;
               try reflexivity; try assumption; [lia|].
             subst w1. fields. rewrite bytes_written_app. simpl. lia. }
           assert (Hnext : exists k' evs,
                      written src0 dst0 tr0 src_offset dst_offset k' w'
                      /\ k + n <= k' /\ (length <> 0 -> k' <= length)
                      /\ w_trace w' = w_trace w2 ++ evs
                      /\ Forall (block_call block_size) evs).
           { destruct (Z.eqb_spec length 0) as [El|El]; cbn [negb] in Hrun.
             - refine (IH _ _ _ _ _ _ _ Hbs Hlen Hcp2 _ _ Hrun).
               + intros; congruence.
               + intros _. now apply Heof.
             - refine (IH _ _ _ _ _ _ _ Hbs Hlen Hcp2 _ _ Hrun).
               + intros _. destruct (Hfix El). lia.
               + intros; congruence. }
           destruct Hnext as (k' & evs & Hw & Hk & Hl & Ht & Hf).
           exists k', (EvRead Src (MIN block_size remain) got :: wevs ++ evs).
           split; [assumption|]. split; [lia|]. split; [assumption|]. split.
           ++ rewrite Ht, Ht2, <- app_assoc. reflexivity.
           ++ constructor; [assumption|]. apply Forall_app. now split.
        -- injection Hrun as _ <-.
           exists (k + j), (EvRead Src (MIN block_size remain) got :: wevs).
           split; [assumption|]. split; [lia|]. split.
           ++ intros Hl. destruct (Hfix Hl). lia.
           ++ split; [assumption|]. now constructor.
Qed.

(** ** Every exit of the deep copy *)

Lemma written_nothing (src dst : list byte) tr src_offset dst_offset w :
  f_data (w_src w) = src -> f_data (w_dst w) = dst ->
  bytes_written (w_trace w) = bytes_written tr ->
  written src dst tr src_offset dst_offset 0 w.
Proof.
  intros Hs Hd Ht. constructor; try assumption.
  - split; [lia | reflexivity].
  - lia.
Qed.

Lemma deep_copy_any fuel src_offset dst_offset length block_size w rc w' :
  0 < block_size -> 0 <= length ->
  deep_copy_file_range_impl fuel Src Dst src_offset dst_offset length
                            block_size w = Some (rc, w') ->
  let seeks := [EvLseek Src src_offset; EvLseek Dst dst_offset] in
  exists k evs,
    written (f_data (w_src w)) (f_data (w_dst w)) (w_trace w)
            src_offset dst_offset k w'
    /\ (k = 0 \/ 0 <= dst_offset) /\ (length <> 0 -> k <= length)
    /\ w_trace w' = w_trace w ++ evs
    /\ ((rc <> 0 /\ k = 0
         /\ (evs = [EvLseek Src src_offset] \/ evs = seeks
             \/ (rc = ENOMEM /\ evs = seeks ++ [EvMalloc block_size])))
        \/ (exists body,
              evs = seeks ++ EvMalloc block_size :: body ++ [EvFree]
              /\ Forall (block_call block_size) body)).
Proof.
  intros Hbs Hlen Hrun seeks.
  unfold deep_copy_file_range_impl, bind in Hrun.
  destruct (seek_file Src src_offset w) as [[rc1 w1]|] eqn:S1; [|discriminate].
  pose proof (seek_file_any _ _ _ _ _ S1) as (T1 & D1 & D1' & O1).
  destruct (Z.eqb_spec rc1 0) as [E1|E1].
  2:{ unfold ret in Hrun. destruct (Z.eqb_spec rc1 0); [lia|].
      cbn [negb] in Hrun. injection Hrun as <- <-.
      exists 0, [EvLseek Src src_offset].
      split; [apply written_nothing; try assumption;
              rewrite T1, bytes_written_app; simpl; lia|].
      split; [now left|]. split; [lia|]. split; [assumption|].
      left. auto. }
  subst rc1.
  destruct (seek_file Dst dst_offset w1) as [[rc2 w2]|] eqn:S2; [|discriminate].
  pose proof (seek_file_any _ _ _ _ _ S2) as (T2 & D2 & D2' & O2).
  assert (T12 : w_trace w2 = w_trace w ++ seeks)
    by (rewrite T2, T1, <- app_assoc; reflexivity).
  assert (B12 : bytes_written (w_trace w2) = bytes_written (w_trace w))
    by (rewrite T12, bytes_written_app; simpl; lia).
  destruct (Z.eqb_spec rc2 0) as [E2|E2]; cbn [negb] in Hrun.
  2:{ injection Hrun as <- <-. exists 0, seeks.
      split; [apply written_nothing; congruence|].
      split; [now left|]. split; [lia|]. split; [assumption|].
      left. auto. }
  subst rc2.
  apply seek_file_zero in S1, S2. destruct S1 as [Hso ->], S2 as [Hdo Ew2].
  destruct (response_cases (hd Full (w_oracle w2))) as [[e He]|Hok].
  { rewrite (malloc_fail _ _ _ He) in Hrun. cbn [negb] in Hrun.
    injection Hrun as <- <-. exists 0, (seeks ++ [EvMalloc block_size]).
    split.
    { apply written_nothing; unfold failed; fields; try congruence.
      rewrite bytes_written_app. simpl. lia. }
    split; [now left|]. split; [lia|]. split.
    { unfold failed. fields. rewrite T12, Z.mul_1_r, <- app_assoc.
      reflexivity. }
    left. split; [discriminate|]. split; [reflexivity|]. right. right. auto. }
  rewrite (malloc_ok _ _ Hok) in Hrun. cbn [negb] in Hrun.
  set (w3 := failed (EvMalloc (block_size * 1)) (w_errno w2) w2) in *.
  destruct (copy_loop fuel Src Dst length block_size 0 _ w3)
    as [[rc3 w4]|] eqn:L; [|discriminate].
  unfold free in Hrun. injection Hrun as <- <-.
  assert (Hcp : copied (f_data (w_src w)) (f_data (w_dst w)) (w_trace w)
                       src_offset dst_offset 0 w3).
  { subst w3 w2. apply copied_start; try reflexivity; try assumption.
    unfold failed, seeked. fields.
    rewrite !bytes_written_app. simpl. lia. }
  destruct (copy_loop_any _ _ _ _ _ fuel Hso Hdo length block_size
              (if negb (length =? 0) then length else block_size) 0 w3
              rc3 w4 Hbs Hlen Hcp) as (k & body & Hw & Hk & Hl & Ht & Hf).
  - intros Hl. destruct (Z.eqb_spec length 0); [lia|]. cbn [negb]. lia.
  - intros ->. reflexivity.
  - exact L.
  - exists k, (seeks ++ EvMalloc block_size :: body ++ [EvFree]).
    split.
    { eapply written_frame; [exact Hw | reflexivity | reflexivity |].
      unfold log. fields. rewrite bytes_written_app. simpl. lia. }
    split; [now right|]. split; [assumption|]. split.
    { unfold log. fields. rewrite Ht. subst w3. unfold failed. fields.
      rewrite T12, Z.mul_1_r, <- !app_assoc. reflexivity. }
    right. exists body. now split.
Qed.

(** X1.  A deep copy returns, once the interrupted calls of the run are
    over.  Its calls, in their order: the seek of the source,
    the seek of the destination, one allocation of [block_size] bytes,
    then reads from the source and writes to the destination only, then
    one [free].  Every [read] asks for at least one byte and at most
    [block_size] bytes and gets no more than it asked for, and no [write]
    puts more than [block_size] bytes: the block is never overrun.  A
    copy that stops before the loop, because a seek did not return 0 or
    the allocation failed, returns a non-zero value, and has read,
    written and freed nothing. *)
Theorem deep_copy_call_protocol fuel src_offset dst_offset length block_size
    w :
  0 < block_size -> 0 <= length ->
  ((enough w <= fuel)%nat ->
   exists rc w',
     deep_copy_file_range_impl fuel Src Dst src_offset dst_offset length
                               block_size w = Some (rc, w'))
  /\ forall rc w',
       deep_copy_file_range_impl fuel Src Dst src_offset dst_offset length
                                 block_size w = Some (rc, w') ->
       let seeks := [EvLseek Src src_offset; EvLseek Dst dst_offset] in
       exists evs,
         w_trace w' = w_trace w ++ evs
         /\ ((rc <> 0
              /\ (evs = [EvLseek Src src_offset] \/ evs = seeks
                  \/ (rc = ENOMEM /\ evs = seeks ++ [EvMalloc block_size])))
             \/ (exists body,
                   evs = seeks ++ EvMalloc block_size :: body ++ [EvFree]
                   /\ Forall (block_call block_size) body)).
Proof.
  intros Hbs Hlen. split.
  - intros Hfuel.
    destruct (deep_copy_terminates src_offset dst_offset length block_size w
                Hbs) as (rc & w' & Hrun).
    exists rc, w'. now apply deep_copy_mono with (enough w).
  - intros rc w' Hrun seeks.
    destruct (deep_copy_any _ _ _ _ _ _ _ _ Hbs Hlen Hrun)
      as (k & evs & _ & _ & _ & Ht & [(Hrc & _ & Hev)|Hbody]).
    + exists evs. split; [assumption|]. left. now split.
    + exists evs. split; [assumption|]. now right.
Qed.

Lemma deep_copy_call_protocol_witness :
  let w := start (pattern 10) [] [Full; Full; Full; Short 3; Fail 28%positive] in
  exists w',
    deep_copy_file_range_impl 9 Src Dst 2 0 5 4 w = Some (28, w')
    /\ exists evs, w_trace w' = w_trace w ++ evs.
Proof.
  intros w.
  assert (Hrun : { w' | deep_copy_file_range_impl 9 Src Dst 2 0 5 4 w
                        = Some (28, w') })
    by (eexists; vm_compute; reflexivity).
  destruct Hrun as [w' Hrun]. exists w'. split; [exact Hrun|].
  destruct (proj2 (deep_copy_call_protocol 9 2 0 5 4 w ltac:(lia) ltac:(lia))
              28 w' Hrun) as (evs & Ht & _).
  exists evs. exact Ht.
Defined.

(** X2.  A deep copy returns, and whatever it returns, the source is as
    it was and the
    destination is what it was with [k] bytes written at [dst_offset],
    [k] being the number of bytes the copy wrote: they are the first [k]
    bytes of the source from [src_offset] on, in their order, and the
    bytes the destination had outside [dst_offset, dst_offset + k) are
    what they were.  A copy of a length never writes more than that
    length; a copy that fails is not undone. *)
Theorem deep_copy_leaves_a_prefix fuel src_offset dst_offset length block_size
    w :
  0 < block_size -> 0 <= length ->
  ((enough w <= fuel)%nat ->
   exists rc w',
     deep_copy_file_range_impl fuel Src Dst src_offset dst_offset length
                               block_size w = Some (rc, w'))
  /\ forall rc w',
       deep_copy_file_range_impl fuel Src Dst src_offset dst_offset length
                                 block_size w = Some (rc, w') ->
       exists k,
         0 <= k /\ (length <> 0 -> k <= length)
         /\ bytes_written (w_trace w') = bytes_written (w_trace w) + k
         /\ zlen (sub (f_data (w_src w)) src_offset k) = k
         /\ f_data (w_dst w')
            = pwrite (f_data (w_dst w)) dst_offset
                     (sub (f_data (w_src w)) src_offset k)
         /\ f_data (w_src w') = f_data (w_src w)
         /\ (forall i,
               0 <= i < zlen (f_data (w_dst w)) ->
               i < dst_offset \/ dst_offset + k <= i ->
               byte_at (f_data (w_dst w')) i = byte_at (f_data (w_dst w)) i).
Proof.
  intros Hbs Hlen. split.
  - intros Hfuel.
    destruct (deep_copy_terminates src_offset dst_offset length block_size w
                Hbs) as (rc & w' & Hrun).
    exists rc, w'. now apply deep_copy_mono with (enough w).
  - intros rc w' Hrun.
    destruct (deep_copy_any _ _ _ _ _ _ _ _ Hbs Hlen Hrun)
      as (k & evs & [Hs Hd [Hk Hc] Hw] & Hdo & Hl & _ & _).
    exists k. repeat (split; [assumption|]).
    intros i Hi Hout. rewrite Hd.
    destruct Hdo as [-> | Hdo]; [reflexivity|].
    apply byte_at_pwrite_outside; try assumption. now rewrite Hc.
Qed.

Lemma deep_copy_leaves_a_prefix_witness :
  let w := start (pattern 10) (pattern 3)
                 [Full; Full; Full; Full; Short 3; Fail 28%positive] in
  exists w' k,
    deep_copy_file_range_impl 9 Src Dst 2 0 8 4 w = Some (28, w')
    /\ bytes_written (w_trace w') = bytes_written (w_trace w) + k
    /\ f_data (w_dst w') = pwrite (pattern 3) 0 (sub (pattern 10) 2 k).
Proof.
  intros w.
  assert (Hrun : { w' | deep_copy_file_range_impl 9 Src Dst 2 0 8 4 w
                        = Some (28, w') })
    by (eexists; vm_compute; reflexivity).
  destruct Hrun as [w' Hrun]. exists w'.
  destruct (proj2 (deep_copy_leaves_a_prefix 9 2 0 8 4 w ltac:(lia)
                     ltac:(lia)) 28 w' Hrun)
    as (k & _ & _ & Hw & _ & Hd & _).
  exists k. split; [exact Hrun|]. split; [exact Hw | exact Hd].
Defined.

(** ** The result of [lseek] as an [int] *)

Lemma seek_file_zero_int fd offset w w' :
  seek_file fd offset w = Some (0, w') -> -1 <= to_int offset.
Proof.
  intros H. apply seek_file_zero in H as H'. destruct H' as [Hpos ->].
  unfold seek_file, bind in H.
  destruct (lseek_cases fd offset w) as [[e L]|[[Hneg L]|[_ L]]];
    [| lia |]; rewrite L in H.
  - change (to_int (-1) =? -1) with true in H. cbv iota in H.
    unfold get_errno, failed in H. fields. discriminate.
  - destruct (Z.eqb_spec (to_int offset) (-1)); [lia|].
    destruct (Z.gtb_spec (to_int offset) 0); [lia|].
    unfold ret in H. injection H as H. lia.
Qed.

Lemma seek_file_negative_int fd offset w :
  (forall e, hd Full (w_oracle w) <> Fail e) ->
  0 <= offset -> to_int offset < -1 ->
  seek_file fd offset w = Some (to_int offset, seeked fd offset w).
Proof.
  intros Hok Ho Hint. unfold seek_file, bind.
  rewrite (lseek_ok _ _ _ Hok Ho).
  destruct (Z.eqb_spec (to_int offset) (-1)); [lia|].
  destruct (Z.gtb_spec (to_int offset) 0); [lia | reflexivity].
Qed.

(** X3.  [seek_file] keeps the result of [lseek] in an [int].  For an
    offset that is negative and not -1 as a 32-bit [int] (the offsets from
    2^31 to 2^32 - 2, and those equal to them modulo 2^32), a seek that
    succeeds moves the descriptor and yet returns that negative number,
    not 0.  So a deep copy from or to such an offset never returns 0, and
    writes nothing. *)
Theorem seek_file_fails_on_large_offsets fuel src_offset dst_offset length
    block_size w :
  to_int src_offset < -1 \/ to_int dst_offset < -1 ->
  (forall fd offset w0,
      (forall e, hd Full (w_oracle w0) <> Fail e) ->
      0 <= offset -> to_int offset < -1 ->
      seek_file fd offset w0 = Some (to_int offset, seeked fd offset w0)
      /\ f_pos (get_file fd (seeked fd offset w0)) = offset)
  /\ (forall rc w',
        deep_copy_file_range_impl fuel Src Dst src_offset dst_offset length
                                  block_size w = Some (rc, w') ->
        rc <> 0
        /\ f_data (w_dst w') = f_data (w_dst w)
        /\ bytes_written (w_trace w') = bytes_written (w_trace w)).
Proof.
  intros Hlarge. split.
  - intros fd offset w0 Hok Ho Hint.
    split; [now apply seek_file_negative_int|]. now destruct fd.
  - intros rc w' Hrun. unfold deep_copy_file_range_impl, bind in Hrun.
    destruct (seek_file Src src_offset w) as [[rc1 w1]|] eqn:S1;
      [|discriminate].
    pose proof (seek_file_any _ _ _ _ _ S1) as (T1 & D1 & D1' & _).
    destruct (Z.eqb_spec rc1 0) as [E1|E1].
    2:{ unfold ret in Hrun. destruct (Z.eqb_spec rc1 0); [lia|].
        cbn [negb] in Hrun. injection Hrun as <- <-.
        split; [assumption|]. split; [assumption|].
        rewrite T1, bytes_written_app. simpl. lia. }
    subst rc1. apply seek_file_zero_int in S1 as Hint1.
    destruct (seek_file Dst dst_offset w1) as [[rc2 w2]|] eqn:S2;
      [|discriminate].
    pose proof (seek_file_any _ _ _ _ _ S2) as (T2 & D2 & D2' & _).
    destruct (Z.eqb_spec rc2 0) as [E2|E2]; cbn [negb] in Hrun.
    + subst rc2. apply seek_file_zero_int in S2. lia.
    + injection Hrun as <- <-.
      split; [assumption|]. split; [congruence|].
      rewrite T2, T1, !bytes_written_app. simpl. lia.
Qed.

Lemma seek_file_fails_on_large_offsets_witness :
  let w := start (pattern 8) [] [] in
  seek_file Src (3 * 2 ^ 31) w = Some (- 2 ^ 31, seeked Src (3 * 2 ^ 31) w).
Proof.
  intros w.
  assert (Hlarge : to_int (3 * 2 ^ 31) < -1 \/ to_int 0 < -1)
    by (left; vm_compute; reflexivity).
  destruct (proj1 (seek_file_fails_on_large_offsets 9 (3 * 2 ^ 31) 0 0 4 w
                     Hlarge)
              Src (3 * 2 ^ 31) w) as [H _].
  - intros e. discriminate.
  - lia.
  - vm_compute. reflexivity.
  - exact H.
Defined.

(** ** A whole-file clone that returns 0 *)

Lemma qtm_clone_file_success fuel src_fd dst_fd fallback_copy block_size
    w w' :
  0 <= block_size ->
  qtm_clone_file fuel src_fd dst_fd fallback_copy block_size w
  = Some (0, w') ->
  f_data (w_src w') = f_data (w_src w)
  /\ f_data (w_dst w')
     = f_data (w_src w)
       ++ skipn (List.length (f_data (w_src w))) (f_data (w_dst w)).
Proof.
  intros Hbs Hrun.
  split; [now apply qtm_clone_file_source in Hrun|].
  assert (Hargs : 0 <= src_fd /\ 0 <= dst_fd
                  /\ (fallback_copy = true -> block_size <> 0)).
  { apply args_checked. unfold qtm_clone_file in Hrun.
    destruct (_ || _); [discriminate | reflexivity]. }
  destruct Hargs as (Hs & Hd & Hnz).
  rewrite qtm_clone_file_valid in Hrun by assumption.
  unfold bind in Hrun.
  destruct (clone_file_impl_cases w) as [(e & He & Hn)|Hn]; rewrite Hn in Hrun.
  - destruct (Z.eqb_spec e 0); [lia|]. cbn [negb andb] in Hrun.
    destruct fallback_copy; [|injection Hrun as ? _; lia].
    apply deep_copy_spec in Hrun; [|specialize (Hnz eq_refl); lia|lia].
    destruct Hrun as [_ Hok]. destruct (Hok eq_refl) as (_ & _ & Hcp).
    unfold failed in Hcp. fields.
    assert (Hspan : span (f_data (w_src w)) 0 0 = zlen (f_data (w_src w))).
    { unfold span. simpl. pose proof (zlen_nonneg (f_data (w_src w))). lia. }
    rewrite Hspan in Hcp. destruct Hcp as [_ _ Hd' _ _ _].
    now rewrite sub_all, pwrite_zero in Hd'.
  - cbn [negb andb Z.eqb] in Hrun. injection Hrun as <-.
    unfold cloned. fields. change (0 =? 0) with true. cbv iota.
    rewrite Z.sub_0_r, sub_all, pwrite_zero. reflexivity.
Qed.

(** X4.  Whatever the fallback setting, and whether the bytes went through
    the clone [ioctl] or through the deep copy, a whole-file clone that
    returns 0 leaves the source as it was and, in the destination, the
    bytes of the source followed by the bytes the destination had past
    the size of the source: the clone never truncates.  A destination that
    held no more bytes than the source is then equal to the source. *)
Theorem whole_file_clone_result fuel src_fd dst_fd fallback_copy
    fallback_copy_block_size w w' :
  0 <= fallback_copy_block_size ->
  qtm_clone_file fuel src_fd dst_fd fallback_copy fallback_copy_block_size w
  = Some (0, w') ->
  let src := f_data (w_src w) in
  let dst := f_data (w_dst w) in
  f_data (w_src w') = src
  /\ f_data (w_dst w') = src ++ skipn (List.length src) dst
  /\ ((List.length dst <= List.length src)%nat -> f_data (w_dst w') = src)
  /\ List.length (f_data (w_dst w'))
     = Nat.max (List.length src) (List.length dst).
Proof.
  intros Hbs Hrun src dst.
  destruct (qtm_clone_file_success _ _ _ _ _ _ _ Hbs Hrun) as [Hs Hd].
  fold src in Hs, Hd. fold dst in Hd.
  split; [exact Hs|]. split; [exact Hd|]. split.
  - intros Hle. rewrite Hd, skipn_all2 by exact Hle. apply app_nil_r.
  - rewrite Hd, length_app, length_skipn. lia.
Qed.

Lemma whole_file_clone_result_witness :
  let w := start (pattern 5) (pattern 2) [Full] in
  exists w',
    qtm_clone_file 9 3 4 false 0 w = Some (0, w')
    /\ f_data (w_dst w') = pattern 5.
Proof.
  intros w. eexists. split.
  - vm_compute. reflexivity.
  - refine (proj1 (proj2 (proj2
      (whole_file_clone_result 9 3 4 false 0 w _ _ _))) _).
    + lia.
    + vm_compute. reflexivity.
    + simpl. lia.
Defined.

(** ** The destination after a clone, for the program cpr *)



(** * The program cpr *)

Module CprFacts.

Import Cpr.
Import Stdlib.Strings.Ascii Stdlib.Strings.String.
#[local] Open Scope cpr_main_scope.

(** ** [strtoumax] on decimal numerals *)

Lemma digit_cases d :
  0 <= d <= 9 ->
  d = 0 \/ d = 1 \/ d = 2 \/ d = 3 \/ d = 4 \/ d = 5 \/ d = 6 \/ d = 7
  \/ d = 8 \/ d = 9.
Proof. lia. Qed.

Lemma digit_of_digit_char d : 0 <= d <= 9 -> digit_of (digit_char d) = Some d.
Proof.
  intros H. destruct (digit_cases d H) as [->|[->|[->|[->|[->|[->|[->|[->|[->| ->]]]]]]]]];
    reflexivity.
Qed.

Lemma scan_digits_numeral ds :
  Forall (fun x => 0 <= x <= 9) ds ->
  forall acc any,
    scan_digits 10 acc any (numeral ds)
    = (fold_left (fun a d => a * 10 + d) ds acc,
       match ds with [] => any | _ => true end, String.EmptyString).
Proof.
  induction 1 as [|d ds Hd Hds IH]; intros acc any; [reflexivity|].
  cbn [numeral scan_digits fold_left]. rewrite (digit_of_digit_char d Hd).
  destruct (Z.ltb_spec d 10); [|lia]. rewrite IH. now destruct ds.
Qed.

Lemma fold_digits_nonneg ds :
  Forall (fun x => 0 <= x <= 9) ds ->
  forall acc, 0 <= acc -> 0 <= fold_left (fun a d => a * 10 + d) ds acc.
Proof.
  induction 1 as [|d ds Hd Hds IH]; intros acc Hacc; [assumption|].
  cbn [fold_left]. apply IH. lia.
Qed.

Lemma strtoumax_0_decimal c rest :
  isspace c = false -> Ascii.eqb c "-"%char = false ->
  Ascii.eqb c "+"%char = false -> Ascii.eqb c "0"%char = false ->
  strtoumax_0 (String.String c rest)
  = let '(v, any, r) := scan_digits 10 0 false (String.String c rest) in
    if any then
      if v >? UINTMAX_MAX then mkConversion UINTMAX_MAX r true true
      else mkConversion v r true false
    else mkConversion 0 (String.String c rest) false false.
Proof.
  intros Hs Hm Hp Hz. unfold strtoumax_0. cbn [skip_spaces].
  rewrite Hs, Hm, Hp, Hz. reflexivity.
Qed.

(** What [strtoumax] makes of a decimal numeral that does not start with
    0. *)
Lemma strtoumax_numeral d ds :
  1 <= d <= 9 -> Forall (fun x => 0 <= x <= 9) ds ->
  let n := value_of (d :: ds) in
  strtoumax_0 (numeral (d :: ds))
  = if n >? UINTMAX_MAX
    then mkConversion UINTMAX_MAX String.EmptyString true true
    else mkConversion n String.EmptyString true false.
Proof.
  intros Hd Hds n.
  assert (Hscan : scan_digits 10 0 false (numeral (d :: ds))
                  = (n, true, String.EmptyString)).
  { rewrite scan_digits_numeral; [reflexivity|].
    constructor; [lia | assumption]. }
  cbn [numeral] in *.
  rewrite strtoumax_0_decimal, Hscan; [reflexivity| | | |];
    assert (Hd' : 0 <= d <= 9) by lia;
    destruct (digit_cases d Hd')
      as [->|[->|[->|[->|[->|[->|[->|[->|[->| ->]]]]]]]]];
    try lia; reflexivity.
Qed.

(** ** [parse_uint64] *)

Lemma eta_process p : with_world (p_world p) p = p.
Proof. now destruct p. Qed.

Lemma parse_uint64_unfold argvN msg p :
  parse_uint64 argvN msg p
  = let cv := strtoumax_0 argvN in
    let p1 := if cv_erange cv
              then with_world (set_errno ERANGE (p_world p)) p else p in
    let rval := cv_value cv in
    let e := w_errno (p_world p1) in
    if (rval =? UINTMAX_MAX) && (e =? ERANGE) then
      print_usage_and_exit (Some msg) p1
    else if (rval =? 0) && negb (cv_moved cv) then
      print_usage_and_exit (Some msg) p1
    else if negb (rval =? 0)
            && negb (match cv_rest cv with
                     | String.EmptyString => true
                     | _ => false
                     end) then
      print_usage_and_exit (Some msg) p1
    else if rval >? UINT64_MAX then
      print_usage_and_exit (Some msg) p1
    else Some (Ret rval, p1).
Proof.
  unfold parse_uint64, strtoumax, pbind, errno, lift, get_errno, put_errno,
    pret.
  destruct (cv_erange (strtoumax_0 argvN)); cbv zeta beta;
    rewrite ?eta_process;
    repeat match goal with
           | |- context [if ?c then _ else _] => destruct c
           end; reflexivity.
Qed.

Lemma digit_of_nonneg c d : digit_of c = Some d -> 0 <= d.
Proof.
  unfold digit_of.
  set (n := Z.of_nat (nat_of_ascii c)).
  destruct (Z.leb_spec 48 n), (Z.leb_spec n 57); cbn [andb];
    try (intros [= <-]; lia);
    destruct (Z.leb_spec 97 n), (Z.leb_spec n 122); cbn [andb];
    try (intros [= <-]; lia);
    destruct (Z.leb_spec 65 n), (Z.leb_spec n 90); cbn [andb];
    try (intros [= <-]; lia); discriminate.
Qed.

Lemma scan_digits_nonneg base s :
  0 <= base ->
  forall acc any v any' rest,
    0 <= acc -> scan_digits base acc any s = (v, any', rest) -> 0 <= v.
Proof.
  intros Hb. induction s as [|c s IH]; intros acc any v any' rest Hacc Hs;
    cbn [scan_digits] in Hs.
  - injection Hs as <- _ _. assumption.
  - destruct (digit_of c) as [d|] eqn:Ed.
    + apply digit_of_nonneg in Ed.
      destruct (d <? base).
      * apply IH in Hs; [assumption | nia].
      * injection Hs as <- _ _. assumption.
    + injection Hs as <- _ _. assumption.
Qed.

(** The value [strtoumax] gives is a [uintmax_t]; when the number is out of
    range it is [UINTMAX_MAX]. *)
Lemma strtoumax_0_range nptr :
  let cv := strtoumax_0 nptr in
  0 <= cv_value cv <= UINTMAX_MAX
  /\ (cv_erange cv = true -> cv_value cv = UINTMAX_MAX).
Proof.
  unfold strtoumax_0.
  destruct (match skip_spaces nptr with
            | String.EmptyString => _ | String.String c s' => _ end)
    as [negative s].
  destruct (match s with
            | String.EmptyString => _ | String.String c s' => _ end)
    as [[base digits] at_x] eqn:Eb.
  assert (Hbase : 0 <= base).
  { destruct s as [|c s']; [injection Eb as <- _ _; lia|].
    destruct (Ascii.eqb c "0"%char); [|injection Eb as <- _ _; lia].
    destruct s' as [|x s'']; [injection Eb as <- _ _; lia|].
    destruct (is_x x); injection Eb as <- _ _; lia. }
  destruct (scan_digits base 0 false digits) as [[v any] rest] eqn:Es.
  apply scan_digits_nonneg in Es; [|assumption|lia].
  destruct any.
  - destruct (Z.gtb_spec v UINTMAX_MAX); cbn [cv_value cv_erange].
    + unfold UINTMAX_MAX. split; [lia | reflexivity].
    + split; [|discriminate]. destruct negative; [|lia].
      pose proof (Z.mod_pos_bound (- v) (2 ^ 64) ltac:(lia)).
      unfold UINTMAX_MAX. lia.
  - destruct at_x; cbn [cv_value cv_erange]; unfold UINTMAX_MAX;
      (split; [lia | discriminate]).
Qed.

(** What [parse_uint64] returns is what [strtoumax] gave, a [uint64_t]; a
    non-zero value has nothing after it.  The process is as it was. *)
Lemma parse_uint64_ret argvN msg p v p' :
  parse_uint64 argvN msg p = Some (Ret v, p') ->
  p' = p /\ 0 <= v < 2 ^ 64 /\ v = cv_value (strtoumax_0 argvN)
  /\ (v <> 0 -> cv_rest (strtoumax_0 argvN) = String.EmptyString).
Proof.
  rewrite parse_uint64_unfold. cbv zeta.
  destruct (strtoumax_0_range argvN) as [Hr He].
  destruct (cv_erange (strtoumax_0 argvN)) eqn:Ee.
  - rewrite (He eq_refl). cbn [with_world p_world set_errno w_errno].
    rewrite !Z.eqb_refl. discriminate.
  - destruct (_ && _); [discriminate|].
    destruct (_ && _); [discriminate|].
    destruct (Z.eqb_spec (cv_value (strtoumax_0 argvN)) 0) as [Hz|Hz];
      cbn [negb andb].
    + destruct (_ >? _); [discriminate|]. intros [= <- <-].
      unfold UINTMAX_MAX in Hr. repeat split; lia.
    + destruct (cv_rest (strtoumax_0 argvN)); cbn [negb]; [|discriminate].
      destruct (_ >? _); [discriminate|]. intros [= <- <-].
      unfold UINTMAX_MAX in Hr. repeat split; try lia.
Qed.

Lemma untouched_usage m p : untouched p (with_call (Stderr m) p).
Proof.
  split; [|now repeat split].
  constructor; try reflexivity; [now exists 0%nat | now exists [Stderr m]].
Qed.

Lemma untouched_errno_usage m e p :
  untouched p (with_call (Stderr m) (with_world (set_errno e (p_world p)) p)).
Proof.
  split; [|now repeat split].
  constructor; try reflexivity; [now exists 0%nat | now exists [Stderr m]].
Qed.

(** [parse_uint64] returns or exits. *)
Lemma parse_uint64_total argvN msg p :
  (exists v, parse_uint64 argvN msg p = Some (Ret v, p))
  \/ (exists p',
        parse_uint64 argvN msg p = Some (Exit EXIT_FAILURE, p')
        /\ untouched p p').
Proof.
  destruct (parse_uint64 argvN msg p) as [[[v|status|] p']|] eqn:E.
  - left. exists v. apply parse_uint64_ret in E as H. destruct H as [-> _].
    reflexivity.
  - right. exists p'. rewrite parse_uint64_unfold in E. cbv zeta in E.
    unfold print_usage_and_exit in E.
    destruct (cv_erange (strtoumax_0 argvN));
      repeat match type of E with
             | (if ?c then _ else _) = _ => destruct c
             end; try discriminate E; injection E as <- <-;
      (split; [reflexivity|]);
      first [apply untouched_usage | apply untouched_errno_usage].
  - exfalso. rewrite parse_uint64_unfold in E. cbv zeta in E.
    unfold print_usage_and_exit in E.
    repeat match type of E with
           | (if ?c then _ else _) = _ => destruct c
           end; discriminate.
  - exfalso. rewrite parse_uint64_unfold in E. cbv zeta in E.
    unfold print_usage_and_exit in E.
    repeat match type of E with
           | (if ?c then _ else _) = _ => destruct c
           end; discriminate.
Qed.

Lemma fold_digits_lower ds :
  Forall (fun x => 0 <= x <= 9) ds ->
  forall acc, 0 <= acc -> acc <= fold_left (fun a d => a * 10 + d) ds acc.
Proof.
  induction 1 as [|d ds Hd Hds IH]; intros acc Hacc; [cbn; lia|].
  cbn [fold_left]. specialize (IH (acc * 10 + d) ltac:(lia)). lia.
Qed.

Lemma value_of_positive d ds :
  1 <= d <= 9 -> Forall (fun x => 0 <= x <= 9) ds -> 1 <= value_of (d :: ds).
Proof.
  intros Hd Hds. unfold value_of. cbn [fold_left].
  pose proof (fold_digits_lower ds Hds (0 * 10 + d) ltac:(lia)). lia.
Qed.

(** X5.  [parse_uint64] reads a decimal numeral that does not start with
    0 as the number it writes, when that number fits a [uint64_t], and
    leaves the process as it was; for a larger number the program exits
    with [EXIT_FAILURE].  The largest value, 2^64 - 1, is what [strtoumax]
    returns for a number out of range too, with [ERANGE] in errno: it is
    accepted only when errno does not hold [ERANGE] from before, since
    [parse_uint64] does not clear errno. *)
Theorem parse_uint64_reads_decimal d ds msg p :
  1 <= d <= 9 -> Forall (fun x => 0 <= x <= 9) ds ->
  let n := value_of (d :: ds) in
  (n < 2 ^ 64 -> (n = 2 ^ 64 - 1 -> w_errno (p_world p) <> ERANGE) ->
   parse_uint64 (numeral (d :: ds)) msg p = Some (Ret n, p))
  /\ (2 ^ 64 <= n
      \/ (n = 2 ^ 64 - 1 /\ w_errno (p_world p) = ERANGE) ->
      exists p',
        parse_uint64 (numeral (d :: ds)) msg p
        = Some (Exit EXIT_FAILURE, p')).
Proof.
  intros Hd Hds n. pose proof (value_of_positive d ds Hd Hds) as Hpos.
  fold n in Hpos.
  rewrite parse_uint64_unfold, (strtoumax_numeral d ds Hd Hds). fold n.
  cbv zeta. unfold UINTMAX_MAX, UINT64_MAX. split.
  - intros Hlt Herr.
    destruct (Z.gtb_spec n (2 ^ 64 - 1)); [lia|].
    cbn [cv_value cv_rest cv_moved cv_erange].
    destruct (Z.eqb_spec n (2 ^ 64 - 1)) as [Hmax|Hmax]; cbn [andb].
    + destruct (Z.eqb_spec (w_errno (p_world p)) ERANGE) as [He|He];
        [now specialize (Herr Hmax)|].
      destruct (Z.eqb_spec n 0); [lia|]. cbn [andb negb].
      destruct (Z.gtb_spec n (2 ^ 64 - 1)); [lia | reflexivity].
    + destruct (Z.eqb_spec n 0); [lia|]. cbn [andb negb].
      destruct (Z.gtb_spec n (2 ^ 64 - 1)); [lia | reflexivity].
  - intros [Hge|[Hmax He]].
    + destruct (Z.gtb_spec n (2 ^ 64 - 1)); [|lia].
      cbn [cv_value cv_rest cv_moved cv_erange with_world p_world set_errno
           w_errno].
      rewrite !Z.eqb_refl. cbn [andb]. eexists. reflexivity.
    + destruct (Z.gtb_spec n (2 ^ 64 - 1)); [lia|].
      cbn [cv_value cv_rest cv_moved cv_erange].
      rewrite He, Hmax, !Z.eqb_refl. cbn [andb]. eexists. reflexivity.
Qed.

Lemma parse_uint64_reads_decimal_witness :
  let p := boot (start (pattern 4) [] []) false (mkStat 1 2 3 4 5)
                (mkStat 6 7 8 9 10) in
  parse_uint64 "8192" "Failed to parse SRC_LENGTH: %s" p
  = Some (Ret 8192, p).
Proof.
  intros p.
  refine (proj1 (parse_uint64_reads_decimal 8 [1; 9; 2] _ p _ _) _ _).
  - lia.
  - repeat constructor; lia.
  - vm_compute. reflexivity.
  - intros H. vm_compute in H. discriminate H.
Defined.

Lemma scan_digits_stops ds c rest :
  Forall (fun x => 0 <= x <= 9) ds ->
  (forall x, digit_of c = Some x -> 10 <= x) ->
  forall acc any,
    scan_digits 10 acc any (numeral ds ++ String.String c rest)
    = (fold_left (fun a d => a * 10 + d) ds acc,
       match ds with [] => any | _ => true end, String.String c rest).
Proof.
  intros Hds Hc. induction Hds as [|d ds Hd Hds IH]; intros acc any.
  - cbn [numeral append scan_digits fold_left].
    destruct (digit_of c) as [x|]; [|reflexivity].
    specialize (Hc x eq_refl). destruct (Z.ltb_spec x 10); [lia|reflexivity].
  - cbn [numeral append scan_digits fold_left].
    rewrite (digit_of_digit_char d Hd).
    destruct (Z.ltb_spec d 10); [|lia]. rewrite IH. now destruct ds.
Qed.

Lemma strtoumax_numeral_then d ds c rest :
  1 <= d <= 9 -> Forall (fun x => 0 <= x <= 9) ds ->
  (forall x, digit_of c = Some x -> 10 <= x) ->
  let n := value_of (d :: ds) in
  strtoumax_0 (numeral (d :: ds) ++ String.String c rest)
  = if n >? UINTMAX_MAX
    then mkConversion UINTMAX_MAX (String.String c rest) true true
    else mkConversion n (String.String c rest) true false.
Proof.
  intros Hd Hds Hc n.
  assert (Hscan : scan_digits 10 0 false
                    (numeral (d :: ds) ++ String.String c rest)
                  = (n, true, String.String c rest)).
  { rewrite scan_digits_stops; [reflexivity| |assumption].
    constructor; [lia | assumption]. }
  cbn [numeral append] in *.
  rewrite strtoumax_0_decimal, Hscan; [reflexivity| | | |];
    assert (Hd' : 0 <= d <= 9) by lia;
    destruct (digit_cases d Hd')
      as [->|[->|[->|[->|[->|[->|[->|[->|[->| ->]]]]]]]]];
    try lia; reflexivity.
Qed.

(** X6.  The check for trailing characters is made for a non-zero value
    only.  After a 0, a character that is neither an octal digit nor an x
    is accepted with all that follows it, and [parse_uint64] returns 0;
    after a decimal numeral that does not start with 0, a character that
    is no digit makes the program exit with [EXIT_FAILURE]. *)
Theorem trailing_characters_pass_after_zero c rest msg p :
  is_x c = false ->
  (forall x, digit_of c = Some x -> 8 <= x) ->
  parse_uint64 (String.String "0" (String.String c rest)) msg p
  = Some (Ret 0, p)
  /\ ((forall x, digit_of c = Some x -> 10 <= x) ->
      forall d ds,
        1 <= d <= 9 -> Forall (fun x => 0 <= x <= 9) ds ->
        exists p',
          parse_uint64 (numeral (d :: ds) ++ String.String c rest) msg p
          = Some (Exit EXIT_FAILURE, p')).
Proof.
  intros Hx Hc. split.
  - rewrite parse_uint64_unfold.
    assert (Hcv : strtoumax_0 (String.String "0" (String.String c rest))
                  = mkConversion 0 (String.String c rest) true false).
    { unfold strtoumax_0. cbn [skip_spaces].
      change (isspace "0") with false. cbv iota.
      change (Ascii.eqb "0" "-") with false. cbv iota.
      change (Ascii.eqb "0" "+") with false. cbv iota.
      change (Ascii.eqb "0" "0") with true. cbv iota. rewrite Hx.
      cbn [scan_digits]. change (digit_of "0") with (Some 0).
      cbv iota. change (0 <? 8) with true. cbv iota.
      destruct (digit_of c) as [x|] eqn:Ex; [|reflexivity].
      specialize (Hc x eq_refl). destruct (Z.ltb_spec x 8); [lia|].
      reflexivity. }
    rewrite Hcv. reflexivity.
  - intros Hc' d ds Hd Hds.
    pose proof (value_of_positive d ds Hd Hds) as Hpos.
    rewrite parse_uint64_unfold,
      (strtoumax_numeral_then d ds c rest Hd Hds Hc').
    cbv zeta. unfold UINTMAX_MAX, UINT64_MAX.
    destruct (Z.gtb_spec (value_of (d :: ds)) (2 ^ 64 - 1)).
    + cbn [cv_value cv_rest cv_moved cv_erange with_world p_world set_errno
           w_errno].
      rewrite !Z.eqb_refl. cbn [andb]. eexists. reflexivity.
    + cbn [cv_value cv_rest cv_moved cv_erange].
      destruct (_ && _); [eexists; reflexivity|].
      destruct (Z.eqb_spec (value_of (d :: ds)) 0); [lia|].
      cbn [negb andb]. eexists. reflexivity.
Qed.

Lemma trailing_characters_pass_after_zero_witness :
  let p := boot (start (pattern 4) [] []) false (mkStat 1 2 3 4 5)
                (mkStat 6 7 8 9 10) in
  parse_uint64 "08" "Failed to parse SRC_OFFSET: %s" p = Some (Ret 0, p).
Proof.
  intros p.
  refine (proj1 (trailing_characters_pass_after_zero "8" String.EmptyString _ p
                   _ _)).
  - reflexivity.
  - intros x H. vm_compute in H. injection H as <-. lia.
Defined.

(** ** The monad of the program *)

Lemma pbind_ret {A B} (m : P A) (k : A -> P B) p b p' :
  pbind m k p = Some (Ret b, p') ->
  exists a p1, m p = Some (Ret a, p1) /\ k a p1 = Some (Ret b, p').
Proof.
  unfold pbind. destruct (m p) as [[[a|status|] p1]|]; try discriminate.
  intros H. now exists a, p1.
Qed.

Lemma pbind_cases {A B} (m : P A) (k : A -> P B) p out p' :
  pbind m k p = Some (out, p') ->
  (exists a p1, m p = Some (Ret a, p1) /\ k a p1 = Some (out, p'))
  \/ (exists status, m p = Some (Exit status, p') /\ out = Exit status)
  \/ (m p = Some (Abort, p') /\ out = Abort).
Proof.
  unfold pbind. destruct (m p) as [[[a|status|] p1]|]; try discriminate.
  - intros H. left. now exists a, p1.
  - intros [= <- <-]. right. left. now exists status.
  - intros [= <- <-]. right. right. now split.
Qed.

(** ** [parse_options] *)

Lemma has_flag_lor m k f :
  has_flag (Z.lor m k) f = has_flag m f || has_flag k f.
Proof.
  unfold has_flag. rewrite Z.land_lor_distr_l.
  destruct (Z.eqb_spec (Z.lor (Z.land m f) (Z.land k f)) 0) as [H|H].
  - apply Z.lor_eq_0_iff in H. destruct H as [-> ->]. reflexivity.
  - destruct (Z.eqb_spec (Z.land m f) 0) as [Hm|Hm];
      destruct (Z.eqb_spec (Z.land k f) 0) as [Hk|Hk]; try reflexivity.
    exfalso. apply H. apply Z.lor_eq_0_iff. now split.
Qed.

Lemma preserve_mode_cases m :
  0 <= m <= 7 ->
  m = 0 \/ m = 1 \/ m = 2 \/ m = 3 \/ m = 4 \/ m = 5 \/ m = 6 \/ m = 7.
Proof. lia. Qed.

Lemma preserve_mode_lor m k :
  0 <= m <= 7 -> 0 <= k <= 7 -> 0 <= Z.lor m k <= 7.
Proof.
  intros Hm Hk.
  destruct (preserve_mode_cases m Hm) as [->|[->|[->|[->|[->|[->|[->| ->]]]]]]];
    destruct (preserve_mode_cases k Hk)
      as [->|[->|[->|[->|[->|[->|[->| ->]]]]]]];
    cbn; lia.
Qed.

Ltac option_done :=
  cbn; repeat split; rewrite ?orb_false_r, ?orb_true_r;
  try reflexivity; try lia;
  try (rewrite ?has_flag_lor; cbn;
       destruct (has_flag (preserve_mode _) _); reflexivity);
  try (apply preserve_mode_lor;
       [assumption
       |unfold PRESERVE_MODE_ALL, PRESERVE_MODE_OWNER, PRESERVE_MODE_TIMES,
          PRESERVE_MODE_PERMS; cbn; lia]).

(** What one option does to the operation. *)
Lemma parse_option_ret opt optarg o p o' p' :
  parse_option opt optarg o p = Some (Ret o', p') ->
  p' = p
  /\ block_size o' = block_size o
  /\ src_filename o' = src_filename o /\ dst_filename o' = dst_filename o
  /\ src_fd o' = src_fd o /\ dst_fd o' = dst_fd o
  /\ fallback_copy o' = fallback_copy o || Ascii.eqb opt "c"
  /\ force o' = force o || Ascii.eqb opt "f"
  /\ has_flag (preserve_mode o') PRESERVE_MODE_OWNER
     = has_flag (preserve_mode o) PRESERVE_MODE_OWNER
       || Ascii.eqb opt "a" || Ascii.eqb opt "o"
  /\ has_flag (preserve_mode o') PRESERVE_MODE_TIMES
     = has_flag (preserve_mode o) PRESERVE_MODE_TIMES
       || Ascii.eqb opt "a" || Ascii.eqb opt "t"
  /\ has_flag (preserve_mode o') PRESERVE_MODE_PERMS
     = has_flag (preserve_mode o) PRESERVE_MODE_PERMS
       || Ascii.eqb opt "a" || Ascii.eqb opt "p"
  /\ (0 <= preserve_mode o <= 7 -> 0 <= preserve_mode o' <= 7)
  /\ clone_mode o'
     = (if Ascii.eqb opt "d" || Ascii.eqb opt "l" || Ascii.eqb opt "s"
        then CLONE_MODE_RANGE else clone_mode o)
  /\ (if Ascii.eqb opt "s" then 0 <= src_offset o' < 2 ^ 64
      else src_offset o' = src_offset o)
  /\ (if Ascii.eqb opt "l" then 0 <= src_length o' < 2 ^ 64
      else src_length o' = src_length o)
  /\ (if Ascii.eqb opt "d" then 0 <= dst_offset o' < 2 ^ 64
      else dst_offset o' = dst_offset o)
  /\ Ascii.eqb opt "?" = false.
Proof.
  unfold parse_option.
  destruct (Ascii.eqb opt "a") eqn:Ea;
    [apply Ascii.eqb_eq in Ea; subst opt; intros [= <- <-]; option_done|].
  destruct (Ascii.eqb opt "c") eqn:Ec;
    [apply Ascii.eqb_eq in Ec; subst opt; intros [= <- <-]; option_done|].
  destruct (Ascii.eqb opt "d") eqn:Ed.
  { apply Ascii.eqb_eq in Ed. subst opt. intros H.
    apply pbind_ret in H. destruct H as (v & p1 & Hv & H).
    apply parse_uint64_ret in Hv. destruct Hv as (-> & Hr & _).
    injection H as <- <-. option_done. }
  destruct (Ascii.eqb opt "f") eqn:Ef;
    [apply Ascii.eqb_eq in Ef; subst opt; intros [= <- <-]; option_done|].
  destruct (Ascii.eqb opt "l") eqn:El.
  { apply Ascii.eqb_eq in El. subst opt. intros H.
    apply pbind_ret in H. destruct H as (v & p1 & Hv & H).
    apply parse_uint64_ret in Hv. destruct Hv as (-> & Hr & _).
    injection H as <- <-. option_done. }
  destruct (Ascii.eqb opt "o") eqn:Eo;
    [apply Ascii.eqb_eq in Eo; subst opt; intros [= <- <-]; option_done|].
  destruct (Ascii.eqb opt "p") eqn:Ep;
    [apply Ascii.eqb_eq in Ep; subst opt; intros [= <- <-]; option_done|].
  destruct (Ascii.eqb opt "s") eqn:Es.
  { apply Ascii.eqb_eq in Es. subst opt. intros H.
    apply pbind_ret in H. destruct H as (v & p1 & Hv & H).
    apply parse_uint64_ret in Hv. destruct Hv as (-> & Hr & _).
    injection H as <- <-. option_done. }
  destruct (Ascii.eqb opt "t") eqn:Et;
    [apply Ascii.eqb_eq in Et; subst opt; intros [= <- <-]; option_done|].
  destruct (Ascii.eqb opt "?") eqn:Eq; [discriminate|].
  intros [= <- <-]. option_done.
Qed.

Lemma decoded_nil o : decoded [] o o.
Proof. constructor; cbn; rewrite ?orb_false_r; auto. Qed.

Lemma decoded_one opt optarg o p o' p' :
  parse_option opt optarg o p = Some (Ret o', p') ->
  p' = p /\ decoded [(opt, optarg)] o o'.
Proof.
  intros H. apply parse_option_ret in H.
  destruct H as (Hp & H1 & H2 & H3 & H4 & H5 & H6 & H7 & Ho & Ht & Hm & H9
                 & H10 & H11 & H12 & H13 & H14).
  split; [assumption|].
  constructor; unfold given; cbn [existsb fst]; rewrite ?orb_false_r;
    assumption.
Qed.

Lemma decoded_cons x opts o o1 o' :
  decoded [x] o o1 -> decoded opts o1 o' -> decoded (x :: opts) o o'.
Proof.
  intros [A1 A2 A3 A4 A5 A6 A7 A8 A9 A10 A11 A12 A13 A14 A15 A16]
         [B1 B2 B3 B4 B5 B6 B7 B8 B9 B10 B11 B12 B13 B14 B15 B16].
  constructor; try congruence; try (now auto);
    unfold given in *; cbn [existsb fst] in *; rewrite ?orb_false_r in *;
    set (xa := Ascii.eqb (fst x) "a") in *;
    set (xc := Ascii.eqb (fst x) "c") in *;
    set (xd := Ascii.eqb (fst x) "d") in *;
    set (xf := Ascii.eqb (fst x) "f") in *;
    set (xl := Ascii.eqb (fst x) "l") in *;
    set (xo := Ascii.eqb (fst x) "o") in *;
    set (xp := Ascii.eqb (fst x) "p") in *;
    set (xs := Ascii.eqb (fst x) "s") in *;
    set (xt := Ascii.eqb (fst x) "t") in *;
    set (xq := Ascii.eqb (fst x) "?") in *;
    set (ga := existsb (fun oa => Ascii.eqb (fst oa) "a") opts) in *;
    set (gc := existsb (fun oa => Ascii.eqb (fst oa) "c") opts) in *;
    set (gd := existsb (fun oa => Ascii.eqb (fst oa) "d") opts) in *;
    set (gf := existsb (fun oa => Ascii.eqb (fst oa) "f") opts) in *;
    set (gl := existsb (fun oa => Ascii.eqb (fst oa) "l") opts) in *;
    set (go := existsb (fun oa => Ascii.eqb (fst oa) "o") opts) in *;
    set (gp := existsb (fun oa => Ascii.eqb (fst oa) "p") opts) in *;
    set (gs := existsb (fun oa => Ascii.eqb (fst oa) "s") opts) in *;
    set (gt := existsb (fun oa => Ascii.eqb (fst oa) "t") opts) in *;
    set (gq := existsb (fun oa => Ascii.eqb (fst oa) "?") opts) in *;
    clearbody xa xc xd xf xl xo xp xs xt xq ga gc gd gf gl go gp gs gt gq.
  - rewrite B6, A6. now rewrite orb_assoc.
  - rewrite B7, A7. now rewrite orb_assoc.
  - rewrite B8, A8.
    destruct (has_flag (preserve_mode o) PRESERVE_MODE_OWNER), xa, xo, ga, go;
      reflexivity.
  - rewrite B9, A9.
    destruct (has_flag (preserve_mode o) PRESERVE_MODE_TIMES), xa, xt, ga, gt;
      reflexivity.
  - rewrite B10, A10.
    destruct (has_flag (preserve_mode o) PRESERVE_MODE_PERMS), xa, xp, ga, gp;
      reflexivity.
  - rewrite B12, A12. destruct xd, xl, xs, gd, gl, gs; reflexivity.
  - destruct xs, gs; cbn [orb]; congruence.
  - destruct xl, gl; cbn [orb]; congruence.
  - destruct xd, gd; cbn [orb]; congruence.
  - now rewrite A16, B16.
Qed.

Lemma parse_option_loop_ret opts :
  forall o p o' p',
    parse_option_loop opts o p = Some (Ret o', p') ->
    p' = p /\ decoded opts o o'.
Proof.
  induction opts as [|[opt optarg] opts IH]; intros o p o' p' H.
  - injection H as <- <-. split; [reflexivity | apply decoded_nil].
  - cbn [parse_option_loop] in H. apply pbind_ret in H.
    destruct H as (o1 & p1 & H1 & H).
    apply decoded_one in H1. destruct H1 as [-> D1].
    apply IH in H. destruct H as [-> D].
    split; [reflexivity|]. now apply decoded_cons with o1.
Qed.

(** A turn of the option loop returns or exits. *)
Lemma parse_option_total opt optarg o p :
  (exists o', parse_option opt optarg o p = Some (Ret o', p))
  \/ (exists p',
        parse_option opt optarg o p = Some (Exit EXIT_FAILURE, p')
        /\ untouched p p').
Proof.
  assert (Hnum : forall msg (f : Z -> operation_t),
             (exists o', (v <- parse_uint64 optarg msg ;; pret (f v)) p
                         = Some (Ret o', p))
             \/ (exists p', (v <- parse_uint64 optarg msg ;; pret (f v)) p
                            = Some (Exit EXIT_FAILURE, p')
                            /\ untouched p p')).
  { intros msg f. unfold pbind.
    destruct (parse_uint64_total optarg msg p) as [[v ->]|(p' & -> & Hp')].
    - left. now eexists.
    - right. now exists p'. }
  unfold parse_option.
  repeat match goal with
         | |- context [if Ascii.eqb opt ?c then _ else _] =>
             destruct (Ascii.eqb opt c)
         end;
    try (left; eexists; reflexivity);
    try apply Hnum.
  right. eexists. split; [reflexivity | apply untouched_usage].
Qed.

Lemma parse_option_loop_total opts :
  forall o p,
    (exists o', parse_option_loop opts o p = Some (Ret o', p))
    \/ (exists p',
          parse_option_loop opts o p = Some (Exit EXIT_FAILURE, p')
          /\ untouched p p').
Proof.
  induction opts as [|[opt optarg] opts IH]; intros o p.
  - left. now exists o.
  - cbn [parse_option_loop]. unfold pbind.
    destruct (parse_option_total opt optarg o p) as [[o1 ->]|(p' & -> & Hp')].
    + apply IH.
    + right. now exists p'.
Qed.

Lemma parse_options_unfold opts args o p :
  parse_options opts args o p
  = match parse_option_loop opts o p with
    | Some (Ret o, p1) =>
        match args with
        | [] => print_usage_and_exit
                  (Some "Required SRC and DST filenames missing."%string) p1
        | [_] => print_usage_and_exit
                   (Some "Required DST filename missing."%string) p1
        | src :: dst :: _ =>
            if empty_name (Some src)
            then print_usage_and_exit
                   (Some "Source filename is an empty string."%string) p1
            else if empty_name (Some dst)
            then print_usage_and_exit
                   (Some "Destination filename is an empty string."%string) p1
            else Some (Ret (set_filenames (Some src) (Some dst) o), p1)
        end
    | Some (Exit status, p1) => Some (Exit status, p1)
    | Some (Abort, p1) => Some (Abort, p1)
    | None => None
    end.
Proof.
  unfold parse_options, AS, pbind, pret.
  destruct (parse_option_loop opts o p) as [[[o1|status|] p1]|];
    try reflexivity.
  destruct args as [|src [|dst rest]]; try reflexivity.
  cbn [src_filename dst_filename set_filenames].
  destruct (empty_name (Some src)); [reflexivity|].
  destruct (empty_name (Some dst)); reflexivity.
Qed.

(** [parse_options] returns, or the program exits with [EXIT_FAILURE]. *)
Lemma parse_options_total opts args p :
  (exists o, parse_options opts args initial_operation p = Some (Ret o, p))
  \/ (exists p',
        parse_options opts args initial_operation p
        = Some (Exit EXIT_FAILURE, p')
        /\ untouched p p').
Proof.
  rewrite parse_options_unfold.
  destruct (parse_option_loop_total opts initial_operation p)
    as [[o1 Hloop]|(p1 & Hloop & Hp1)]; rewrite Hloop; [|right; now exists p1].
  unfold print_usage_and_exit.
  assert (Hexit : forall m,
             exists p',
               Some (@Exit operation_t EXIT_FAILURE,
                     with_call (Stderr (MsgUsage m)) p)
               = Some (Exit EXIT_FAILURE, p')
               /\ untouched p p').
  { intros m. eexists. split; [reflexivity | apply untouched_usage]. }
  destruct args as [|src [|dst rest]]; try (right; apply Hexit).
  destruct (empty_name (Some src)); [right; apply Hexit|].
  destruct (empty_name (Some dst)); [right; apply Hexit|].
  left. eexists. reflexivity.
Qed.

(** The operation that [parse_options] returns. *)
Lemma parse_options_ret opts args p o p' :
  parse_options opts args initial_operation p = Some (Ret o, p') ->
  p' = p
  /\ (exists src dst rest,
        args = src :: dst :: rest
        /\ src <> String.EmptyString /\ dst <> String.EmptyString
        /\ src_filename o = Some src /\ dst_filename o = Some dst)
  /\ block_size o = 8192 /\ src_fd o = -1 /\ dst_fd o = -1
  /\ fallback_copy o = given "c" opts
  /\ force o = given "f" opts
  /\ has_flag (preserve_mode o) PRESERVE_MODE_OWNER
     = given "a" opts || given "o" opts
  /\ has_flag (preserve_mode o) PRESERVE_MODE_TIMES
     = given "a" opts || given "t" opts
  /\ has_flag (preserve_mode o) PRESERVE_MODE_PERMS
     = given "a" opts || given "p" opts
  /\ 0 <= preserve_mode o <= 7
  /\ clone_mode o
     = (if given "d" opts || given "l" opts || given "s" opts
        then CLONE_MODE_RANGE else CLONE_MODE_FILE)
  /\ 0 <= src_offset o < 2 ^ 64 /\ 0 <= src_length o < 2 ^ 64
  /\ 0 <= dst_offset o < 2 ^ 64
  /\ (given "s" opts = false -> src_offset o = 0)
  /\ (given "l" opts = false -> src_length o = 0)
  /\ (given "d" opts = false -> dst_offset o = 0).
Proof.
  rewrite parse_options_unfold.
  destruct (parse_option_loop_total opts initial_operation p)
    as [[o1 Hloop]|(p1 & Hloop & _)]; rewrite Hloop; [|discriminate].
  apply parse_option_loop_ret in Hloop as Hdec. destruct Hdec as [_ Hdec].
  destruct Hdec as [B1 B2 B3 B4 B5 B6 B7 B8 B9 B10 B11 B12 B13 B14 B15 B16].
  cbn in B1, B4, B5, B6, B7, B8, B9, B10, B12, B13, B14, B15.
  unfold print_usage_and_exit. intros H.
  destruct args as [|src [|dst rest]]; try discriminate H.
  destruct (empty_name (Some src)) eqn:Es; [discriminate H|].
  destruct (empty_name (Some dst)) eqn:Ed; [discriminate H|].
  injection H as <- <-. cbn [set_filenames block_size src_filename
    dst_filename src_fd dst_fd fallback_copy force preserve_mode clone_mode
    src_offset src_length dst_offset].
  split; [reflexivity|]. split.
  { exists src, dst, rest. split; [reflexivity|].
    split; [now destruct src|]. split; [now destruct dst|]. now split. }
  assert (Hpm : 0 <= preserve_mode o1 <= 7)
    by (apply B11; unfold initial_operation, PRESERVE_MODE_DEFAULT,
          PRESERVE_MODE_NONE; cbn; lia).
  repeat (split; [assumption|]).
  revert B13 B14 B15.
  destruct (given "s" opts), (given "l" opts), (given "d" opts);
    intros B13 B14 B15; repeat split; try lia; try discriminate.
Qed.

(** X7.  What [parse_options] makes of the command line.  It returns or
    the program exits with [EXIT_FAILURE]; it exits when [getopt] reports
    an unknown option or fewer than two arguments are left.  When it
    returns, the process is as it was, and the operation is decoded from
    the options that occur, whatever their order and number: [-c] and
    [-f] set the fallback and the force; the ownership is preserved with
    [-o] or [-a], the times with [-t] or [-a], the mode with [-p] or
    [-a], and no other bit is set; the clone is that of a range as soon
    as one of [-s], [-l], [-d] occurs, of the whole file otherwise; the
    numbers fit 64 bits and are 0 when not given; the source and the
    destination are the first two arguments left, not empty, the others
    being ignored; the block size is 8192 and no file is open. *)
Theorem parse_options_result opts args p :
  ((exists o, parse_options opts args initial_operation p = Some (Ret o, p))
   \/ (exists p',
         parse_options opts args initial_operation p
         = Some (Exit EXIT_FAILURE, p')))
  /\ (given "?" opts = true \/ (List.length args < 2)%nat ->
      exists p',
        parse_options opts args initial_operation p
        = Some (Exit EXIT_FAILURE, p'))
  /\ forall o p',
       parse_options opts args initial_operation p = Some (Ret o, p') ->
       p' = p
       /\ (exists src dst rest,
             args = src :: dst :: rest
             /\ src <> String.EmptyString /\ dst <> String.EmptyString
             /\ src_filename o = Some src /\ dst_filename o = Some dst)
       /\ block_size o = 8192 /\ src_fd o = -1 /\ dst_fd o = -1
       /\ fallback_copy o = given "c" opts
       /\ force o = given "f" opts
       /\ has_flag (preserve_mode o) PRESERVE_MODE_OWNER
          = given "a" opts || given "o" opts
       /\ has_flag (preserve_mode o) PRESERVE_MODE_TIMES
          = given "a" opts || given "t" opts
       /\ has_flag (preserve_mode o) PRESERVE_MODE_PERMS
          = given "a" opts || given "p" opts
       /\ 0 <= preserve_mode o <= 7
       /\ clone_mode o
          = (if given "d" opts || given "l" opts || given "s" opts
             then CLONE_MODE_RANGE else CLONE_MODE_FILE)
       /\ 0 <= src_offset o < 2 ^ 64 /\ 0 <= src_length o < 2 ^ 64
       /\ 0 <= dst_offset o < 2 ^ 64
       /\ (given "s" opts = false -> src_offset o = 0)
       /\ (given "l" opts = false -> src_length o = 0)
       /\ (given "d" opts = false -> dst_offset o = 0).
Proof.
  split.
  { destruct (parse_options_total opts args p) as [Hret|(p' & Hexit & _)];
      [now left | right; now exists p']. }
  split.
  - intros Hend. rewrite parse_options_unfold.
    destruct (parse_option_loop_total opts initial_operation p)
      as [[o1 Hloop]|(p1 & Hloop & _)]; rewrite Hloop; [|now exists p1].
    apply parse_option_loop_ret in Hloop as [_ Hdec].
    destruct Hend as [Hq|Hargs]; [destruct Hdec; congruence|].
    unfold print_usage_and_exit.
    destruct args as [|src [|dst rest]]; try (eexists; reflexivity).
    cbn in Hargs. lia.
  - intros o p'. apply parse_options_ret.
Qed.

Lemma parse_options_result_witness :
  let p := boot (start (pattern 4) [] []) false (mkStat 1 2 3 4 5)
                (mkStat 6 7 8 9 10) in
  exists o,
    parse_options [("a"%char, String.EmptyString);
                   ("s"%char, "4096"%string);
                   ("f"%char, String.EmptyString)]
                  ["in"; "out"; "more"]%string initial_operation p
    = Some (Ret o, p)
    /\ clone_mode o = CLONE_MODE_RANGE /\ force o = true
    /\ has_flag (preserve_mode o) PRESERVE_MODE_TIMES = true
    /\ src_length o = 0.
Proof.
  intros p.
  destruct (parse_options_result
              [("a"%char, String.EmptyString); ("s"%char, "4096"%string);
               ("f"%char, String.EmptyString)]
              ["in"; "out"; "more"]%string p) as ([[o Hrun]|[p' Hrun]] & _ & H).
  - exists o. split; [exact Hrun|].
    destruct (H o p Hrun)
      as (_ & _ & _ & _ & _ & _ & Hf & _ & Ht & _ & _ & Hc & _ & _ & _ & _
          & Hl & _).
    split; [exact Hc|]. split; [exact Hf|]. split; [exact Ht|].
    apply Hl. reflexivity.
  - exfalso. vm_compute in Hrun. discriminate Hrun.
Defined.

(** ** The calls of cpr.c *)

Lemma same_files_refl p : same_files p p.
Proof.
  constructor; try reflexivity.
  - now exists 0%nat.
  - exists []. now rewrite app_nil_r.
Qed.

Lemma same_files_trans p1 p2 p3 :
  same_files p1 p2 -> same_files p2 p3 -> same_files p1 p3.
Proof.
  intros [A1 A2 A3 [c1 A4] A5 [cs1 A6]] [B1 B2 B3 [c2 B4] B5 [cs2 B6]].
  constructor; try congruence.
  - exists (c1 + c2)%nat. rewrite B4, A4, skipn_skipn. f_equal. lia.
  - exists (cs1 ++ cs2). now rewrite B6, A6, app_assoc.
Qed.

Lemma same_files_answered c e p : same_files p (answered c e p).
Proof.
  constructor; try reflexivity.
  - now exists 1%nat.
  - now exists [c].
Qed.

Lemma same_files_with_call c p : same_files p (with_call c p).
Proof.
  constructor; try reflexivity.
  - now exists 0%nat.
  - now exists [c].
Qed.

Lemma same_files_with_fds fds p p1 :
  same_files p p1 -> same_files p (with_fds fds p1).
Proof. intros [A1 A2 A3 A4 A5 A6]. now constructor. Qed.

(** The two ways a call of cpr.c with no result but success ends. *)
Lemma simple_call_cases c effect p :
  (exists e,
      hd Full (w_oracle (p_world p)) = Fail e
      /\ simple_call c effect p = Some (Ret (-1), answered c (Z.pos e) p))
  \/ ((forall e, hd Full (w_oracle (p_world p)) <> Fail e)
      /\ simple_call c effect p
         = Some (Ret 0, effect (answered c (w_errno (p_world p)) p))).
Proof.
  unfold simple_call, pbind, made, answer, pop_oracle, put_errno, pret.
  cbn [with_call p_world].
  destruct (hd Full (w_oracle (p_world p))) as [|cap|e] eqn:E.
  - right. split; [discriminate | reflexivity].
  - right. split; [discriminate | reflexivity].
  - left. exists e. split; reflexivity.
Qed.

(** [check] turns the -1 of a failed call into the error number, which
    is positive, and reports it. *)
Lemma check_failed c e p m :
  check (-1) m (answered c (Z.pos e) p)
  = Some (Ret (Z.pos e), with_call (Stderr (m (Z.pos e)))
                           (answered c (Z.pos e) p)).
Proof. destruct p as [[src dst err tr orc] ex s1 s2 fds calls]. reflexivity. Qed.

Lemma check_ok m p : check 0 m p = Some (Ret 0, p).
Proof. reflexivity. Qed.

(** ** [close_files] *)

Lemma close_spec fd p :
  exists rc p',
    close fd p = Some (Ret rc, p')
    /\ same_files p p'
    /\ p_src_stat p' = p_src_stat p /\ p_dst_stat p' = p_dst_stat p
    /\ p_fds p' = filter (fun x => negb (x =? fd)) (p_fds p).
Proof.
  unfold close, pbind.
  destruct (simple_call_cases (SysClose fd) (fun p => p) p)
    as [(e & _ & ->)|(_ & ->)]; eexists _, _;
    (split; [reflexivity|]);
    (split; [apply same_files_with_fds, same_files_answered|]);
    repeat split.
Qed.

Lemma close_files_spec o p :
  exists rc p',
    close_files o p = Some (Ret rc, p')
    /\ same_files p p'
    /\ p_src_stat p' = p_src_stat p /\ p_dst_stat p' = p_dst_stat p
    /\ (forall x,
          In x (p_fds p') <->
          In x (p_fds p)
          /\ ~ (0 <= src_fd o /\ x = src_fd o)
          /\ ~ (0 <= dst_fd o /\ x = dst_fd o)).
Proof.
  unfold close_files, pbind.
  assert (Hfilter : forall fd (l : list Z) x,
             In x (filter (fun y => negb (y =? fd)) l) <-> In x l /\ x <> fd).
  { intros fd l x. rewrite filter_In.
    destruct (Z.eqb_spec x fd); cbn [negb]; intuition congruence. }
  destruct (Z.geb_spec (src_fd o) 0) as [Hs|Hs].
  - destruct (close_spec (src_fd o) p)
      as (rc1 & p1 & -> & F1 & S1 & D1 & Fd1).
    destruct (Z.geb_spec (dst_fd o) 0) as [Hd|Hd].
    + destruct (close_spec (dst_fd o) p1)
        as (rc2 & p2 & -> & F2 & S2 & D2 & Fd2).
      eexists _, _. split; [reflexivity|].
      split; [now apply same_files_trans with p1|].
      split; [congruence|]. split; [congruence|].
      intros x. rewrite Fd2, Hfilter, Fd1, Hfilter. intuition lia.
    + eexists _, _. split; [reflexivity|]. split; [assumption|].
      split; [assumption|]. split; [assumption|].
      intros x. rewrite Fd1, Hfilter. intuition lia.
  - unfold pret.
    destruct (Z.geb_spec (dst_fd o) 0) as [Hd|Hd].
    + destruct (close_spec (dst_fd o) p)
        as (rc2 & p2 & -> & F2 & S2 & D2 & Fd2).
      eexists _, _. split; [reflexivity|]. split; [assumption|].
      split; [assumption|]. split; [assumption|].
      intros x. rewrite Fd2, Hfilter. intuition lia.
    + eexists _, _. split; [reflexivity|]. split; [apply same_files_refl|].
      split; [reflexivity|]. split; [reflexivity|].
      intros x. intuition lia.
Qed.

(** ** [preserve_file_attrs] *)

Lemma pbind_step {A B} (m : P A) (k : A -> P B) p a p1 :
  m p = Some (Ret a, p1) -> pbind m k p = k a p1.
Proof. intros H. unfold pbind. now rewrite H. Qed.

Lemma pbind_pret {A B} (a : A) (k : A -> P B) p : pbind (pret a) k p = k a p.
Proof. reflexivity. Qed.

Lemma same_files_set_stat s p : same_files p (set_stat Dst s p).
Proof.
  constructor; try reflexivity.
  - now exists 0%nat.
  - exists []. cbn. now rewrite app_nil_r.
Qed.

Lemma same_files_fds fds p : same_files p (with_fds fds p).
Proof. apply same_files_with_fds, same_files_refl. Qed.

Ltac frames :=
  lazymatch goal with
  | |- same_files ?p ?p => apply same_files_refl
  | |- same_files ?p (answered _ _ ?x) =>
      apply same_files_trans with x; [frames | apply same_files_answered]
  | |- same_files ?p (with_call _ ?x) =>
      apply same_files_trans with x; [frames | apply same_files_with_call]
  | |- same_files ?p (set_stat Dst _ ?x) =>
      apply same_files_trans with x; [frames | apply same_files_set_stat]
  | |- same_files ?p (with_fds _ ?x) =>
      apply same_files_trans with x; [frames | apply same_files_fds]
  end.

(** One of the three optional calls of [preserve_file_attrs], with the
    report of its failure: it is skipped, it fails, or it succeeds. *)
Lemma optional_call_cases (flag : bool) c effect m rc p :
  let step := if (rc =? 0) && flag
              then rc' <- simple_call c effect ;; check rc' m
              else pret rc in
  ((rc <> 0 \/ flag = false) /\ step p = Some (Ret rc, p))
  \/ (rc = 0 /\ flag = true
      /\ exists e,
           step p
           = Some (Ret (Z.pos e),
                   with_call (Stderr (m (Z.pos e)))
                             (answered c (Z.pos e) p)))
  \/ (rc = 0 /\ flag = true
      /\ step p
         = Some (Ret 0, effect (answered c (w_errno (p_world p)) p))).
Proof.
  intros step. subst step.
  destruct (Z.eqb_spec rc 0) as [Hz|Hz]; cbn [andb].
  2:{ left. split; [now left | reflexivity]. }
  destruct flag.
  2:{ left. split; [now right | reflexivity]. }
  right. unfold pbind.
  destruct (simple_call_cases c effect p) as [(e & _ & ->)|(_ & ->)].
  - left. split; [assumption|]. split; [reflexivity|]. exists e.
    apply check_failed.
  - right. split; [assumption|]. split; reflexivity.
Qed.

Lemma fstat_cases h p :
  (exists e,
      fstat h p = Some (Ret (-1, get_stat h p), answered (SysFstat h)
                                                          (Z.pos e) p))
  \/ fstat h p
     = Some (Ret (0, get_stat h p),
             answered (SysFstat h) (w_errno (p_world p)) p).
Proof.
  unfold fstat, pbind.
  destruct (simple_call_cases (SysFstat h) (fun p => p) p)
    as [(e & _ & ->)|(_ & ->)]; [left; exists e|right];
    destruct h; reflexivity.
Qed.

(** The next optional call of [preserve_file_attrs]. *)
Ltac optional Hflag :=
  match goal with
  | |- context [pbind (if (?rc =? 0) && ?flag
                       then pbind (simple_call ?c ?eff)
                                  (fun r => check r ?m)
                       else pret ?rc) _ ?p] =>
      let H := fresh "Hstep" in
      let Hrc := fresh "Hrc" in
      let e := fresh "e" in
      destruct (optional_call_cases flag c eff m rc p)
        as [[Hflag H]|[(Hrc & Hflag & e & H)|(Hrc & Hflag & H)]];
      [destruct Hflag as [Hflag|Hflag]; [try (exfalso; lia)|]
      |try (exfalso; lia)
      |try (exfalso; lia)];
      rewrite (pbind_step _ _ _ _ _ H); clear H; cbv beta zeta
  end.

(** What [preserve_file_attrs] does, the two files being open. *)
Lemma preserve_file_attrs_spec o p :
  0 <= src_fd o -> 0 <= dst_fd o ->
  exists rc p',
    preserve_file_attrs o p = Some (Ret rc, p')
    /\ same_files p p' /\ p_fds p' = p_fds p
    /\ p_src_stat p' = p_src_stat p
    /\ 0 <= rc
    /\ (rc = 0 ->
        p_dst_stat p'
        = preserved (preserve_mode o) (p_src_stat p) (p_dst_stat p)).
Proof.
  intros Hs Hd. unfold preserve_file_attrs, AS.
  destruct (Z.geb_spec (src_fd o) 0); [|lia].
  destruct (Z.geb_spec (dst_fd o) 0); [|lia]. cbn [andb].
  rewrite !pbind_pret.
  unfold fchown, futimens, fchmod.
  destruct (fstat_cases Src p) as [[e Hf]|Hf];
    rewrite (pbind_step _ _ _ _ _ Hf); clear Hf; cbn [fst snd].
  - (* fstat fails: no other call is made *)
    rewrite (pbind_step _ _ _ _ _ (check_failed _ _ _ _)).
    optional Ho; optional Ht; optional Hm;
      eexists _, _; (split; [reflexivity|]);
      (split; [frames|]); repeat split; lia.
  - rewrite (pbind_step _ _ _ _ _ (check_ok _ _)).
    optional Ho; optional Ht; optional Hm;
      eexists _, _; (split; [reflexivity|]);
      (split; [frames|]); (split; [reflexivity|]);
      (split; [reflexivity|]); (split; [lia|]);
      try (intros Hrc'; discriminate Hrc');
      intros _; unfold preserved; rewrite Ho, Ht, Hm;
      destruct p as [w ex s1 [u g a m' md] fds calls]; reflexivity.
Qed.

(** ** [open_files] *)

(** The ways [open] ends. *)
Lemma open_cases h flags p :
  let c := SysOpen h flags in
  let p0 := answered c (w_errno (p_world p)) p in
  let there := match h with Src => true | Dst => p_dst_exists p end in
  (exists e,
      hd Full (w_oracle (p_world p)) = Fail e
      /\ open_ h flags p = Some (Ret (-1), answered c (Z.pos e) p))
  \/ ((forall e, hd Full (w_oracle (p_world p)) <> Fail e)
      /\ open_ h flags p
         = if there then
             if has_flag flags O_CREAT && has_flag flags O_EXCL
             then Some (Ret (-1), answered c EEXIST p)
             else Some (opened h (if has_flag flags O_TRUNC then []
                                  else f_data (get_file h (p_world p))) p0)
           else if has_flag flags O_CREAT then Some (opened h [] p0)
                else Some (Ret (-1), answered c ENOENT p)).
Proof.
  intros c p0 there. subst c p0 there.
  unfold open_, pbind, made, answer, pop_oracle, put_errno, pret.
  cbn [with_call p_world].
  destruct (hd Full (w_oracle (p_world p))) as [|cap|e] eqn:E.
  3:{ left. exists e. split; reflexivity. }
  all: right; split; [discriminate|];
    destruct h; cbn [p_dst_exists with_world with_call];
    try destruct (p_dst_exists p);
    repeat match goal with
           | |- context [if ?b then _ else _] => destruct b
           end; reflexivity.
Qed.

Lemma errno_answered c e p :
  errno (answered c e p) = Some (Ret e, answered c e p).
Proof. reflexivity. Qed.

Lemma after_open_answered c e p : after_open p (answered c e p).
Proof.
  constructor; try reflexivity.
  - now exists 1%nat.
  - now exists [c].
Qed.

Lemma after_open_with_call c p : after_open p (with_call c p).
Proof.
  constructor; try reflexivity.
  - now exists 0%nat.
  - now exists [c].
Qed.

Lemma after_open_trans p1 p2 p3 :
  after_open p1 p2 -> after_open p2 p3 -> after_open p1 p3.
Proof.
  intros [A1 A2 [c1 A3] A4 A5 [cs1 A6]] [B1 B2 [c2 B3] B4 B5 [cs2 B6]].
  constructor; try congruence.
  - exists (c1 + c2)%nat. rewrite B3, A3, skipn_skipn. f_equal. lia.
  - exists (cs1 ++ cs2). now rewrite B6, A6, app_assoc.
Qed.

Lemma after_open_opened_src c e p :
  after_open p (snd (opened Src (src_data p) (answered c e p))).
Proof.
  constructor; try reflexivity.
  - now exists 1%nat.
  - now exists [c].
Qed.

Lemma after_open_opened_dst c e data p :
  after_open p (snd (opened Dst data (answered c e p))).
Proof.
  constructor; try reflexivity.
  - now exists 1%nat.
  - now exists [c].
Qed.

Lemma same_request_refl o : same_request o o.
Proof. repeat split. Qed.

Lemma after_open_refl p : after_open p p.
Proof.
  constructor; try reflexivity.
  - now exists 0%nat.
  - exists []. now rewrite app_nil_r.
Qed.

Lemma opened_eq h data p :
  opened h data p = (Ret (next_fd p), snd (opened h data p)).
Proof. reflexivity. Qed.

Lemma errno_opened h data p :
  errno (snd (opened h data p))
  = Some (Ret (w_errno (p_world p)), snd (opened h data p)).
Proof. destruct h; reflexivity. Qed.

Lemma p_fds_opened h data p :
  p_fds (snd (opened h data p)) = p_fds p ++ [next_fd p].
Proof. destruct h; reflexivity. Qed.

Lemma next_fd_answered c e p : next_fd (answered c e p) = next_fd p.
Proof. reflexivity. Qed.

Lemma pbind_assoc {A B C} (m : P A) (k1 : A -> P B) (k2 : B -> P C) p :
  pbind (pbind m k1) k2 p = pbind m (fun a => pbind (k1 a) k2) p.
Proof. unfold pbind. now destruct (m p) as [[[a|status|] p1]|]. Qed.

Ltac opens :=
  lazymatch goal with
  | |- after_open ?p ?p => apply after_open_refl
  | |- after_open ?p (answered _ _ ?x) =>
      apply after_open_trans with x; [opens | apply after_open_answered]
  | |- after_open ?p (with_call _ ?x) =>
      apply after_open_trans with x; [opens | apply after_open_with_call]
  | |- after_open ?p (snd (opened Dst _ (answered _ _ ?x))) =>
      apply after_open_trans with x; [opens | apply after_open_opened_dst]
  end.

(** The end of [open_files], the destination not being open. *)
Lemma open_files_end_failed rc (o2 : operation_t) p2 :
  dst_fd o2 < 0 -> rc <> 0 ->
  (if dst_fd o2 <? 0
   then AS (negb (rc =? 0)) ;;; stderr (MsgOpenDst rc) ;;; pret (rc, o2)
   else pret (rc, o2)) p2
  = Some (Ret (rc, o2), with_call (Stderr (MsgOpenDst rc)) p2).
Proof.
  intros Hd Hrc. destruct (Z.ltb_spec (dst_fd o2) 0); [|lia].
  destruct (Z.eqb_spec rc 0); [contradiction|]. reflexivity.
Qed.

Lemma open_files_end_ok rc (o2 : operation_t) p2 :
  0 <= dst_fd o2 ->
  (if dst_fd o2 <? 0
   then AS (negb (rc =? 0)) ;;; stderr (MsgOpenDst rc) ;;; pret (rc, o2)
   else pret (rc, o2)) p2
  = Some (Ret (rc, o2), p2).
Proof.
  intros Hd. destruct (Z.ltb_spec (dst_fd o2) 0); [lia | reflexivity].
Qed.

(** What [open_files] does. *)
Lemma open_files_spec o p :
  exists out p',
    open_files o p = Some (out, p') /\ open_files_result o p out p'.
Proof.
  unfold open_files.
  destruct (open_cases Src O_RDONLY p) as [(e & He & Hopen)|(Hok & Hopen)];
    cbv zeta in Hopen.
  - rewrite (pbind_step _ _ _ _ _ Hopen). cbv beta zeta.
    cbn [src_fd set_src_fd]. change (-1 <? 0) with true. cbv iota.
    rewrite (pbind_step _ _ _ _ _ (errno_answered _ _ _)).
    unfold stderr, made, pret. cbn [pbind].
    eexists _, _. split; [reflexivity|]. split; [opens|].
    left. exists (Z.pos e), (set_src_fd (-1) o).
    split; [reflexivity|]. split; [now repeat split|].
    repeat split; cbn; lia.
  - change (has_flag O_RDONLY O_CREAT) with false in Hopen.
    change (has_flag O_RDONLY O_TRUNC) with false in Hopen.
    cbn [andb] in Hopen.
    set (p0 := answered (SysOpen Src O_RDONLY) (w_errno (p_world p)) p) in *.
    change (f_data (get_file Src (p_world p))) with (src_data p) in Hopen.
    assert (Hfd : fst (opened Src (src_data p) p0) = Ret (next_fd p))
      by reflexivity.
    pose proof (after_open_opened_src (SysOpen Src O_RDONLY)
                  (w_errno (p_world p)) p) as A1.
    fold p0 in A1.
    assert (F1 : p_fds (snd (opened Src (src_data p) p0))
                 = p_fds p ++ [next_fd p]) by reflexivity.
    assert (S1 : w_src (p_world (snd (opened Src (src_data p) p0)))
                 = mkFile (src_data p) 0) by reflexivity.
    assert (D1 : w_dst (p_world (snd (opened Src (src_data p) p0)))
                 = w_dst (p_world p)) by reflexivity.
    assert (E1 : p_dst_exists (snd (opened Src (src_data p) p0))
                 = p_dst_exists p) by reflexivity.
    assert (O1 : w_oracle (p_world (snd (opened Src (src_data p) p0)))
                 = tl (w_oracle (p_world p))) by reflexivity.
    destruct (opened Src (src_data p) p0) as [out1 p1].
    cbn [fst snd] in *. subst out1.
    rewrite (pbind_step _ _ _ _ _ Hopen). cbv beta zeta.
    cbn [src_fd set_src_fd clone_mode dst_fd set_dst_fd force].
    assert (Hn : 3 <= next_fd p) by (unfold next_fd; lia).
    destruct (Z.ltb_spec (next_fd p) 0); [lia|].
    clear Hopen p0.
    assert (Hnext : forall c e, next_fd (answered c e p1) = next_fd p + 1).
    { intros c e. unfold next_fd, answered. cbn [p_fds]. rewrite F1.
      rewrite length_app. cbn [List.length]. lia. }
    assert (A0 : forall p', after_open p1 p' -> after_open p p')
      by (intros p'; now apply after_open_trans).
    (* the end of the function when the destination is not open *)
    assert (Hfail : forall rc (o2 : operation_t) p2,
               dst_fd o2 < 0 -> 0 < rc -> same_request o o2 ->
               src_fd o2 = next_fd p ->
               after_open p1 p2 -> p_fds p2 = p_fds p1 ->
               w_dst (p_world p2) = w_dst (p_world p1) ->
               p_dst_exists p2 = p_dst_exists p1 ->
               exists out p',
                 (if dst_fd o2 <? 0
                  then AS (negb (rc =? 0)) ;;;
                       stderr (MsgOpenDst rc) ;;; pret (rc, o2)
                  else pret (rc, o2)) p2 = Some (out, p')
                 /\ open_files_result o p out p').
    { intros rc o2 p2 Hd Hrc Hreq Hsrc A2 F2 D2 E2.
      rewrite open_files_end_failed by lia.
      eexists _, _. split; [reflexivity|]. split.
      { apply A0. eapply after_open_trans;
          [exact A2 | apply after_open_with_call]. }
      right. left. exists rc, o2.
      split; [reflexivity|]. split; [assumption|]. split; [assumption|].
      split; [assumption|]. split; [assumption|].
      cbn [with_call p_fds p_world p_dst_exists].
      rewrite F2, D2, E2. now repeat split. }
    (* and when it is *)
    assert (Hdone : forall (o2 : operation_t) p2,
               dst_fd o2 = next_fd p + 1 -> same_request o o2 ->
               src_fd o2 = next_fd p ->
               after_open p1 p2 ->
               p_fds p2 = p_fds p1 ++ [next_fd p + 1] ->
               w_src (p_world p2) = w_src (p_world p1) ->
               w_dst (p_world p2)
               = mkFile (match clone_mode o with
                         | CLONE_MODE_FILE => []
                         | CLONE_MODE_RANGE =>
                             if p_dst_exists p then dst_data p else []
                         end) 0 ->
               p_dst_exists p2 = true ->
               (clone_mode o = CLONE_MODE_FILE ->
                p_dst_exists p = true -> force o = true) ->
               exists out p',
                 (if dst_fd o2 <? 0
                  then AS (negb (0 =? 0)) ;;;
                       stderr (MsgOpenDst 0) ;;; pret (0, o2)
                  else pret (0, o2)) p2 = Some (out, p')
                 /\ open_files_result o p out p').
    { intros o2 p2 Hd Hreq Hsrc A2 F2 S2 D2 E2 Himp.
      rewrite open_files_end_ok by lia.
      eexists _, _. split; [reflexivity|]. split; [now apply A0|].
      right. right. left. exists o2.
      split; [reflexivity|]. split; [assumption|]. split; [assumption|].
      split; [assumption|].
      rewrite F2, F1, <- app_assoc, S2, S1, D2, E2. now repeat split. }
    (* the second [open] of the destination, after [EEXIST] *)
    assert (Hforce : forall c e,
               clone_mode o = CLONE_MODE_FILE -> force o = true ->
               exists out p',
                 (ro <- (fd <- open_ Dst (Z.lor O_WRONLY O_TRUNC) ;;
                         e0 <- errno ;;
                         pret (if fd <? 0 then e0 else 0,
                               set_dst_fd fd
                                 (set_dst_fd (-1)
                                    (set_src_fd (next_fd p) o)))) ;;
                  (if dst_fd (snd ro) <? 0
                   then AS (negb (fst ro =? 0)) ;;;
                        stderr (MsgOpenDst (fst ro)) ;;;
                        pret (fst ro, snd ro)
                   else pret (fst ro, snd ro))) (answered c e p1)
                 = Some (out, p')
                 /\ open_files_result o p out p').
    { intros c e Em Ef. rewrite !pbind_assoc.
      destruct (open_cases Dst (Z.lor O_WRONLY O_TRUNC) (answered c e p1))
        as [(e2 & _ & Hopen)|(_ & Hopen)]; cbv zeta in Hopen.
      - rewrite (pbind_step _ _ _ _ _ Hopen). cbv beta zeta.
        rewrite !pbind_assoc.
        rewrite (pbind_step _ _ _ _ _ (errno_answered _ _ _)).
        cbv beta zeta. rewrite pbind_pret.
        cbn [fst snd]. change (-1 <? 0) with true. cbv iota.
        apply Hfail; try reflexivity; try lia; try (now repeat split).
        opens.
      - change (has_flag (Z.lor O_WRONLY O_TRUNC) O_CREAT) with false
          in Hopen.
        change (has_flag (Z.lor O_WRONLY O_TRUNC) O_TRUNC) with true in Hopen.
        cbn [andb] in Hopen.
        change (p_dst_exists (answered c e p1)) with (p_dst_exists p1)
          in Hopen.
        rewrite E1 in Hopen.
        destruct (p_dst_exists p) eqn:Ex.
        + rewrite opened_eq in Hopen.
          rewrite (pbind_step _ _ _ _ _ Hopen). cbv beta zeta.
          rewrite !pbind_assoc.
          rewrite (pbind_step _ _ _ _ _ (errno_opened _ _ _)).
          cbv beta zeta. rewrite pbind_pret. cbn [fst snd].
          change (next_fd (answered (SysOpen Dst (Z.lor O_WRONLY O_TRUNC))
                             (w_errno (p_world (answered c e p1)))
                             (answered c e p1)))
            with (next_fd (answered c e p1)).
          rewrite Hnext.
          destruct (Z.ltb_spec (next_fd p + 1) 0); [lia|].
          apply Hdone; try reflexivity; try (now repeat split);
            try opens;
            try (now rewrite p_fds_opened, next_fd_answered, Hnext);
            try (now rewrite Em); try (now intros).
        + rewrite (pbind_step _ _ _ _ _ Hopen). cbv beta zeta.
          rewrite !pbind_assoc.
          rewrite (pbind_step _ _ _ _ _ (errno_answered _ _ _)).
          cbv beta zeta. rewrite pbind_pret.
          cbn [fst snd]. change (-1 <? 0) with true. cbv iota.
          apply Hfail; try reflexivity; try (now repeat split);
            try (unfold ENOENT; cbn; lia).
          opens. }
    set (flags := match clone_mode o with
                  | CLONE_MODE_FILE => Z.lor (Z.lor O_WRONLY O_CREAT) O_EXCL
                  | CLONE_MODE_RANGE => Z.lor O_WRONLY O_CREAT
                  end).
    destruct (open_cases Dst flags p1) as [(e & He & Hopen)|(Hok1 & Hopen)];
      cbv zeta in Hopen.
    + (* the kernel fails the call *)
      rewrite (pbind_step _ _ _ _ _ Hopen). cbv beta zeta.
      rewrite (pbind_step _ _ _ _ _ (errno_answered _ _ _)). cbv beta zeta.
      change (-1 <? 0) with true. cbn [andb].
      assert (Hplain : exists out p',
                 (ro <- pret (Z.pos e,
                              set_dst_fd (-1) (set_src_fd (next_fd p) o)) ;;
                  (if dst_fd (snd ro) <? 0
                   then AS (negb (fst ro =? 0)) ;;;
                        stderr (MsgOpenDst (fst ro)) ;;;
                        pret (fst ro, snd ro)
                   else pret (fst ro, snd ro)))
                   (answered (SysOpen Dst flags) (Z.pos e) p1)
                 = Some (out, p')
                 /\ open_files_result o p out p').
      { rewrite pbind_pret. cbn [fst snd].
        apply Hfail; try reflexivity; try (now repeat split);
          try (cbn; lia).
        opens. }
      destruct (Z.eqb_spec (Z.pos e) EEXIST) as [Ee|Ee]; cbn [andb];
        [|exact Hplain].
      destruct (force o) eqn:Ef; [|exact Hplain].
      destruct (clone_mode o) eqn:Em.
      * unfold AS. rewrite pbind_assoc, pbind_pret. now apply Hforce.
      * eexists _, _. split; [reflexivity|]. split; [apply A0; opens|].
        right. right. right. split; [reflexivity|].
        split; [assumption|]. split; [assumption|].
        rewrite <- O1, He. f_equal. unfold EEXIST in Ee. congruence.
    + rewrite E1 in Hopen.
      destruct (clone_mode o) eqn:Em; subst flags;
        destruct (p_dst_exists p) eqn:Ex.
      * (* the whole file, and the destination exists *)
        change (has_flag (Z.lor (Z.lor O_WRONLY O_CREAT) O_EXCL) O_CREAT)
          with true in Hopen.
        change (has_flag (Z.lor (Z.lor O_WRONLY O_CREAT) O_EXCL) O_EXCL)
          with true in Hopen.
        cbn [andb] in Hopen.
        rewrite (pbind_step _ _ _ _ _ Hopen). cbv beta zeta.
        rewrite (pbind_step _ _ _ _ _ (errno_answered _ _ _)). cbv beta zeta.
        change (-1 <? 0) with true. rewrite Z.eqb_refl. cbn [andb].
        destruct (force o) eqn:Ef.
        -- unfold AS. rewrite pbind_assoc, pbind_pret. now apply Hforce.
        -- rewrite pbind_pret. cbn [fst snd].
           apply Hfail; try reflexivity; try (now repeat split);
             try (unfold EEXIST; cbn; lia).
           opens.
      * (* the whole file, and there is no destination *)
        change (has_flag (Z.lor (Z.lor O_WRONLY O_CREAT) O_EXCL) O_CREAT)
          with true in Hopen.
        rewrite opened_eq in Hopen.
        rewrite (pbind_step _ _ _ _ _ Hopen). cbv beta zeta.
        rewrite (pbind_step _ _ _ _ _ (errno_opened _ _ _)). cbv beta zeta.
        rewrite Hnext.
        destruct (Z.ltb_spec (next_fd p + 1) 0); [lia|]. cbn [andb].
        rewrite pbind_pret. cbn [fst snd].
        apply Hdone; try reflexivity; try (now repeat split);
          try opens;
          try (now rewrite p_fds_opened, Hnext);
          try (now rewrite Em); try (intros; congruence).
      * (* a range, and the destination exists *)
        change (has_flag (Z.lor O_WRONLY O_CREAT) O_CREAT) with true in Hopen.
        change (has_flag (Z.lor O_WRONLY O_CREAT) O_EXCL) with false in Hopen.
        change (has_flag (Z.lor O_WRONLY O_CREAT) O_TRUNC) with false
          in Hopen.
        cbn [andb] in Hopen.
        rewrite opened_eq in Hopen.
        rewrite (pbind_step _ _ _ _ _ Hopen). cbv beta zeta.
        rewrite (pbind_step _ _ _ _ _ (errno_opened _ _ _)). cbv beta zeta.
        rewrite Hnext.
        destruct (Z.ltb_spec (next_fd p + 1) 0); [lia|]. cbn [andb].
        rewrite pbind_pret. cbn [fst snd].
        apply Hdone; try reflexivity; try (now repeat split);
          try opens;
          try (now rewrite p_fds_opened, Hnext);
          try (intros; congruence).
        unfold dst_data. rewrite <- D1. reflexivity.
      * (* a range, and there is no destination *)
        change (has_flag (Z.lor O_WRONLY O_CREAT) O_CREAT) with true in Hopen.
        rewrite opened_eq in Hopen.
        rewrite (pbind_step _ _ _ _ _ Hopen). cbv beta zeta.
        rewrite (pbind_step _ _ _ _ _ (errno_opened _ _ _)). cbv beta zeta.
        rewrite Hnext.
        destruct (Z.ltb_spec (next_fd p + 1) 0); [lia|]. cbn [andb].
        rewrite pbind_pret. cbn [fst snd].
        apply Hdone; try reflexivity; try (now repeat split);
          try opens;
          try (now rewrite p_fds_opened, Hnext);
          try (now rewrite Em); try (intros; congruence).
Qed.

(** ** The end of [main] *)

Lemma fsync_cases p :
  (exists e,
      fsync Dst p = Some (Ret (-1), answered (SysFsync Dst) (Z.pos e) p))
  \/ fsync Dst p
     = Some (Ret 0, answered (SysFsync Dst) (w_errno (p_world p)) p).
Proof.
  unfold fsync.
  destruct (simple_call_cases (SysFsync Dst) (fun p => p) p)
    as [(e & _ & ->)|(_ & ->)]; [left; now exists e | now right].
Qed.

(** What [main] does after the clone, which returned [rc]. *)
Lemma run_tail rc (o : operation_t) q :
  (rc = 0 -> 0 <= src_fd o /\ 0 <= dst_fd o) ->
  exists status q',
    (rc <- (if rc =? 0 then preserve_file_attrs o else pret rc) ;;
     rc <- (if rc =? 0 then
              rc <- fsync Dst ;;
              if negb (rc =? 0) then
                rc <- errno ;;
                stderr (MsgSync rc) ;;;
                pret rc
              else pret rc
            else pret rc) ;;
     close_rc <- close_files o ;;
     rc <- (if negb (close_rc =? 0) then
              stderr (MsgClose close_rc) ;;;
              pret (if rc =? 0 then close_rc else rc)
            else pret rc) ;;
     pret (if rc =? 0 then EXIT_SUCCESS else EXIT_FAILURE)) q
    = Some (Ret status, q')
    /\ same_files q q'
    /\ p_src_stat q' = p_src_stat q
    /\ (status = EXIT_SUCCESS \/ status = EXIT_FAILURE)
    /\ (rc <> 0 -> status = EXIT_FAILURE /\ p_dst_stat q' = p_dst_stat q)
    /\ (status = EXIT_SUCCESS ->
        rc = 0
        /\ p_dst_stat q'
           = preserved (preserve_mode o) (p_src_stat q) (p_dst_stat q))
    /\ (forall x,
          In x (p_fds q') <->
          In x (p_fds q)
          /\ ~ (0 <= src_fd o /\ x = src_fd o)
          /\ ~ (0 <= dst_fd o /\ x = dst_fd o)).
Proof.
  intros Hfds.
  (* the attributes *)
  assert (H1 : exists rc1 q1,
             (if rc =? 0 then preserve_file_attrs o else pret rc) q
             = Some (Ret rc1, q1)
             /\ same_files q q1 /\ p_fds q1 = p_fds q
             /\ p_src_stat q1 = p_src_stat q
             /\ (rc <> 0 -> rc1 <> 0 /\ p_dst_stat q1 = p_dst_stat q)
             /\ (rc1 = 0 ->
                 rc = 0
                 /\ p_dst_stat q1
                    = preserved (preserve_mode o) (p_src_stat q)
                                (p_dst_stat q))).
  { destruct (Z.eqb_spec rc 0) as [Hz|Hz].
    - destruct (Hfds Hz) as [Hs Hd].
      destruct (preserve_file_attrs_spec o q Hs Hd)
        as (rc1 & q1 & Hrun & Hsame & Hf & Hst & _ & Hattr).
      exists rc1, q1. repeat (split; [assumption|]).
      split; [intros; contradiction|].
      intros Hrc1. split; [assumption|]. now apply Hattr.
    - exists rc, q. split; [reflexivity|]. split; [apply same_files_refl|].
      split; [reflexivity|]. split; [reflexivity|].
      split; [now split|]. intros; contradiction. }
  destruct H1 as (rc1 & q1 & Hrun1 & Hsame1 & Hf1 & Hs1 & Hkeep1 & Hattr1).
  rewrite (pbind_step _ _ _ _ _ Hrun1). cbv beta.
  (* the sync *)
  assert (H2 : exists rc2 q2,
             (if rc1 =? 0 then
                rc <- fsync Dst ;;
                if negb (rc =? 0) then
                  rc <- errno ;;
                  stderr (MsgSync rc) ;;;
                  pret rc
                else pret rc
              else pret rc1) q1
             = Some (Ret rc2, q2)
             /\ same_files q1 q2 /\ p_fds q2 = p_fds q1
             /\ p_src_stat q2 = p_src_stat q1
             /\ p_dst_stat q2 = p_dst_stat q1
             /\ (rc1 <> 0 -> rc2 <> 0) /\ (rc2 = 0 -> rc1 = 0)).
  { destruct (Z.eqb_spec rc1 0) as [Hz|Hz].
    - destruct (fsync_cases q1) as [[e Hsync]|Hsync];
        rewrite (pbind_step _ _ _ _ _ Hsync); cbv beta;
        [change (negb (-1 =? 0)) with true | change (negb (0 =? 0)) with false];
        cbv iota.
      + rewrite (pbind_step _ _ _ _ _ (errno_answered _ _ _)).
        eexists _, _. split; [reflexivity|]. split; [frames|].
        repeat split; lia.
      + eexists _, _. split; [reflexivity|]. split; [frames|].
        repeat split; lia.
    - exists rc1, q1. split; [reflexivity|]. split; [apply same_files_refl|].
      repeat split; lia. }
  destruct H2 as (rc2 & q2 & Hrun2 & Hsame2 & Hf2 & Hs2 & Hd2 & Hkeep2 & Hok2).
  rewrite (pbind_step _ _ _ _ _ Hrun2). cbv beta.
  (* the descriptors *)
  destruct (close_files_spec o q2)
    as (close_rc & q3 & Hrun3 & Hsame3 & Hs3 & Hd3 & Hf3).
  rewrite (pbind_step _ _ _ _ _ Hrun3). cbv beta.
  assert (Hsame : same_files q q3)
    by (apply same_files_trans with q2; [|assumption];
        now apply same_files_trans with q1).
  assert (Hfinal : forall q4,
             same_files q3 q4 -> p_fds q4 = p_fds q3 ->
             p_src_stat q4 = p_src_stat q3 -> p_dst_stat q4 = p_dst_stat q3 ->
             forall rc3, (rc2 <> 0 -> rc3 <> 0) -> (rc3 = 0 -> rc2 = 0) ->
             same_files q q4
             /\ p_src_stat q4 = p_src_stat q
             /\ ((if rc3 =? 0 then EXIT_SUCCESS else EXIT_FAILURE)
                 = EXIT_SUCCESS
                 \/ (if rc3 =? 0 then EXIT_SUCCESS else EXIT_FAILURE)
                    = EXIT_FAILURE)
             /\ (rc <> 0 ->
                 (if rc3 =? 0 then EXIT_SUCCESS else EXIT_FAILURE)
                 = EXIT_FAILURE
                 /\ p_dst_stat q4 = p_dst_stat q)
             /\ ((if rc3 =? 0 then EXIT_SUCCESS else EXIT_FAILURE)
                 = EXIT_SUCCESS ->
                 rc = 0
                 /\ p_dst_stat q4
                    = preserved (preserve_mode o) (p_src_stat q)
                                (p_dst_stat q))
             /\ (forall x,
                   In x (p_fds q4) <->
                   In x (p_fds q)
                   /\ ~ (0 <= src_fd o /\ x = src_fd o)
                   /\ ~ (0 <= dst_fd o /\ x = dst_fd o))).
  { intros q4 Hsame4 Hf4 Hs4 Hd4 rc3 Hkeep3 Hok3.
    split; [now apply same_files_trans with q3|].
    split; [congruence|].
    split; [destruct (rc3 =? 0); auto|].
    split.
    { intros Hrc. destruct (Hkeep1 Hrc) as [Hrc1 Hd1].
      destruct (Z.eqb_spec rc3 0) as [Hz|Hz].
      - exfalso. apply (Hkeep2 Hrc1). now apply Hok3.
      - split; [reflexivity | congruence]. }
    split.
    { destruct (Z.eqb_spec rc3 0) as [Hz|Hz]; [|discriminate].
      intros _. destruct (Hattr1 (Hok2 (Hok3 Hz))) as [Hrc Hattr].
      split; [assumption | congruence]. }
    intros x. rewrite Hf4, Hf3, Hf2, Hf1. reflexivity. }
  destruct (Z.eqb_spec close_rc 0) as [Hc|Hc]; cbn [negb].
  - rewrite pbind_pret. eexists _, _. split; [reflexivity|].
    apply Hfinal; try reflexivity; try assumption; try (now intros).
    apply same_files_refl.
  - rewrite (pbind_step _ _ _ _ _ eq_refl : _ = _).
    eexists _, _. split; [reflexivity|].
    apply Hfinal; try reflexivity.
    + apply same_files_with_call.
    + intros H2. destruct (Z.eqb_spec rc2 0); [contradiction | assumption].
    + intros H3. destruct (Z.eqb_spec rc2 0); [assumption | contradiction].
Qed.

(** ** [main] *)

Lemma lift_step {A} (m : M A) p a w' :
  m (p_world p) = Some (a, w') -> lift m p = Some (Ret a, with_world w' p).
Proof. intros H. unfold lift. now rewrite H. Qed.

Lemma lift_none {A B} (m : M A) (k : A -> P B) p :
  m (p_world p) = None -> pbind (lift m) k p = None.
Proof. intros H. unfold pbind, lift. now rewrite H. Qed.

Lemma no_descriptor (l : list Z) : (forall x, ~ In x l) -> l = [].
Proof.
  destruct l as [|x l]; [reflexivity|]. intros H. destruct (H x). now left.
Qed.

(** [main] when a file did not open. *)
Lemma run_not_opened fuel o p rc o1 p1 :
  open_files o p = Some (Ret (rc, o1), p1) -> rc <> 0 ->
  exists p',
    run fuel o p = Some (Ret EXIT_FAILURE, p')
    /\ same_files p1 p'
    /\ p_src_stat p' = p_src_stat p1 /\ p_dst_stat p' = p_dst_stat p1
    /\ (forall x,
          In x (p_fds p') <->
          In x (p_fds p1)
          /\ ~ (0 <= src_fd o1 /\ x = src_fd o1)
          /\ ~ (0 <= dst_fd o1 /\ x = dst_fd o1)).
Proof.
  intros Hopen Hrc. unfold run.
  rewrite (pbind_step _ _ _ _ _ Hopen). cbv beta zeta. cbn [fst snd].
  destruct (Z.eqb_spec rc 0); [contradiction|]. rewrite pbind_pret.
  destruct (run_tail rc o1 p1)
    as (status & p' & Hrun & Hsame & Hs & _ & Hfail & _ & Hfds);
    [intros; contradiction|].
  destruct (Hfail Hrc) as [-> Hd].
  exists p'. split; [exact Hrun|]. repeat (split; [assumption|]).
  exact Hfds.
Qed.

(** [main] when both files are open: the clone, and what follows it. *)
Lemma run_opened fuel o p o1 p1 :
  open_files o p = Some (Ret (0, o1), p1) ->
  0 <= src_fd o1 -> 0 <= dst_fd o1 ->
  match clone_call fuel o1 (p_world p1) with
  | Some (rc, w2) =>
      exists status p',
        run fuel o p = Some (Ret status, p')
        /\ same_files (with_world w2 p1) p'
        /\ p_src_stat p' = p_src_stat p1
        /\ (status = EXIT_SUCCESS \/ status = EXIT_FAILURE)
        /\ (rc <> 0 -> status = EXIT_FAILURE /\ p_dst_stat p' = p_dst_stat p1)
        /\ (status = EXIT_SUCCESS ->
            rc = 0
            /\ p_dst_stat p'
               = preserved (preserve_mode o1) (p_src_stat p1) (p_dst_stat p1))
        /\ (forall x,
              In x (p_fds p') <->
              In x (p_fds p1) /\ x <> src_fd o1 /\ x <> dst_fd o1)
  | None => run fuel o p = None
  end.
Proof.
  intros Hopen Hs Hd. unfold run.
  rewrite (pbind_step _ _ _ _ _ Hopen). cbv beta zeta. cbn [fst snd].
  change (0 =? 0) with true. cbv iota.
  assert (Hlift : (match clone_mode o1 with
                   | CLONE_MODE_FILE =>
                       lift (qtm_clone_file fuel (src_fd o1) (dst_fd o1)
                               (fallback_copy o1) (block_size o1))
                   | CLONE_MODE_RANGE =>
                       lift (qtm_clone_file_range fuel (src_fd o1)
                               (dst_fd o1) (to_off_t (src_offset o1))
                               (to_off_t (dst_offset o1)) (src_length o1)
                               (fallback_copy o1) (block_size o1))
                   end) = lift (clone_call fuel o1))
    by (unfold clone_call; now destruct (clone_mode o1)).
  rewrite Hlift. clear Hlift.
  destruct (clone_call fuel o1 (p_world p1)) as [[rc w2]|] eqn:Hclone.
  2:{ now apply lift_none. }
  rewrite (pbind_step _ _ _ _ _ (lift_step _ _ _ _ Hclone)).
  destruct (run_tail rc o1 (with_world w2 p1))
    as (status & p' & Hrun & Hsame & Hst & Hstatus & Hfail & Hok & Hfds);
    [now intros|].
  exists status, p'. split; [exact Hrun|].
  repeat (split; [assumption|]).
  intros x. rewrite Hfds. cbn [with_world p_fds]. intuition lia.
Qed.



Lemma pbind_abort {A B} (m : P A) (k : A -> P B) p p1 :
  m p = Some (Abort, p1) -> pbind m k p = Some (Abort, p1).
Proof. intros H. unfold pbind. now rewrite H. Qed.

Lemma same_files_after_open p p1 :
  after_open p p1 -> w_dst (p_world p1) = w_dst (p_world p) ->
  p_dst_exists p1 = p_dst_exists p -> same_files p p1.
Proof.
  intros [A1 A2 A3 A4 A5 A6] Hd He. constructor; try assumption.
  unfold dst_data. now rewrite Hd.
Qed.

(** The three ways [main] goes on once the options are read: a file does
    not open; both open, and the clone is called; or the assertion of
    [open_files] fails. *)
Lemma run_cases fuel o p :
  src_fd o < 0 -> dst_fd o < 0 -> p_fds p = [] ->
  (exists p',
      run fuel o p = Some (Ret EXIT_FAILURE, p') /\ untouched p p')
  \/ (exists o1 p1,
        open_files o p = Some (Ret (0, o1), p1)
        /\ same_request o o1 /\ src_fd o1 = 3 /\ dst_fd o1 = 4
        /\ after_open p p1
        /\ p_dst_exists p1 = true
        /\ w_src (p_world p1) = mkFile (src_data p) 0
        /\ w_dst (p_world p1)
           = mkFile (match clone_mode o with
                     | CLONE_MODE_FILE => []
                     | CLONE_MODE_RANGE =>
                         if p_dst_exists p then dst_data p else []
                     end) 0
        /\ (clone_mode o = CLONE_MODE_FILE ->
            p_dst_exists p = true -> force o = true)
        /\ match clone_call fuel o1 (p_world p1) with
           | Some (rc, w2) =>
               exists status p',
                 run fuel o p = Some (Ret status, p')
                 /\ same_files (with_world w2 p1) p'
                 /\ p_fds p' = []
                 /\ p_src_stat p' = p_src_stat p
                 /\ (status = EXIT_SUCCESS \/ status = EXIT_FAILURE)
                 /\ (rc <> 0 ->
                     status = EXIT_FAILURE /\ p_dst_stat p' = p_dst_stat p)
                 /\ (status = EXIT_SUCCESS ->
                     rc = 0
                     /\ p_dst_stat p'
                        = preserved (preserve_mode o) (p_src_stat p)
                                    (p_dst_stat p))
           | None => run fuel o p = None
           end)
  \/ (exists p',
        run fuel o p = Some (Abort, p') /\ after_open p p'
        /\ clone_mode o = CLONE_MODE_RANGE /\ force o = true
        /\ hd Full (tl (w_oracle (p_world p))) = Fail 17%positive).
Proof.
  intros Hsrc Hdst Hfds0.
  assert (Hnext : next_fd p = 3) by (unfold next_fd; now rewrite Hfds0).
  destruct (open_files_spec o p) as (out & p1 & Hopen & Hafter & Hres).
  rewrite Hnext, Hfds0 in Hres. cbn [app] in Hres.
  destruct Hres as [Hres|[Hres|[Hres|Hres]]].
  - (* the source did not open *)
    destruct Hres as (rc & o1 & -> & _ & Hrc & Hs1 & Hd1 & Hf1 & Hw1 & He1).
    destruct (run_not_opened fuel o p rc o1 p1 Hopen)
      as (p' & Hrun & Hsame & Hst1 & Hst2 & Hfds); [lia|].
    left. exists p'. split; [exact Hrun|].
    destruct Hafter as [A1 A2 A3 A4 A5 A6] eqn:Ea. clear Ea.
    split; [|split; [|split; congruence]].
    + apply same_files_trans with p1; [|assumption].
      now apply same_files_after_open.
    + rewrite Hfds0. apply no_descriptor. intros x Hx.
      apply Hfds in Hx. rewrite Hf1 in Hx. now destruct Hx.
  - (* the destination did not open *)
    destruct Hres as (rc & o1 & -> & _ & Hrc & Hs1 & Hd1 & Hf1 & Hw1 & He1).
    destruct (run_not_opened fuel o p rc o1 p1 Hopen)
      as (p' & Hrun & Hsame & Hst1 & Hst2 & Hfds); [lia|].
    left. exists p'. split; [exact Hrun|].
    destruct Hafter as [A1 A2 A3 A4 A5 A6] eqn:Ea. clear Ea.
    split; [|split; [|split; congruence]].
    + apply same_files_trans with p1; [|assumption].
      now apply same_files_after_open.
    + rewrite Hfds0. apply no_descriptor. intros x Hx.
      apply Hfds in Hx. rewrite Hf1, Hs1 in Hx.
      destruct Hx as ([Hx|[]] & Hn & _). apply Hn. split; [lia|congruence].
  - (* both are open *)
    destruct Hres as (o1 & -> & Hreq & Hs1 & Hd1 & Hf1 & He1 & Hw1 & Hw2 & Hforce).
    right. left. exists o1, p1.
    repeat (split; [assumption|]).
    pose proof (run_opened fuel o p o1 p1 Hopen) as Hrun.
    destruct (clone_call fuel o1 (p_world p1)) as [[rc w2]|];
      [|apply Hrun; lia].
    destruct Hrun as (status & p' & Hrun & Hsame & Hst & Hstatus & Hfail
                      & Hok & Hfds); [lia|lia|].
    destruct Hafter as [A1 A2 A3 A4 A5 A6] eqn:Ea. clear Ea.
    assert (Hmode : preserve_mode o1 = preserve_mode o) by apply Hreq.
    exists status, p'. split; [exact Hrun|]. split; [assumption|].
    split.
    { apply no_descriptor. intros x Hx. apply Hfds in Hx.
      rewrite Hf1, Hs1, Hd1 in Hx.
      destruct Hx as ([Hx|[Hx|[]]] & Hn1 & Hn2); congruence. }
    split; [congruence|]. split; [assumption|]. split.
    + intros Hrc. destruct (Hfail Hrc). split; congruence.
    + intros Hs. destruct (Hok Hs). split; congruence.
  - (* the assertion *)
    destruct Hres as (-> & Hm & Hf & Ho).
    right. right. exists p1. split; [unfold run; now apply pbind_abort|].
    split; [assumption|]. now repeat split.
Qed.

Lemma preserved_requested opts mode s d :
  has_flag mode PRESERVE_MODE_OWNER = given "a" opts || given "o" opts ->
  has_flag mode PRESERVE_MODE_TIMES = given "a" opts || given "t" opts ->
  has_flag mode PRESERVE_MODE_PERMS = given "a" opts || given "p" opts ->
  preserved mode s d = preserved (requested opts) s d.
Proof.
  intros Ho Ht Hp. unfold preserved, requested. rewrite Ho, Ht, Hp.
  destruct (given "a" opts || given "o" opts),
    (given "a" opts || given "t" opts), (given "a" opts || given "p" opts);
    reflexivity.
Qed.

(** [main] exits in [parse_options], or goes on with the operation it
    returns. *)
Lemma main_cases fuel opts args p :
  (exists p',
      main fuel opts args p = Some (Exit EXIT_FAILURE, p')
      /\ untouched p p')
  \/ (exists o,
        parse_options opts args initial_operation p = Some (Ret o, p)
        /\ main fuel opts args p = run fuel o p
        /\ src_fd o = -1 /\ dst_fd o = -1 /\ block_size o = 8192
        /\ force o = given "f" opts
        /\ clone_mode o = (if range_asked opts then CLONE_MODE_RANGE
                           else CLONE_MODE_FILE)
        /\ 0 <= src_offset o < 2 ^ 64 /\ 0 <= src_length o < 2 ^ 64
        /\ 0 <= dst_offset o < 2 ^ 64
        /\ (forall s d,
              preserved (preserve_mode o) s d
              = preserved (requested opts) s d)).
Proof.
  destruct (parse_options_total opts args p) as [[o Hparse]|(p' & Hparse & Hp')].
  - right. exists o. split; [assumption|].
    split; [unfold main; now rewrite (pbind_step _ _ _ _ _ Hparse)|].
    destruct (parse_options_ret _ _ _ _ _ Hparse)
      as (_ & _ & Hbs & Hs & Hd & _ & Hf & Ho & Ht & Hp & _ & Hm & Hso & Hl
          & Hdo & _).
    repeat (split; [assumption|]).
    intros s d. now apply preserved_requested.
  - left. exists p'. split; [|assumption].
    unfold main, pbind. now rewrite Hparse.
Qed.


Lemma same_request_fields o o1 :
  same_request o o1 ->
  block_size o1 = block_size o /\ src_length o1 = src_length o
  /\ clone_mode o1 = clone_mode o /\ src_offset o1 = src_offset o
  /\ dst_offset o1 = dst_offset o /\ fallback_copy o1 = fallback_copy o.
Proof.
  intros (H1 & H2 & H3 & H4 & H5 & H6 & H7 & H8 & H9 & H10).
  repeat split; assumption.
Qed.



(** X9.  Without [-f], the clone of a whole file never touches a
    destination that exists: the program ends with [EXIT_FAILURE], the
    destination holds what it held and has the attributes it had, the
    library was not called, and no descriptor is left open. *)
Theorem existing_destination_is_kept fuel opts args p :
  p_fds p = [] -> p_dst_exists p = true ->
  range_asked opts = false -> given "f" opts = false ->
  exists out p',
    main fuel opts args p = Some (out, p')
    /\ (out = Ret EXIT_FAILURE \/ out = Exit EXIT_FAILURE)
    /\ dst_data p' = dst_data p
    /\ p_dst_stat p' = p_dst_stat p
    /\ p_dst_exists p' = true
    /\ w_trace (p_world p') = w_trace (p_world p)
    /\ p_fds p' = [].
Proof.
  intros Hfds Hex Hrange Hf.
  assert (Hkept : forall out p',
             main fuel opts args p = Some (out, p') ->
             out = Ret EXIT_FAILURE \/ out = Exit EXIT_FAILURE ->
             untouched p p' ->
             exists out p',
               main fuel opts args p = Some (out, p')
               /\ (out = Ret EXIT_FAILURE \/ out = Exit EXIT_FAILURE)
               /\ dst_data p' = dst_data p
               /\ p_dst_stat p' = p_dst_stat p
               /\ p_dst_exists p' = true
               /\ w_trace (p_world p') = w_trace (p_world p)
               /\ p_fds p' = []).
  { intros out p' Hmain Hout ([A1 A2 A3 A4 A5 A6] & Hf' & Hs & Hd).
    exists out, p'. repeat (split; [assumption|]).
    split; [congruence|]. split; [assumption | congruence]. }
  destruct (main_cases fuel opts args p)
    as [(p' & Hmain & Hsame)
       |(o & _ & Hmain & Hsrc & Hdst & _ & Hforce & Hmode & _)].
  { apply (Hkept _ _ Hmain); auto. }
  rewrite Hrange in Hmode.
  destruct (run_cases fuel o p) as [Hrun|[Hrun|Hrun]]; try lia; try assumption.
  - destruct Hrun as (p' & Hrun & Hsame). rewrite <- Hmain in Hrun.
    apply (Hkept _ _ Hrun); auto.
  - destruct Hrun as (o1 & p1 & _ & _ & _ & _ & _ & _ & _ & _ & Himp & _).
    specialize (Himp Hmode Hex). congruence.
  - destruct Hrun as (p' & _ & _ & Hm & _). congruence.
Qed.

Lemma existing_destination_is_kept_witness :
  let p := boot (start (pattern 5) (pattern 3) [])
                true (mkStat 1 2 3 4 5) (mkStat 6 7 8 9 10) in
  exists out p',
    main 0 [("c"%char, String.EmptyString); ("a"%char, String.EmptyString)]
         ["a"; "b"]%string p
    = Some (out, p')
    /\ dst_data p' = pattern 3
    /\ p_dst_stat p' = mkStat 6 7 8 9 10.
Proof.
  intros p.
  destruct (existing_destination_is_kept 0
              [("c"%char, String.EmptyString); ("a"%char, String.EmptyString)]
              ["a"; "b"]%string p)
    as (out & p' & Hmain & _ & Hdata & Hstat & _); try reflexivity.
  exists out, p'. split; [exact Hmain|]. split; [exact Hdata | exact Hstat].
Defined.





(** ** The offsets of a range, as [off_t] *)


Lemma to_off_t_negative z : 2 ^ 63 <= z < 2 ^ 64 -> to_off_t z < 0.
Proof.
  intros Hz. unfold to_off_t.
  replace (z + 2 ^ 63) with (z - 2 ^ 63 + 1 * 2 ^ 64) by lia.
  rewrite Z.mod_add by lia. rewrite Z.mod_small by lia. lia.
Qed.



(** X12.  The offsets are read as 64-bit unsigned numbers and passed to
    the library as [off_t].  One from 2^63 on is negative there: the
    library refuses it with [EINVAL] and makes no call, and the program
    ends without the fuel of any loop.  When [main] returns, it is with
    [EXIT_FAILURE], and the destination holds what it held; but one that
    did not exist has been created, and is left behind, empty. *)
Theorem offsets_past_off_t_are_refused fuel opts args p o :
  p_fds p = [] ->
  parse_options opts args initial_operation p = Some (Ret o, p) ->
  2 ^ 63 <= src_offset o \/ 2 ^ 63 <= dst_offset o ->
  exists out p',
    main fuel opts args p = Some (out, p')
    /\ (out = Ret EXIT_FAILURE \/ out = Abort)
    /\ w_trace (p_world p') = w_trace (p_world p)
    /\ (out = Ret EXIT_FAILURE ->
        (dst_data p' = dst_data p /\ p_dst_exists p' = p_dst_exists p)
        \/ (p_dst_exists p = false /\ p_dst_exists p' = true
            /\ dst_data p' = [])).
Proof.
  intros Hfds Hparse Hlarge.
  assert (Hmain : main fuel opts args p = run fuel o p)
    by (unfold main; now rewrite (pbind_step _ _ _ _ _ Hparse)).
  destruct (parse_options_ret _ _ _ _ _ Hparse)
    as (_ & _ & Hbs & Hsrc & Hdst & _ & _ & _ & _ & _ & _ & Hmode & Hso & Hlen
        & Hdo & Hs0 & _ & Hd0).
  assert (Hrange : clone_mode o = CLONE_MODE_RANGE).
  { rewrite Hmode.
    destruct (given "s" opts); [now rewrite !orb_true_r|].
    destruct (given "d" opts); [reflexivity|].
    specialize (Hs0 eq_refl). specialize (Hd0 eq_refl). lia. }
  rewrite Hmain.
  destruct (run_cases fuel o p) as [Hrun|[Hrun|Hrun]]; try lia; try assumption.
  - destruct Hrun as (p' & Hrun & [A1 A2 A3 A4 A5 A6] & _).
    exists (Ret EXIT_FAILURE), p'. split; [assumption|].
    split; [now left|]. split; [assumption|]. intros _. left. now split.
  - destruct Hrun as (o1 & p1 & _ & Hreq & Hs1 & Hd1 & [_ T1 _ _ _ _] & Hex
                      & Hw1 & Hw2 & _ & Hrun).
    apply same_request_fields in Hreq.
    destruct Hreq as (Hbs1 & Hlen1 & Hmode1 & Hso1 & Hdo1 & _).
    assert (Hclone : clone_call fuel o1 (p_world p1)
                     = Some (EINVAL, p_world p1)).
    { unfold clone_call. rewrite Hmode1, Hrange.
      apply qtm_clone_file_range_invalid. rewrite Hso1, Hdo1.
      destruct Hlarge as [H|H];
        [right; right; left | right; right; right; left];
        apply to_off_t_negative; lia. }
    rewrite Hclone in Hrun.
    destruct Hrun as (status & p' & Hrun & [B1 B2 B3 B4 B5 B6] & _ & _ & _
                      & Hfail & _).
    destruct Hfail as [-> _]; [discriminate|].
    exists (Ret EXIT_FAILURE), p'. split; [assumption|].
    split; [now left|].
    cbn [with_world p_world p_dst_exists] in B3, B5.
    unfold dst_data in B2 at 2. cbn [with_world p_world] in B2.
    rewrite Hw2, Hrange in B2. cbn [f_data] in B2.
    split; [congruence|]. intros _.
    destruct (p_dst_exists p); [left | right]; repeat split; congruence.
  - destruct Hrun as (p' & Hrun & [_ T1 _ _ _ _] & _).
    exists Abort, p'. split; [assumption|]. split; [now right|].
    split; [assumption | discriminate].
Qed.

Lemma offsets_past_off_t_are_refused_witness :
  let p := boot (start (pattern 8) [] [])
                false (mkStat 1 2 3 4 5) (mkStat 6 7 8 9 10) in
  let opts := [("s"%char, "9223372036854775808"%string)] in
  exists out p',
    main 0 opts ["a"; "b"]%string p = Some (out, p')
    /\ w_trace (p_world p') = [].
Proof.
  intros p opts.
  assert (Hparse : { o | parse_options opts ["a"; "b"]%string
                           initial_operation p = Some (Ret o, p)
                         /\ src_offset o = 2 ^ 63 })
    by (eexists; split; vm_compute; reflexivity).
  destruct Hparse as (o & Hparse & Hso).
  destruct (offsets_past_off_t_are_refused 0 opts ["a"; "b"]%string p o
              eq_refl Hparse) as (out & p' & Hmain & _ & Htrace & _).
  - left. rewrite Hso. lia.
  - exists out, p'. split; [exact Hmain | exact Htrace].
Defined.

End CprFacts.
